(** * dclab: configuration store, hierarchy children and the RT-DC writer

    A shallow embedding of [dclab/rtdc_dataset/config.py],
    [dclab/rtdc_dataset/fmt_dict.py],
    [dclab/rtdc_dataset/fmt_hierarchy.py] and
    [dclab/rtdc_dataset/write_hdf5.py], followed by the properties their
    specification states, each proved or refuted over the embedding, and
    by further properties of the code.

    Python objects are mutated in place, and an exception leaves behind
    whatever was mutated before it: every method is a state transformer
    whose outcome carries the state also when it raises. *)

Set Warnings "-inexact-float,-register-all".
From Stdlib Require Import PrimFloat ZArith Ascii String.
From stdpp Require Import gmap strings list fin_maps pretty.

Local Open Scope Z_scope.
Local Open Scope string_scope.

(** * Part I: the embedding *)

(** ** The Python runtime: exceptions and mutable state *)

Module Py.

(** The exception classes the three modules raise or let through. *)
Inductive exn : Type :=
| AssertionError (msg : string)
| KeyError (key : string)
| TypeError (msg : string)
| ValueError (msg : string)
| IndexError (msg : string)
| AttributeError (msg : string)
| NameError (msg : string)
| NotImplementedError (msg : string).

(** What a call leaves behind: a value or an exception, and in both cases
    the state of the objects it worked on. *)
Inductive outcome (S A : Type) : Type :=
| Ok (a : A) (s : S)
| Raise (e : exn) (s : S).
Global Arguments Ok {S A} a s.
Global Arguments Raise {S A} e s.

Definition state_after {S A} (o : outcome S A) : S :=
  match o with Ok _ s => s | Raise _ s => s end.

Definition raised {S A} (o : outcome S A) : option exn :=
  match o with Ok _ _ => None | Raise e _ => Some e end.

Definition M (S A : Type) : Type := S → outcome S A.

Definition ret {S A} (a : A) : M S A := λ s, Ok a s.

Definition bind {S A B} (m : M S A) (k : A → M S B) : M S B :=
  λ s, match m s with
       | Ok a s' => k a s'
       | Raise e s' => Raise e s'
       end.

Definition raise {S A} (e : exn) : M S A := λ s, Raise e s.

Definition get {S} : M S S := λ s, Ok s s.

Definition modify {S} (f : S → S) : M S unit := λ s, Ok tt (f s).

(** A value that is either there or an exception, read without touching
    the state. *)
Definition lift {S A} (r : exn + A) : M S A :=
  λ s, match r with inl e => Raise e s | inr a => Ok a s end.

(** [if cond: body] *)
Definition when {S} (cond : bool) (body : M S unit) : M S unit :=
  if cond then body else ret tt.

(** [for x in l: body(x)] *)
Fixpoint for_each {S A} (l : list A) (body : A → M S unit) : M S unit :=
  match l with
  | [] => ret tt
  | x :: r => bind (body x) (λ _, for_each r body)
  end.

(** [str.lower()], on the ASCII letters. *)
Definition lower_ascii (c : ascii) : ascii :=
  let n := nat_of_ascii c in
  if ((65 <=? n) && (n <=? 90))%nat then ascii_of_nat (n + 32) else c.

Fixpoint lower (s : string) : string :=
  match s with
  | EmptyString => EmptyString
  | String c r => String (lower_ascii c) (lower r)
  end.

(** [str.strip]: whitespace, or the characters given, off both ends. *)
Fixpoint lstrip_by (drop : ascii → bool) (s : string) : string :=
  match s with
  | EmptyString => EmptyString
  | String c r => if drop c then lstrip_by drop r else s
  end.

Definition strip_by (drop : ascii → bool) (s : string) : string :=
  String.rev (lstrip_by drop (String.rev (lstrip_by drop s))).

Definition is_space (c : ascii) : bool :=
  let n := nat_of_ascii c in
  ((9 <=? n) && (n <=? 13) || (28 <=? n) && (n <=? 32))%nat.

Definition strip (s : string) : string := strip_by is_space s.

Definition strip_chars (chars : list ascii) (s : string) : string :=
  strip_by (λ c, bool_decide (c ∈ chars)) s.

(** [s.split(sep)] for a one-character separator. *)
Fixpoint split_on (sep : ascii) (s : string) : list string :=
  match s with
  | EmptyString => [EmptyString]
  | String c r =>
      if Ascii.eqb c sep then EmptyString :: split_on sep r
      else match split_on sep r with
           | h :: t => String c h :: t
           | [] => [String c EmptyString]
           end
  end.

(** [s.replace(old, new)] for single characters. *)
Fixpoint replace_char (old new : ascii) (s : string) : string :=
  match s with
  | EmptyString => EmptyString
  | String c r => String (if Ascii.eqb c old then new else c) (replace_char old new r)
  end.

(** [sep.join(parts)] *)
Definition join (sep : string) (parts : list string) : string :=
  String.concat sep parts.

(** [s.startswith(prefix)] and [s.endswith(suffix)] *)
Definition startswith (s prefix : string) : bool := String.prefix prefix s.

Definition endswith (s suffix : string) : bool :=
  String.prefix (String.rev suffix) (String.rev s).

(** [s[0]] and [s[-1]] of a string that is not empty. *)
Definition first_char (s : string) : option ascii := String.get 0 s.

Definition last_char (s : string) : option ascii := String.get 0 (String.rev s).

End Py.

Import Py.

Notation "x <- m ;; k" := (Py.bind m (λ x, k))
  (at level 100, m at next level, right associativity, only parsing).
Notation "m ;;; k" := (Py.bind m (λ _, k))
  (at level 100, right associativity, only parsing).

(** ** config.py *)

Module Config.

(** The runtime types of a configuration value: what [keyval_str2typ]
    produces, and the integers and the NaN that [_fix_config] stores. *)
Inductive cfgval : Type :=
| CBool (b : bool)
| CInt (z : Z)
| CFloat (f : float)
| CStr (s : string)
| CList (l : list float).

(** [class CaseInsensitiveDict(dict)]: a dict whose every access goes
    through [_k]. *)
Abbreviation CaseInsensitiveDict V := (gmap string V) (only parsing).

Definition _k (key : string) : string := lower key.

Definition ci_getitem {V} (key : string) (d : CaseInsensitiveDict V) : exn + V :=
  match d !! _k key with
  | Some v => inr v
  | None => inl (KeyError key)
  end.

Definition ci_setitem {V} (key : string) (v : V) (d : CaseInsensitiveDict V)
  : CaseInsensitiveDict V := <[_k key := v]> d.

Definition ci_contains {V} (key : string) (d : CaseInsensitiveDict V) : bool :=
  bool_decide (is_Some (d !! _k key)).

Definition ci_pop {V} (key : string) (d : CaseInsensitiveDict V)
  : CaseInsensitiveDict V := delete (_k key) d.

(** [Configuration._cfg]: section name -> key name -> value. *)
Abbreviation Configuration := (gmap string (gmap string cfgval)) (only parsing).

(** A dict-like source handed to [update], as the sequence of its items in
    iteration order. *)
Definition source : Type := list (string * list (string * cfgval)).

(** The items of a configuration, as [update(other)] iterates them. *)
Definition items (c : Configuration) : source :=
  map_to_list (map_to_list <$> c).

(** [Configuration.__contains__] *)
Definition cfg_contains (key : string) : M Configuration bool :=
  c <- get ;; ret (ci_contains key c).

(** [Configuration.__getitem__]; a section is a dict, so the lower-casing
    of string items never applies to it. *)
Definition cfg_getitem (idx : string) : M Configuration (gmap string cfgval) :=
  c <- get ;; lift (ci_getitem idx c).

(** [self[sec][key] = v]: the section is looked up, then mutated in
    place. *)
Definition cfg_setkey (sec key : string) (v : cfgval) : M Configuration unit :=
  d <- cfg_getitem sec ;;
  modify (ci_setitem sec (ci_setitem key v d)).

(** [cfg[sec][key]] read through both case-insensitive levels: the value,
    or [None] when the section or the key is missing. *)
Definition entry (sec key : string) (c : Configuration) : option cfgval :=
  c !! _k sec ≫= λ d, d !! _k key.

(** A configuration as the [Configuration] constructor leaves it (for a
    non-empty [uid]): it has the three sections [_fix_config] reads, and
    the channel width. *)
Definition complete (c : Configuration) : Prop :=
  is_Some (entry "general" "channel width" c) ∧
  is_Some (c !! "plotting") ∧
  is_Some (c !! "filtering").

(** [value < 0.16] on a Python 3 value: floats compare as IEEE doubles
    (NaN is below nothing), integers and booleans compare exactly (an
    integer is below 0.16 when it is below 1), a string or a list cannot
    be ordered against a float. *)
Definition lt_0_16 (v : cfgval) : exn + bool :=
  match v with
  | CFloat f => inr (PrimFloat.ltb f 0.16%float)
  | CInt z => inr (z <? 1)%Z
  | CBool b => inr (negb b)
  | CStr _ => inl (TypeError "'<' not supported between instances of 'str' and 'float'")
  | CList _ => inl (TypeError "'<' not supported between instances of 'list' and 'float'")
  end.

Section WithDefinitions.

(** [dclab.definitions.uid], the known feature identifiers, and the
    module global [default], the packaged [config_default.cfg] as
    [load_from_file] returned it; neither is among the sources at hand. *)
Variable uid : list string.
Variable default : source.

(** [float(s)] on a string, [None] standing for its [ValueError], and
    ["{:.12f}".format(x)]: the parsing and the printing of doubles are
    taken as given. *)
Variable py_float : string → option float.
Variable format_12f : float → string.

(** [keyval_str2typ(var, val)]; [val] is a string, or a value that has a
    type already. The result is [None] where the function falls off its
    end without a [return]. *)
Definition keyval_str2typ (var : string) (val : string + cfgval)
  : exn + option (string * cfgval) :=
  match val with
  | inr typed => inr (Some (strip var, typed))
  | inl val =>
      let var := lower (strip var) in
      let val := strip val in
      if negb (String.length var =? 0)%nat && negb (String.length val =? 0)%nat then
        if startswith val "[" && endswith val "]" then
          let inner := strip_chars ["["; "]"; ","]%char val in
          if (String.length inner =? 0)%nat then inr (Some (var, CList []))
          else match mapM py_float (split_on "," inner) with
               | Some values => inr (Some (var, CList values))
               | None => inl (ValueError "could not convert string to float")
               end
        else if bool_decide (lower val ∈ ["true"; "y"]) then inr (Some (var, CBool true))
        else if bool_decide (lower val ∈ ["false"; "n"]) then inr (Some (var, CBool false))
        else if bool_decide (first_char val ∈ [Some "'"%char; Some (ascii_of_nat 34)])
                && bool_decide (last_char val ∈ [Some "'"%char; Some (ascii_of_nat 34)])
        then inr (Some (var, CStr (strip (strip_chars [ascii_of_nat 34]
                                            (strip_chars ["'"%char] val)))))
        else if bool_decide (val ∈ uid) then inr (Some (var, CStr val))
        else match py_float (replace_char "," "." val) with
             | Some f => inr (Some (var, CFloat f))
             | None => inr (Some (var, CStr val))
             end
      else inr None
  end.

(** [keyval_typ2str(var, val)]; the items of a list are floats. *)
Definition keyval_typ2str (var : string) (val : cfgval) : string * string :=
  let varout := lower (strip var) in
  let valout :=
    match val with
    | CList l => "[" +:+ join ", " (format_12f <$> l) +:+ "]"
    | CFloat f => format_12f f
    | CBool b => if b then "True" else "False"
    | CInt z => pretty z
    | CStr s => s
    end in
  (varout, valout).

(** [Configuration.update] *)
Definition update (newcfg : source) : M Configuration unit :=
  for_each newcfg (λ '(key, sect),
    c <- get ;;
    when (negb (ci_contains key c))
         (modify (ci_setitem key (∅ : gmap string cfgval))) ;;;
    for_each sect (λ '(skey, v), cfg_setkey key skey v)).

(** [Configuration._fix_config] *)
Definition _fix_config : M Configuration unit :=
  has_general <- cfg_contains "general" ;;
  when (negb has_general)
       (raise (AssertionError "Configuration not properly initialized!")) ;;;
  general <- cfg_getitem "general" ;;
  when (negb (ci_contains "flow Rate [ul/s]" general))
       (cfg_setkey "general" "flow Rate [ul/s]" (CFloat nan)) ;;;
  general <- cfg_getitem "general" ;;
  when (negb (ci_contains "channel width" general))
       (general <- cfg_getitem "general" ;;
        rate <- lift (ci_getitem "flow Rate [ul/s]" general) ;;
        below <- lift (lt_0_16 rate) ;;
        if (below : bool)
        then cfg_setkey "general" "channel width" (CInt 20)
        else cfg_setkey "general" "channel width" (CInt 30)) ;;;
  for_each uid (λ item,
    for_each [" min"; " max"] (λ a,
      plotting <- cfg_getitem "plotting" ;;
      when (negb (ci_contains (item +:+ a) plotting))
           (cfg_setkey "plotting" (item +:+ a) (CInt 0)) ;;;
      filtering <- cfg_getitem "filtering" ;;
      when (negb (ci_contains (item +:+ a) filtering))
           (cfg_setkey "filtering" (item +:+ a) (CInt 0)))).

(** The part of [Configuration.__init__] that layers the sources: the
    defaults, then the explicit mapping, then every loaded file. *)
Definition load_sources (files : list source) (cfg : source) : M Configuration unit :=
  update default ;;;
  update cfg ;;;
  for_each files update.

(** [Configuration.__init__(files, cfg)] with [rtdc_ds=None], on the
    empty [_cfg] it starts from: the new object, or the exception that
    ends the construction. *)
Definition Configuration_init (files : list source) (cfg : source)
  : outcome Configuration unit :=
  (load_sources files cfg ;;; _fix_config) ∅.

End WithDefinitions.

End Config.

(** ** config.py, continued: the dict class, files, copies and datasets *)

(** More of the Python built-ins, for the functions below. *)
Module PyText.

(** [s.split(sep, 1)] for a one-character separator: the text before the
    first separator and the text after it, or [s] alone. *)
Fixpoint split_once (sep : ascii) (s : string) : list string :=
  match s with
  | EmptyString => [EmptyString]
  | String c r =>
      if Ascii.eqb c sep then [EmptyString; r]
      else match split_once sep r with
           | h :: t => String c h :: t
           | [] => [String c EmptyString]
           end
  end.

(** [s[1:-1]] *)
Definition slice_1_m1 (s : string) : string :=
  String.substring 1 (String.length s - 2) s.

(** [sorted(keys)]; the order of [str] is by code point, the shorter of
    two strings first when one starts the other. *)
Fixpoint insert_sorted (k : string) (keys : list string) : list string :=
  match keys with
  | [] => [k]
  | k' :: rest =>
      if String.leb k k' then k :: keys else k' :: insert_sorted k rest
  end.

Definition sorted (keys : list string) : list string :=
  foldr insert_sorted [] keys.

(** The line end [Configuration.save] writes. *)
Definition crlf : string :=
  String (ascii_of_nat 13) (String (ascii_of_nat 10) EmptyString).

End PyText.

Module CaseInsensitive.
Import Config PyText.

Section Dict.

Context {V : Type}.

(** [dict(pairs)]: a later pair replaces the value of an earlier pair
    with the same key. *)
Definition dict (pairs : list (string * V)) : gmap string V :=
  foldl (λ d '(k, v), <[k := v]> d) ∅ pairs.

(** The keys of [dict(pairs)] in iteration order: every key where it
    occurs first. *)
Fixpoint dict_keys (seen : list string) (pairs : list (string * V)) : list string :=
  match pairs with
  | [] => []
  | (k, _) :: rest =>
      if bool_decide (k ∈ seen) then dict_keys seen rest
      else k :: dict_keys (k :: seen) rest
  end.

(** [CaseInsensitiveDict._convert_keys], over [list(self.keys())]; the
    map does not record the order of insertion, so the keys come in as
    the dict would iterate them. *)
Definition _convert_keys (keys : list string) : M (gmap string V) unit :=
  for_each keys (λ k,
    self <- get ;;
    match self !! k with
    | None => raise (KeyError k)
    | Some v => modify (delete k) ;;; modify (ci_setitem k v)
    end).

(** [CaseInsensitiveDict.__init__(pairs)] *)
Definition ci_init (pairs : list (string * V)) : outcome (gmap string V) unit :=
  _convert_keys (dict_keys [] pairs) (dict pairs).

(** [CaseInsensitiveDict.__delitem__] *)
Definition ci_delitem (key : string) : M (gmap string V) unit :=
  self <- get ;;
  match self !! _k key with
  | None => raise (KeyError (_k key))
  | Some _ => modify (delete (_k key))
  end.

(** [CaseInsensitiveDict.pop(key)] and [pop(key, default)] *)
Definition ci_pop_value (key : string) (default : option V) : M (gmap string V) V :=
  self <- get ;;
  match self !! _k key with
  | Some v => modify (delete (_k key)) ;;; ret v
  | None =>
      match default with
      | Some v => ret v
      | None => raise (KeyError (_k key))
      end
  end.

(** [CaseInsensitiveDict.get(key)] and [get(key, default)]; the result
    [None] is Python's [None]. *)
Definition ci_get (key : string) (default : option V) (self : gmap string V) : option V :=
  match self !! _k key with
  | Some v => Some v
  | None => default
  end.

(** [CaseInsensitiveDict.setdefault(key, default)] *)
Definition ci_setdefault (key : string) (default : V) : M (gmap string V) V :=
  self <- get ;;
  match self !! _k key with
  | Some v => ret v
  | None => modify (<[_k key := default]>) ;;; ret default
  end.

(** [CaseInsensitiveDict.update(E)]: the pairs go through the class
    constructor, and the result is merged in by [dict.update]. *)
Definition ci_update (E : list (string * V)) : M (gmap string V) unit :=
  match ci_init E with
  | Ok _ converted => modify (λ self, converted ∪ self)
  | Raise e _ => raise e
  end.

(** [CaseInsensitiveDict.items()]: the keys are sorted, and every value
    is read back through [__getitem__]. *)
Fixpoint read_back (keys : list string) (self : gmap string V)
  : exn + list (string * V) :=
  match keys with
  | [] => inr []
  | k :: rest =>
      match ci_getitem k self with
      | inl e => inl e
      | inr v =>
          match read_back rest self with
          | inl e => inl e
          | inr out => inr ((k, v) :: out)
          end
      end
  end.

Definition ci_items (self : gmap string V) : exn + list (string * V) :=
  read_back (sorted (fst <$> map_to_list self)) self.

End Dict.

End CaseInsensitive.

Module ConfigFile.
Import Config PyText CaseInsensitive.

(** [len(str(val)) != 0]: of the values [keyval_str2typ] produces, only
    the empty string prints as nothing. *)
Definition prints_empty (val : cfgval) : bool :=
  match val with
  | CStr s => (String.length s =? 0)%nat
  | _ => false
  end.

(** [line.split("#")[0].strip().lower()] *)
Definition content (line : string) : string :=
  lower (strip (hd EmptyString (split_on "#" line))).

(** [line.startswith("[") and line.endswith("]")] *)
Definition is_header (line : string) : bool :=
  startswith line "[" && endswith line "]".

Section WithDefinitions.

Variable uid : list string.
Variable default : source.
Variable py_float : string → option float.
Variable format_12f : float → string.

(** The body of the loop of [load_from_file]; the state is the local
    variables [cfg] and [section], the latter unbound until the first
    header. An unbound local raises [UnboundLocalError], which is a
    [NameError]. *)
Definition read_line (line : string) : M (Configuration * option string) unit :=
  let line := content line in
  when (negb (String.length line =? 0)%nat)
    (if is_header line then
       let section := slice_1_m1 line in
       modify (λ st : Configuration * option string,
         (if ci_contains section st.1 then st.1
          else ci_setitem section (∅ : gmap string cfgval) st.1,
          Some section))
     else
       varval <- lift (match split_once "=" line with
                       | [var; val] => inr (var, val)
                       | _ => inl (ValueError "not enough values to unpack (expected 2, got 1)")
                       end) ;;
       converted <- lift (keyval_str2typ uid py_float varval.1 (inl varval.2)) ;;
       varval <- lift (match converted with
                       | Some (var, val) => inr (var, val)
                       | None => inl (TypeError "cannot unpack non-iterable NoneType object")
                       end) ;;
       when (negb (String.length varval.1 =? 0)%nat && negb (prints_empty varval.2))
         (st <- get ;;
          match st.2 with
          | None => raise (NameError "local variable 'section' referenced before assignment")
          | Some section =>
              match cfg_setkey section varval.1 varval.2 st.1 with
              | Ok _ cfg => modify (λ _, (cfg, Some section))
              | Raise e _ => raise e
              end
          end)).

(** [load_from_file(cfg_file)], on the lines [f.readlines()] returns. *)
Definition load_from_file (code : list string) : exn + Configuration :=
  match for_each code read_line (∅, None) with
  | Ok _ st => inr st.1
  | Raise e _ => inl e
  end.

(** The lines [Configuration.save] collects for one section. *)
Fixpoint save_keys (section : gmap string cfgval) (ikeys : list string)
  : exn + list string :=
  match ikeys with
  | [] => inr []
  | ikey :: rest =>
      match ci_getitem ikey section with
      | inl e => inl e
      | inr v =>
          let varval := keyval_typ2str format_12f ikey v in
          match save_keys section rest with
          | inl e => inl e
          | inr out => inr ((varval.1 +:+ " = " +:+ varval.2) :: out)
          end
      end
  end.

Fixpoint save_sections (c : Configuration) (keys : list string) : exn + list string :=
  match keys with
  | [] => inr []
  | key :: rest =>
      match ci_getitem key c with
      | inl e => inl e
      | inr section =>
          match save_keys section (sorted (fst <$> map_to_list section)) with
          | inl e => inl e
          | inr lines =>
              match save_sections c rest with
              | inl e => inl e
              | inr out => inr (("[" +:+ key +:+ "]") :: lines ++ EmptyString :: out)%list
              end
          end
      end
  end.

(** [Configuration.save(filename)]: the lines handed to [f.writelines],
    each with its Windows line end. *)
Definition save (c : Configuration) : exn + list string :=
  match save_sections c (sorted (fst <$> map_to_list c)) with
  | inl e => inl e
  | inr out => inr ((λ l, l +:+ crlf) <$> out)
  end.

(** [Configuration.copy()] *)
Definition copy (c : Configuration) : outcome Configuration unit :=
  Configuration_init uid default [] (items c).

End WithDefinitions.

End ConfigFile.
(** ** numpy arrays, as far as the datasets use them *)

Module Np.

(** What an array holds for one event, along its first axis: a number, a
    line of text (in a log), or for image and trace features a nested
    array. *)
Inductive item : Type :=
| Int (z : Z)
| Float (f : float)
| Str (s : string)
| Row (r : list item).

(** [np.ndarray], first axis first. *)
Abbreviation ndarray := (list item) (only parsing).

(** [np.sum] of an integer array, and of a boolean array (which counts
    its [True] entries). *)
Definition sum (a : list Z) : Z := foldr Z.add 0 a.

Definition sum_bool (a : list bool) : Z := sum (Z.b2z <$> a).

(** [1 - a] for a boolean array [a]: an integer array. *)
Definition one_minus (a : list bool) : list Z := (λ b, 1 - Z.b2z b) <$> a.

(** [np.arange(start, stop)] *)
Definition arange (start stop : Z) : ndarray := Int <$> seqZ start (stop - start).

(** The entries of [a] at which the mask holds [True]. *)
Fixpoint select {A} (a : list A) (mask : list bool) : list A :=
  match a, mask with
  | x :: a', b :: mask' => if b then x :: select a' mask' else select a' mask'
  | _, _ => []
  end.

(** [a[mask]] for a boolean array [mask]: numpy refuses a mask whose
    length is not that of the first axis. *)
Definition bool_index {A} (a : list A) (mask : list bool) : exn + list A :=
  if decide (length mask = length a)
  then inr (select a mask)
  else inl (IndexError "boolean index did not match indexed array along axis 0").

End Np.

(** ** fmt_hierarchy.py *)

Module Hierarchy.
Import Config Np.

(** What a dataset hands out under a key: an array, or some other
    object. *)
Inductive pyobj : Type :=
| NdArray (a : ndarray)
| Other (repr : string).

(** [isinstance(value, np.ndarray)] *)
Definition is_ndarray (value : pyobj) : bool :=
  match value with NdArray _ => true | Other _ => false end.

(** What [RTDC_Hierarchy] uses of its parent, an instance of a subclass
    of [RTDCBase]: containment and item access, the parent's own
    [apply_filter], and the attributes [_filter], [path], [title],
    [config] and [identifier]. *)
Class RTDCBase (D : Type) : Type := {
  ds_contains : D → string → bool;
  ds_getitem : D → string → exn + pyobj;
  ds_apply_filter : M D unit;
  ds_filter : D → list bool;
  ds_path : D → string;
  ds_title : D → string;
  ds_config : D → gmap string (gmap string cfgval);
  ds_identifier : D → string;
}.

(** An instance of [RTDC_Hierarchy]: the attributes the class assigns or
    reads. The parent is part of the child's state, since the child's
    methods call the parent's [apply_filter]. *)
Record RTDC_Hierarchy (D : Type) : Type := {
  hparent : D;
  _events : gmap string pyobj;
  path : string;
  title : string;
  config : gmap string (gmap string cfgval);
  _filter : list bool;
  _filter_manual : option (list bool);
  _old_filters : gmap string cfgval;
}.
Global Arguments hparent {D} _.
Global Arguments _events {D} _.
Global Arguments path {D} _.
Global Arguments title {D} _.
Global Arguments config {D} _.
Global Arguments _filter {D} _.
Global Arguments _filter_manual {D} _.
Global Arguments _old_filters {D} _.

Definition set_hparent {D} (p : D) (self : RTDC_Hierarchy D) : RTDC_Hierarchy D :=
  {| hparent := p; _events := _events self; path := path self;
     title := title self; config := config self; _filter := _filter self;
     _filter_manual := _filter_manual self; _old_filters := _old_filters self |}.

Definition set_events {D} (ev : gmap string pyobj) (self : RTDC_Hierarchy D)
  : RTDC_Hierarchy D :=
  {| hparent := hparent self; _events := ev; path := path self;
     title := title self; config := config self; _filter := _filter self;
     _filter_manual := _filter_manual self; _old_filters := _old_filters self |}.

Definition set_config {D} (cfg : gmap string (gmap string cfgval))
    (self : RTDC_Hierarchy D) : RTDC_Hierarchy D :=
  {| hparent := hparent self; _events := _events self; path := path self;
     title := title self; config := cfg; _filter := _filter self;
     _filter_manual := _filter_manual self; _old_filters := _old_filters self |}.

Definition set_path_title {D} (p t : string) (self : RTDC_Hierarchy D)
  : RTDC_Hierarchy D :=
  {| hparent := hparent self; _events := _events self; path := p;
     title := t; config := config self; _filter := _filter self;
     _filter_manual := _filter_manual self; _old_filters := _old_filters self |}.

Definition set_filter_manual {D} (fm : option (list bool)) (self : RTDC_Hierarchy D)
  : RTDC_Hierarchy D :=
  {| hparent := hparent self; _events := _events self; path := path self;
     title := title self; config := config self; _filter := _filter self;
     _filter_manual := fm; _old_filters := _old_filters self |}.

Definition set_filter {D} (f : list bool) (self : RTDC_Hierarchy D)
  : RTDC_Hierarchy D :=
  {| hparent := hparent self; _events := _events self; path := path self;
     title := title self; config := config self; _filter := f;
     _filter_manual := _filter_manual self; _old_filters := _old_filters self |}.

Definition set_old_filters {D} (old : gmap string cfgval) (self : RTDC_Hierarchy D)
  : RTDC_Hierarchy D :=
  {| hparent := hparent self; _events := _events self; path := path self;
     title := title self; config := config self; _filter := _filter self;
     _filter_manual := _filter_manual self; _old_filters := old |}.

(** The object before [__init__] has assigned anything. *)
Definition blank {D} (p : D) : RTDC_Hierarchy D :=
  {| hparent := p; _events := ∅; path := ""; title := ""; config := ∅;
     _filter := []; _filter_manual := None; _old_filters := ∅ |}.

(** The methods [RTDC_Hierarchy] inherits from [RTDCBase] and calls:
    [RTDCBase.__init__], [_init_filters] and [RTDCBase.apply_filter].
    [core.py] is not among the sources at hand. *)
Record inherited (D : Type) : Type := {
  RTDCBase_init : M (RTDC_Hierarchy D) unit;
  _init_filters : M (RTDC_Hierarchy D) unit;
  RTDCBase_apply_filter : M (RTDC_Hierarchy D) unit;
}.
Global Arguments RTDCBase_init {D} _.
Global Arguments _init_filters {D} _.
Global Arguments RTDCBase_apply_filter {D} _.

(** [hasattr(self, "_filter_manual") and np.sum(1-self._filter_manual) != 0] *)
Definition manual_excludes (fm : option (list bool)) : bool :=
  match fm with
  | Some m => negb (Np.sum (one_minus m) =? 0)%Z
  | None => false
  end.

Section WithParent.

Context {D : Type} `{RTDCBase D}.

(** [dclab.definitions.uid] and the default configuration, which the
    [Configuration] constructor uses, and the inherited methods. *)
Variable uid : list string.
Variable default : source.
Variable base : inherited D.

(** A call of a method of [self.hparent]. *)
Definition on_parent {A} (m : M D A) : M (RTDC_Hierarchy D) A :=
  λ self, match m (hparent self) with
          | Ok a p => Ok a (set_hparent p self)
          | Raise e p => Raise e (set_hparent p self)
          end.

(** [RTDC_Hierarchy.__contains__] *)
Definition __contains__ (self : RTDC_Hierarchy D) (key : string) : exn + bool :=
  if ds_contains (hparent self) key
  then match ds_getitem (hparent self) key with
       | inl e => inl e
       | inr value => inr (is_ndarray value)
       end
  else inr false.

(** [RTDC_Hierarchy.__getitem__] *)
Definition __getitem__ (self : RTDC_Hierarchy D) (key : string) : exn + pyobj :=
  match _events self !! key with
  | Some value => inr value
  | None =>
      match ds_getitem (hparent self) key with
      | inl e => inl e
      | inr (NdArray a) =>
          match bool_index a (ds_filter (hparent self)) with
          | inl e => inl e
          | inr a' => inr (NdArray a')
          end
      | inr (Other _) =>
          inl (NotImplementedError ("Hierarchy does not implement " +:+ key))
      end
  end.

(** [RTDC_Hierarchy.__len__] *)
Definition __len__ : M (RTDC_Hierarchy D) Z :=
  on_parent ds_apply_filter ;;;
  self <- get ;;
  ret (sum_bool (ds_filter (hparent self))).

(** [RTDC_Hierarchy.apply_filter] *)
Definition apply_filter : M (RTDC_Hierarchy D) unit :=
  on_parent ds_apply_filter ;;;
  self <- get ;;
  let length := sum_bool (ds_filter (hparent self)) in
  modify (λ self, set_events (<["index" := NdArray (arange 1 (length + 1))]> (_events self)) self) ;;;
  _init_filters base ;;;
  modify (set_old_filters ∅) ;;;
  self <- get ;;
  when (manual_excludes (_filter_manual self))
       (raise (NotImplementedError "filter_manual not supported in hierarchy!")) ;;;
  RTDCBase_apply_filter base.

(** [Configuration(cfg=...)] as an expression: the new configuration, or
    the exception. *)
Definition Configuration_new (cfg : source) : exn + gmap string (gmap string cfgval) :=
  match Configuration_init uid default [] cfg with
  | Ok _ c => inr c
  | Raise e _ => inl e
  end.

(** The keys [__init__] removes from the copied [filtering] section. *)
Definition is_applied_filter (key : string) : bool :=
  endswith key "min" || endswith key "max" || bool_decide (key = "polygon filters").

(** [RTDC_Hierarchy.__init__(hparent)]: the new child, or the exception
    that ends the construction. *)
Definition __init__ (parent : D) : outcome (RTDC_Hierarchy D) unit :=
  (RTDCBase_init base ;;;
   modify (set_events ∅) ;;;
   modify (set_path_title (ds_path parent) (ds_title parent +:+ "_child")) ;;;
   modify (set_hparent parent) ;;;
   cfg <- lift (Configuration_new (items (ds_config parent))) ;;
   filtering <- lift (ci_getitem "filtering" cfg) ;;
   let pops := List.filter is_applied_filter (fst <$> map_to_list filtering) in
   let filtering := foldr ci_pop filtering pops in
   let filtering := ci_setitem "hierarchy parent" (CStr (ds_identifier parent)) filtering in
   let cfg := ci_setitem "filtering" filtering cfg in
   config <- lift (Configuration_new (items cfg)) ;;
   modify (set_config config) ;;;
   apply_filter) (blank parent).

(** *** What the properties assume of the code that is not at hand *)

(** The parent's filter is up to date and equals [mask]: resolving it
    again changes nothing. *)
Definition resolved (p : D) (mask : list bool) : Prop :=
  ds_apply_filter p = Ok tt p ∧ ds_filter p = mask.

(** An inherited method that manages the filter attributes only: it
    returns, it leaves the parent and the event cache as they are, and it
    excludes no event by hand. *)
Definition manages_filters (m : M (RTDC_Hierarchy D) unit) : Prop :=
  ∀ self, ∃ self',
    m self = Ok tt self' ∧
    hparent self' = hparent self ∧
    _events self' = _events self ∧
    (manual_excludes (_filter_manual self) = false →
     manual_excludes (_filter_manual self') = false).

Definition base_manages_filters : Prop :=
  manages_filters (RTDCBase_init base) ∧
  manages_filters (_init_filters base) ∧
  manages_filters (RTDCBase_apply_filter base).

(** [_init_filters] returns, leaves the parent and the event cache as
    they are, and keeps a manual exclusion the user has set. *)
Definition init_filters_keeps_manual : Prop :=
  ∀ self, ∃ self',
    _init_filters base self = Ok tt self' ∧
    hparent self' = hparent self ∧
    _events self' = _events self ∧
    (manual_excludes (_filter_manual self) = true →
     manual_excludes (_filter_manual self') = true).

End WithParent.

End Hierarchy.

(** ** config.py, continued: completing a configuration from a dataset *)

Module ConfigDataset.
Import Config.

Section WithDataset.

(** The arrays a dataset hands out as attributes. *)
Context {A : Type}.

(** [dclab.definitions.rdv] and [dclab.definitions.cfgmap], the names of
    the real-valued features and their names in a configuration;
    [getattr(rtdc_ds, name)], an attribute of the dataset or the
    exception reading it raises; and numpy's [allclose(a, 0)], [nanmax],
    [nanmin] and [a.shape[0]], each with the exception it may raise.
    None of them is among the sources at hand. *)
Variable rdv : list string.
Variable cfgmap : gmap string string.
Variable getattr : string → exn + A.
Variable allclose_0 : A → exn + bool.
Variable nanmax : A → exn + float.
Variable nanmin : A → exn + float.
Variable shape_0 : A → exn + Z.

(** The first loop of [_complete_config_from_rtdc_ds]: the features
    whose values are not all close to zero. *)
Fixpoint nonzero (props : list string) : exn + list string :=
  match props with
  | [] => inr []
  | prop :: rest =>
      match getattr prop with
      | inl e => inl e
      | inr a =>
          match allclose_0 a with
          | inl e => inl e
          | inr close =>
              match nonzero rest with
              | inl e => inl e
              | inr keys => inr (if close then keys else prop :: keys)
              end
          end
      end
  end.

(** [accl = lambda a: (np.nanmax(a)-np.nanmin(a))/10] *)
Definition accl (a : A) : exn + float :=
  match nanmax a with
  | inl e => inl e
  | inr hi =>
      match nanmin a with
      | inl e => inl e
      | inr lo => inr ((hi - lo) / 10)%float
      end
  end.

(** [defs]; the format strings end in [{}], so formatting appends the
    name. *)
Definition defs : list (string * (A → exn + float)) :=
  [("contour accuracy ", accl); ("kde multivariate ", accl)].

(** [Configuration._complete_config_from_rtdc_ds(rtdc_ds)]; [pltng] is
    the section object itself, so an assignment to it is one to
    [self["plotting"]]. *)
Definition _complete_config_from_rtdc_ds : M Configuration unit :=
  keys <- lift (nonzero rdv) ;;
  _ <- cfg_getitem "plotting" ;;
  for_each keys (λ k,
    for_each defs (λ dl,
      name <- lift (match cfgmap !! k with
                    | Some name => inr name
                    | None => inl (KeyError k)
                    end) ;;
      let var := dl.1 +:+ name in
      pltng <- cfg_getitem "plotting" ;;
      when (negb (ci_contains var pltng))
        (a <- lift (getattr k) ;;
         v <- lift (dl.2 a) ;;
         cfg_setkey "plotting" var (CFloat v)))) ;;;
  time <- lift (getattr "time") ;;
  n <- lift (shape_0 time) ;;
  cfg_setkey "general" "cell number" (CInt n).

(** [Configuration.__init__(files, cfg, rtdc_ds)] with a dataset. *)
Definition Configuration_init_ds (uid : list string) (default : source)
    (files : list source) (cfg : source) : outcome Configuration unit :=
  (load_sources default files cfg ;;;
   _fix_config uid ;;;
   _complete_config_from_rtdc_ds) ∅.

End WithDataset.

End ConfigDataset.

(** ** h5py: files, groups and datasets *)

Module H5.
Import Config Np.

(** A dataset: its entries along the first axis, and its attributes. *)
Record dataset : Type := {
  values : list item;
  dattrs : gmap string string;
}.

(** A member of the [events] or [logs] group: a dataset, or a sub-group
    of datasets ([contour], [trace]). *)
Inductive node : Type :=
| Dataset (d : dataset)
| Group (members : gmap string dataset).

(** An HDF5 file: the attributes of its root, and its top-level groups. *)
Record file : Type := {
  attrs : gmap string cfgval;
  groups : gmap string (gmap string node);
}.

Definition empty_file : file := {| attrs := ∅; groups := ∅ |}.

Definition set_attrs (a : gmap string cfgval) (f : file) : file :=
  {| attrs := a; groups := groups f |}.

Definition set_groups (g : gmap string (gmap string node)) (f : file) : file :=
  {| attrs := attrs f; groups := g |}.

(** [group.create_dataset(name, data=data)], in a group whose members are
    wrapped by [wrap]; h5py refuses a name that exists. *)
Definition create_dataset {N} (wrap : dataset → N) (name : string)
    (data : list item) (dsattrs : gmap string string) : M (gmap string N) unit :=
  g <- get ;;
  match g !! name with
  | Some _ => raise (ValueError "Unable to create dataset (name already exists)")
  | None => modify (<[name := wrap {| values := data; dattrs := dsattrs |}]>)
  end.

(** [dset.resize(n, axis=0)]: new entries hold the fill value. *)
Definition resize (n : nat) (d : dataset) : dataset :=
  {| values := (take n (values d) ++ replicate (n - length (values d)) (Int 0))%list;
     dattrs := dattrs d |}.

(** [dset[start:] = data]: the slice and the data must agree in length. *)
Definition assign_from (start : nat) (data : list item) (d : dataset) : exn + dataset :=
  if decide (length (values d) - start = length data)%nat
  then inr {| values := (take start (values d) ++ data)%list; dattrs := dattrs d |}
  else inl (TypeError "Can't broadcast").

(** The three lines every store function appends with:
    [oldsize = dset.shape[0]; dset.resize(oldsize + n, axis=0);
     dset[oldsize:] = data]. *)
Definition append_rows (data : list item) (dset : dataset) : exn + dataset :=
  let oldsize := length (values dset) in
  assign_from oldsize data (resize (oldsize + length data) dset).

(** A method call on the group [name] of the file. *)
Definition on_group {A} (name : string) (m : M (gmap string node) A) : M file A :=
  λ f, match groups f !! name with
       | None => Raise (KeyError name) f
       | Some g =>
           match m g with
           | Ok a g' => Ok a (set_groups (<[name := g']> (groups f)) f)
           | Raise e g' => Raise e (set_groups (<[name := g']> (groups f)) f)
           end
       end.

(** [if name not in h5obj: h5obj.create_group(name)] *)
Definition require_group (name : string) : M file unit :=
  f <- get ;;
  when (negb (bool_decide (is_Some (groups f !! name))))
       (modify (λ f, set_groups (<[name := ∅]> (groups f)) f)).

End H5.

(** ** write_hdf5.py *)

Module Writer.
Import Config Np H5.

(** What a caller passes under a key of [data]. *)
Inductive pydata : Type :=
| Scalar (x : item)
| Array (a : list item)
| PyList (l : list (list item))
| Dict (d : list (string * list item)).

(** The [data] argument: a dict-like object, given by its items in
    iteration order, or something that is not dict-like. *)
Inductive pyarg : Type :=
| DictLike (items : list (string * pydata))
| NotDictLike.

(** A value of [logs]: one string, or a list of lines. *)
Inductive logdata : Type :=
| Line (s : string)
| Lines (l : list string).

(** [path_or_h5file]: a path, or an open [h5py.File] on a path. *)
Inductive target : Type :=
| Path (p : string)
| H5File (p : string).

(** The file system: path -> HDF5 file. *)
Abbreviation filesystem := (gmap string file) (only parsing).

(** [len(a.shape)] for an array whose first-axis entries are [a]. *)
Fixpoint item_ndim (i : item) : nat :=
  match i with
  | Row (x :: _) => S (item_ndim x)
  | Row [] => 1%nat
  | _ => 0%nat
  end.

Definition ndim (a : list item) : nat :=
  match a with
  | x :: _ => S (item_ndim x)
  | [] => 1%nat
  end.

(** [store_contour] *)
Definition store_contour (data : pydata) : M (gmap string node) unit :=
  data <- lift (match data with
                | PyList l => inr l
                | Array a => inr [a]
                | Scalar x => inr [[x]]
                | Dict _ => inl (TypeError "Object dtype has no native HDF5 equivalent")
                end) ;;
  h5group <- get ;;
  match h5group !! "contour" with
  | None =>
      modify (<["contour" := Group ∅]>) ;;;
      for_each (imap (λ ii cc, (ii, cc)) data) (λ '(ii, cc),
        h5group <- get ;;
        match h5group !! "contour" with
        | Some (Group dset) =>
            match create_dataset id (pretty ii) cc ∅ dset with
            | Ok _ dset' => modify (<["contour" := Group dset']>)
            | Raise e _ => raise e
            end
        | _ => raise (KeyError "contour")
        end)
  | Some (Group grp) =>
      let curid := size grp in
      for_each (imap (λ ii cc, (ii, cc)) data) (λ '(ii, cc),
        h5group <- get ;;
        match h5group !! "contour" with
        | Some (Group grp) =>
            match create_dataset id (pretty (curid + ii)%nat) cc ∅ grp with
            | Ok _ grp' => modify (<["contour" := Group grp']>)
            | Raise e _ => raise e
            end
        | _ => raise (KeyError "contour")
        end)
  | Some (Dataset _) => raise (AttributeError "'Dataset' object has no attribute 'keys'")
  end.

(** The attributes that make HDFView show a dataset as a series of
    images. *)
Definition image_attrs : gmap string string :=
  {[ "CLASS" := "IMAGE"; "IMAGE_VERSION" := "1.2";
     "IMAGE_SUBCLASS" := "IMAGE_GRAYSCALE" ]}.

(** [store_image] *)
Definition store_image (data : pydata) : M (gmap string node) unit :=
  data <- lift (match data with
                | Array a => inr (if decide (ndim a = 2%nat) then [Row a] else a)
                | _ => inl (AttributeError "object has no attribute 'shape'")
                end) ;;
  h5group <- get ;;
  match h5group !! "image" with
  | None => create_dataset Dataset "image" data image_attrs
  | Some (Dataset dset) =>
      dset' <- lift (append_rows data dset) ;;
      modify (<["image" := Dataset dset']>)
  | Some (Group _) => raise (AttributeError "'Group' object has no attribute 'shape'")
  end.

(** [store_scalar] *)
Definition store_scalar (name : string) (data : pydata) : M (gmap string node) unit :=
  data <- lift (match data with
                | Scalar x => inr [x]
                | Array a => inr a
                | _ => inl (TypeError "a scalar feature is a number or a 1d ndarray")
                end) ;;
  h5group <- get ;;
  match h5group !! name with
  | None => create_dataset Dataset name data ∅
  | Some (Dataset dset) =>
      dset' <- lift (append_rows data dset) ;;
      modify (<[name := Dataset dset']>)
  | Some (Group _) => raise (AttributeError "'Group' object has no attribute 'shape'")
  end.

(** [sorted(keys)[0]] *)
Definition first_sorted (keys : list string) : exn + string :=
  match keys with
  | [] => inl (IndexError "list index out of range")
  | k :: ks => inr (foldr (λ a b, if String.ltb a b then a else b) k ks)
  end.

(** [store_trace] *)
Definition store_trace (data : pydata) : M (gmap string node) unit :=
  data <- lift (match data with
                | Dict d => inr d
                | _ => inl (AttributeError "object has no attribute 'keys'")
                end) ;;
  firstkey <- lift (first_sorted (fst <$> data)) ;;
  let single := match list_find (λ kv, kv.1 = firstkey) data with
                | Some (_, (_, a)) => bool_decide (ndim a = 1%nat)
                | None => false
                end in
  let data := if single then (λ '(dd, a), (dd, [Row a])) <$> data else data in
  h5group <- get ;;
  when (negb (bool_decide (is_Some (h5group !! "trace"))))
       (modify (<["trace" := Group ∅]>)) ;;;
  for_each data (λ '(flt, a),
    h5group <- get ;;
    match h5group !! "trace" with
    | Some (Group grp) =>
        match grp !! flt with
        | None =>
            match create_dataset id flt a ∅ grp with
            | Ok _ grp' => modify (<["trace" := Group grp']>)
            | Raise e _ => raise e
            end
        | Some dset =>
            dset' <- lift (append_rows a dset) ;;
            modify (<["trace" := Group (<[flt := dset']> grp)]>)
        end
    | Some (Dataset _) => raise (TypeError "argument of type 'Dataset' is not iterable")
    | None => raise (KeyError "trace")
    end).

Section WithDefinitions.

(** [dfn.config_keys], [dfn.config_types], [dfn.feature_names],
    [dfn.FLUOR_TRACES] and [version]: [definitions.py] and [_version.py]
    are not among the sources at hand. *)
Variable config_keys : gmap string (list string).
Variable config_types : gmap string (gmap string (cfgval → exn + cfgval)).
Variable feature_names : list string.
Variable FLUOR_TRACES : list string.
Variable version : string.

(** The part of [write] headed [# Check meta data]. *)
Definition check_meta {S} (meta : source) : M S unit :=
  for_each meta (λ '(sec, keys),
    match config_keys !! sec with
    | None => raise (ValueError ("Meta data section not defined in dclab: " +:+ sec))
    | Some known =>
        for_each keys (λ '(ck, _),
          when (negb (bool_decide (ck ∈ known)))
               (raise (ValueError ("Meta key not defined in dclab: " +:+ sec +:+ ":" +:+ ck))))
    end).

(** [for sk in data["trace"]: if sk not in dfn.FLUOR_TRACES: raise]; a
    dict iterates over its keys, an array or a list over its entries, none
    of which is a channel name. *)
Definition check_trace_keys {S} (value : pydata) : M S unit :=
  match value with
  | Dict d =>
      for_each d (λ '(sk, _),
        when (negb (bool_decide (sk ∈ FLUOR_TRACES)))
             (raise (ValueError ("Unknown trace key: " +:+ sk))))
  | Array [] | PyList [] => ret tt
  | Array _ | PyList _ => raise (ValueError "Unknown trace key")
  | Scalar _ => raise (TypeError "object is not iterable")
  end.

(** The part of [write] headed [# Check feature keys]; when it returns,
    [feat_keys] holds every key of [data], in order. *)
Definition check_features {S} (data : list (string * pydata)) : M S (list string) :=
  for_each data (λ '(kk, value),
    when (negb (bool_decide (kk ∈ (feature_names ++ ["contour"; "image"; "trace"])%list)))
         (raise (ValueError ("Unknown key '" +:+ kk +:+ "'!"))) ;;;
    when (bool_decide (kk = "trace")) (check_trace_keys value)) ;;;
  ret (fst <$> data).

(** [data[fk]] *)
Definition data_getitem (data : list (string * pydata)) (fk : string) : exn + pydata :=
  match list_find (λ kv, kv.1 = fk) data with
  | Some (_, (_, value)) => inr value
  | None => inl (KeyError fk)
  end.

(** A method call on the open file at path [p]. *)
Definition on_file {A} (p : string) (m : M file A) : M (gmap string file) A :=
  λ fs, match fs !! p with
        | None => Raise (ValueError "Not a file (not a file id)") fs
        | Some f =>
            match m f with
            | Ok a f' => Ok a (<[p := f']> fs)
            | Raise e f' => Raise e (<[p := f']> fs)
            end
        end.

(** [h5py.File(path, mode=h5mode)]: ["w"] truncates or creates, ["a"]
    opens or creates. *)
Definition open_file (p : string) (h5mode : string) : M (gmap string file) unit :=
  fs <- get ;;
  if bool_decide (h5mode = "w") then modify (<[p := empty_file]>)
  else when (negb (bool_decide (is_Some (fs !! p)))) (modify (<[p := empty_file]>)).

(** The part of [write] headed [# Write meta], with the version stamp. *)
Definition write_meta (meta : source) : M file unit :=
  for_each meta (λ '(sec, keys),
    for_each keys (λ '(ck, value),
      let idk := sec +:+ ":" +:+ ck in
      conftype <- lift (match config_types !! sec with
                        | None => inl (KeyError sec)
                        | Some types =>
                            match types !! ck with
                            | None => inl (KeyError ck)
                            | Some conftype => inr conftype
                            end
                        end) ;;
      converted <- lift (conftype value) ;;
      modify (λ f, set_attrs (<[idk := converted]> (attrs f)) f))) ;;;
  modify (λ f, set_attrs (<["setup:software version" := CStr ("dclab " +:+ version)]> (attrs f)) f).

(** The part of [write] headed [# Write data]. *)
Definition write_data (data : list (string * pydata)) (feat_keys : list string)
    (mode : string) : M file unit :=
  require_group "events" ;;;
  when (bool_decide (mode = "replace"))
       (for_each feat_keys (λ rk, on_group "events" (modify (delete rk)))) ;;;
  for_each feat_keys (λ fk,
    if bool_decide (fk ∈ feature_names) then
      value <- lift (data_getitem data fk) ;;
      on_group "events" (store_scalar fk value)
    else if bool_decide (fk = "contour") then
      value <- lift (data_getitem data "contour") ;;
      on_group "events" (store_contour value)
    else if bool_decide (fk = "image") then
      value <- lift (data_getitem data "image") ;;
      on_group "events" (store_image value)
    else if bool_decide (fk = "trace") then
      value <- lift (data_getitem data "trace") ;;
      on_group "events" (store_trace value)
    else ret tt).

(** One log, once the group and the mode are dealt with. *)
Definition store_log (lkey : string) (ldata : logdata) : M (gmap string node) unit :=
  let ldata := match ldata with Line s => [s] | Lines l => l end in
  let lnum := length ldata in
  log_group <- get ;;
  match log_group !! lkey with
  | None =>
      create_dataset Dataset lkey (replicate lnum (Str "")) ∅ ;;;
      for_each (imap (λ ii line, (ii, line)) ldata) (λ '(ii, line),
        log_group <- get ;;
        match log_group !! lkey with
        | Some (Dataset log_dset) =>
            modify (<[lkey := Dataset {| values := <[ii := Str line]> (values log_dset);
                                         dattrs := dattrs log_dset |}]>)
        | _ => raise (KeyError lkey)
        end)
  | Some (Dataset log_dset) =>
      let oldsize := length (values log_dset) in
      modify (<[lkey := Dataset (resize (oldsize + lnum) log_dset)]>) ;;;
      for_each (imap (λ ii line, (ii, line)) ldata) (λ '(ii, line),
        log_group <- get ;;
        match log_group !! lkey with
        | Some (Dataset log_dset) =>
            modify (<[lkey := Dataset {| values := <[(oldsize + ii)%nat := Str line]> (values log_dset);
                                         dattrs := dattrs log_dset |}]>)
        | _ => raise (KeyError lkey)
        end)
  | Some (Group _) => raise (AttributeError "'Group' object has no attribute 'shape'")
  end.

(** The part of [write] headed [# Write logs]. *)
Definition write_logs (logs : list (string * logdata)) (mode : string) : M file unit :=
  require_group "logs" ;;;
  when (bool_decide (mode = "replace"))
       (for_each logs (λ '(rl, _), on_group "logs" (modify (delete rl)))) ;;;
  for_each logs (λ '(lkey, ldata), on_group "logs" (store_log lkey ldata)).

(** [write(path_or_h5file, data, meta, logs, mode)]: the returned file
    object, or [None]. *)
Definition write (path_or_h5file : target) (data : pyarg) (meta : source)
    (logs : list (string * logdata)) (mode : string)
  : M (gmap string file) (option target) :=
  when (negb (bool_decide (mode ∈ ["append"; "replace"; "reset"])))
       (raise (ValueError "`mode` must be one of [append, replace, reset]")) ;;;
  data <- lift (match data with
                | DictLike items => inr items
                | NotDictLike => inl (ValueError "`data` must be dict-like")
                end) ;;
  check_meta meta ;;;
  feat_keys <- check_features data ;;
  h5obj <- match path_or_h5file with
           | H5File p => ret p
           | Path p =>
               open_file p (if bool_decide (mode = "reset") then "w" else "a") ;;;
               ret p
           end ;;
  on_file h5obj (write_meta meta ;;;
                 write_data data feat_keys mode ;;;
                 write_logs logs mode) ;;;
  if bool_decide (mode = "append") then ret (Some (H5File h5obj)) else ret None.

(** Metadata that [write] accepts: every section and key is known to
    [dfn.config_keys], and [dfn.config_types] converts every value. *)
Definition meta_accepted (meta : source) : Prop :=
  ∀ sec keys, (sec, keys) ∈ meta →
    ∃ known types,
      config_keys !! sec = Some known ∧
      config_types !! sec = Some types ∧
      ∀ ck value, (ck, value) ∈ keys →
        ck ∈ known ∧
        ∃ conftype converted,
          types !! ck = Some conftype ∧ conftype value = inr converted.

End WithDefinitions.

(** [h5obj[group][name]], or [None] when either is missing. *)
Definition member (f : file) (group name : string) : option node :=
  groups f !! group ≫= λ g, g !! name.

End Writer.

(** ** fmt_dict.py *)

Module FmtDict.
Import Config Np PyText CaseInsensitive ConfigDataset.

(** [format(n, "02d")] *)
Definition format_02d (n : Z) : string :=
  if decide (0 ≤ n < 10)%Z then "0" +:+ pretty n else pretty n.

(** An instance of [RTDC_Dict]: the attributes the class assigns, and
    those of [RTDCBase], which [core.py] keeps and which are not among
    the sources at hand. *)
Record RTDC_Dict (B : Type) : Type := {
  _ids : string;
  path : string;
  title : string;
  _events : gmap string ndarray;
  config : gmap string (gmap string cfgval);
  base_attrs : B;
}.
Global Arguments _ids {B} _.
Global Arguments path {B} _.
Global Arguments title {B} _.
Global Arguments _events {B} _.
Global Arguments config {B} _.
Global Arguments base_attrs {B} _.

Definition set_ids {B} (ids : string) (self : RTDC_Dict B) : RTDC_Dict B :=
  {| _ids := ids; path := path self; title := title self;
     _events := _events self; config := config self; base_attrs := base_attrs self |}.

Definition set_path {B} (p : string) (self : RTDC_Dict B) : RTDC_Dict B :=
  {| _ids := _ids self; path := p; title := title self;
     _events := _events self; config := config self; base_attrs := base_attrs self |}.

Definition set_title {B} (t : string) (self : RTDC_Dict B) : RTDC_Dict B :=
  {| _ids := _ids self; path := path self; title := t;
     _events := _events self; config := config self; base_attrs := base_attrs self |}.

Definition set_events {B} (ev : gmap string ndarray) (self : RTDC_Dict B) : RTDC_Dict B :=
  {| _ids := _ids self; path := path self; title := title self;
     _events := ev; config := config self; base_attrs := base_attrs self |}.

Definition set_config {B} (cfg : gmap string (gmap string cfgval)) (self : RTDC_Dict B)
  : RTDC_Dict B :=
  {| _ids := _ids self; path := path self; title := title self;
     _events := _events self; config := cfg; base_attrs := base_attrs self |}.

(** The object before [__init__] has assigned anything. *)
Definition blank {B} (b : B) : RTDC_Dict B :=
  {| _ids := ""; path := ""; title := ""; _events := ∅; config := ∅; base_attrs := b |}.

(** [np.zeros(n)] *)
Definition zeros (n : nat) : ndarray := replicate n (Float 0).

Section WithDefinitions.

Context {B : Type}.

(** The inherited methods [RTDCBase.__init__] and [_init_filters];
    [time.localtime()] as year, month and day; the hexadecimal MD5 digest
    of an array; [dclab.definitions.cfgmaprev] and [rdv]; and what
    [Configuration(rtdc_ds=self)] uses: [uid], the default
    configuration, [cfgmap], the attributes of the dataset and the numpy
    functions. *)
Variable RTDCBase_init : M (RTDC_Dict B) unit.
Variable _init_filters : M (RTDC_Dict B) unit.
Variable localtime : Z * Z * Z.
Variable md5_hexdigest : ndarray → string.
Variable cfgmaprev : gmap string string.
Variable rdv : list string.
Variable uid : list string.
Variable default : source.
Variable cfgmap : gmap string string.
Variable getattr : RTDC_Dict B → string → exn + ndarray.
Variable allclose_0 : ndarray → exn + bool.
Variable nanmax : ndarray → exn + float.
Variable nanmin : ndarray → exn + float.
Variable shape_0 : ndarray → exn + Z.

(** [d[key]] of a plain dict *)
Definition dict_getitem (d : gmap string ndarray) (key : string) : exn + ndarray :=
  match d !! key with
  | Some v => inr v
  | None => inl (KeyError key)
  end.

(** [keys[0]] *)
Definition first_key (keys : list string) : exn + string :=
  match keys with
  | k :: _ => inr k
  | [] => inl (IndexError "list index out of range")
  end.

(** [RTDC_Dict.__init__(ddict)], on the items of [ddict] in iteration
    order and a base object: the new dataset, or the exception that ends
    the construction. *)
Definition __init__ (ddict : list (string * ndarray)) (b : B) : outcome (RTDC_Dict B) unit :=
  (when (match ddict with [] => true | _ :: _ => false end)
        (raise (AssertionError "")) ;;;
   RTDCBase_init ;;;
   let t := localtime in
   let keys := sorted (dict_keys [] ddict) in
   key0 <- lift (first_key keys) ;;
   column0 <- lift (dict_getitem (dict ddict) key0) ;;
   let ids := md5_hexdigest column0 in
   modify (set_ids ids) ;;;
   modify (set_path "none") ;;;
   modify (set_title (pretty t.1.1 +:+ "_" +:+ format_02d t.1.2 +:+ "_" +:+ format_02d t.2
                      +:+ "/" +:+ ids +:+ ".dict")) ;;;
   modify (set_events ∅) ;;;
   for_each (dict_keys [] ddict) (λ key,
     kk <- lift (match cfgmaprev !! lower key with
                 | Some kk => inr kk
                 | None => inl (KeyError (lower key))
                 end) ;;
     column <- lift (dict_getitem (dict ddict) key) ;;
     modify (λ self, set_events (<[kk := column]> (_events self)) self)) ;;;
   key0 <- lift (first_key (dict_keys [] ddict)) ;;
   column0 <- lift (dict_getitem (dict ddict) key0) ;;
   let fill0 := zeros (length column0) in
   for_each rdv (λ key,
     self <- get ;;
     when (negb (bool_decide (is_Some (_events self !! key))))
          (modify (λ self, set_events (<[key := fill0]> (_events self)) self))) ;;;
   self <- get ;;
   match Configuration_init_ds rdv cfgmap (getattr self) allclose_0 nanmax nanmin shape_0
           uid default [] [] with
   | Ok _ cfg => modify (set_config cfg)
   | Raise e _ => raise e
   end ;;;
   _init_filters) (blank b).

End WithDefinitions.

End FmtDict.

(** ** Concrete data the properties are run on *)

Module Fixture.
Import Config.

(** Two feature identifiers, standing in for [dclab.definitions.uid]. *)
Definition uid : list string := ["area"; "defo"].

(** A small [config_default.cfg]: the three sections, without a channel
    width. *)
Definition default : source :=
  [("general", [("cell number", CInt 0)]);
   ("plotting", [("area max", CFloat 200)]);
   ("filtering", [("enable filters", CBool true)])].

(** An explicit mapping whose keys are not lower-case. *)
Definition cfg : source :=
  [("General", [("Flow Rate [ul/s]", CFloat 0.04)]);
   ("Filtering", [("Defo Min", CFloat 0.01)])].

Definition built : Configuration :=
  state_after (Configuration_init uid default [] cfg).

(** A parent dataset for the hierarchy: its events, its filter as last
    resolved, and what its configured filters select now. *)
Record dict_dataset : Type := {
  dd_events : gmap string Hierarchy.pyobj;
  dd_filter : list bool;
  dd_selected : list bool;
}.

Definition dd_resolve (d : dict_dataset) : dict_dataset :=
  {| dd_events := dd_events d; dd_filter := dd_selected d;
     dd_selected := dd_selected d |}.

#[global]
Instance dict_dataset_base : Hierarchy.RTDCBase dict_dataset := {|
  Hierarchy.ds_contains d key := bool_decide (is_Some (dd_events d !! key));
  Hierarchy.ds_getitem d key :=
    match dd_events d !! key with
    | Some v => inr v
    | None => inl (KeyError key)
    end;
  Hierarchy.ds_apply_filter := modify dd_resolve;
  Hierarchy.ds_filter := dd_filter;
  Hierarchy.ds_path _ := "none";
  Hierarchy.ds_title _ := "parent";
  Hierarchy.ds_config _ := built;
  Hierarchy.ds_identifier _ := "mm-dict_0";
|}.

(** Inherited methods that manage the filter attributes only:
    [_init_filters] sets [_filter] to all-true and leaves the manual
    filter alone. *)
Definition base : Hierarchy.inherited dict_dataset := {|
  Hierarchy.RTDCBase_init := ret tt;
  Hierarchy._init_filters :=
    modify (λ self,
      Hierarchy.set_filter
        (replicate (Z.to_nat (Np.sum_bool (dd_filter (Hierarchy.hparent self)))) true)
        self);
  Hierarchy.RTDCBase_apply_filter := ret tt;
|}.

Definition evens : list bool :=
  [true; false; true; false; true; false; true; false; true; false].

Definition odds : list bool :=
  [false; true; false; true; false; true; false; true; false; true].

(** Ten events with one scalar feature and one entry that is no array. *)
Definition events10 : gmap string Hierarchy.pyobj :=
  {[ "area" := Hierarchy.NdArray
       (Np.Int <$> [10; 11; 12; 13; 14; 15; 16; 17; 18; 19]);
     "contour" := Hierarchy.Other "ContourColumn" ]}.

Definition parent_evens : dict_dataset :=
  {| dd_events := events10; dd_filter := evens; dd_selected := evens |}.

Definition parent_odds : dict_dataset :=
  {| dd_events := events10; dd_filter := odds; dd_selected := odds |}.

(** A parent whose filters now select three events only. *)
Definition parent_three : dict_dataset :=
  {| dd_events := events10; dd_filter := evens;
     dd_selected := [true; true; true; false; false; false; false; false; false; false] |}.

(** A child that was filtered while its parent selected five events, and
    on which the user has since excluded the second event by hand. *)
Definition child_manual : Hierarchy.RTDC_Hierarchy dict_dataset :=
  {| Hierarchy.hparent := parent_three;
     Hierarchy._events :=
       {[ "index" := Hierarchy.NdArray (Np.Int <$> [1; 2; 3; 4; 5]) ]};
     Hierarchy.path := "none";
     Hierarchy.title := "parent_child";
     Hierarchy.config := built;
     Hierarchy._filter := [true; true; true; true; true];
     Hierarchy._filter_manual := Some [true; false; true; true; true];
     Hierarchy._old_filters := {[ "enable filters" := CBool true ]} |}.

(** A child of the parent that selects the even events, as
    [apply_filter] leaves it. *)
Definition child_evens : Hierarchy.RTDC_Hierarchy dict_dataset :=
  {| Hierarchy.hparent := parent_evens;
     Hierarchy._events :=
       {[ "index" := Hierarchy.NdArray (Np.Int <$> [1; 2; 3; 4; 5]) ]};
     Hierarchy.path := "none";
     Hierarchy.title := "parent_child";
     Hierarchy.config := built;
     Hierarchy._filter := [true; true; true; true; true];
     Hierarchy._filter_manual := None;
     Hierarchy._old_filters := ∅ |}.

(** Stand-ins for [dfn.config_keys], [dfn.config_types],
    [dfn.feature_names], [dfn.FLUOR_TRACES] and [version]. *)
Definition config_keys : gmap string (list string) :=
  {[ "experiment" := ["date"; "event count"];
     "setup" := ["channel width"; "flow rate"] ]}.

Definition as_is (value : cfgval) : exn + cfgval := inr value.

Definition config_types : gmap string (gmap string (cfgval → exn + cfgval)) :=
  {[ "experiment" := {[ "date" := as_is; "event count" := as_is ]};
     "setup" := {[ "channel width" := as_is; "flow rate" := as_is ]} ]}.

Definition feature_names : list string := ["area"; "deform"; "time"].

Definition FLUOR_TRACES : list string := ["fl1_median"; "fl1_raw"].

Definition version : string := "0.3.0".

(** A container with two scalar features and one log. *)
Definition rtdc_events : gmap string H5.node :=
  {[ "area" := H5.Dataset
       {| H5.values := Np.Int <$> [50; 60; 70]; H5.dattrs := ∅ |};
     "deform" := H5.Dataset
       {| H5.values := Np.Float <$> [0.01; 0.02; 0.03]%float;
          H5.dattrs := ∅ |} ]}.

Definition rtdc_file : H5.file :=
  {| H5.attrs := {[ "setup:channel width" := CFloat 20 ]};
     H5.groups :=
       {[ "events" := rtdc_events;
          "logs" :=
            {[ "setup" := H5.Dataset
                 {| H5.values := [Np.Str "started"]; H5.dattrs := ∅ |} ]} ]} |}.

End Fixture.

(** ** A configuration to save and load *)

Module FileFixture.
Import Config.

(** [float] and the twelve-digit format, on the one number the stored
    configuration holds. *)
Definition py_float (s : string) : option float :=
  if decide (s = "0.500000000000") then Some 0.5%float else None.

Definition format_12f (f : float) : string :=
  if PrimFloat.eqb f 0.5 then "0.500000000000" else "nan".

Definition stored : Configuration :=
  {[ "general" := {[ "flow rate [ul/s]" := CFloat 0.5;
                     "video on" := CBool true;
                     "feature" := CStr "area" ]};
     "filtering" := ∅ ]}.

End FileFixture.

(** ** A dataset to complete a configuration from *)

Module DatasetFixture.
Import Config.

(** Two real-valued features, named in a configuration as they are. *)
Definition rdv : list string := ["area"; "defo"].

Definition cfgmap : gmap string string :=
  {[ "area" := "area"; "defo" := "defo" ]}.

(** Three events: the areas differ, the deformation was not measured. *)
Definition getattr (name : string) : exn + list float :=
  if decide (name = "area") then inr [100; 120; 105]%float
  else if decide (name = "defo") then inr [0; 0; 0]%float
  else if decide (name = "time") then inr [1; 2; 3]%float
  else inl (AttributeError name).

(** The numpy functions, on arrays without NaN. *)
Definition allclose_0 (a : list float) : exn + bool :=
  inr (forallb (λ x, PrimFloat.leb (PrimFloat.abs x) 1e-8) a).

Definition nanmax (a : list float) : exn + float :=
  match a with
  | [] => inl (ValueError "zero-size array to reduction operation fmax which has no identity")
  | x :: r => inr (foldl (λ m y, if PrimFloat.ltb m y then y else m) x r)
  end.

Definition nanmin (a : list float) : exn + float :=
  match a with
  | [] => inl (ValueError "zero-size array to reduction operation fmin which has no identity")
  | x :: r => inr (foldl (λ m y, if PrimFloat.ltb y m then y else m) x r)
  end.

Definition shape_0 (a : list float) : exn + Z := inr (Z.of_nat (length a)).

(** The configuration of the first fixture, completed from the dataset. *)
Definition completed : Configuration :=
  state_after
    (ConfigDataset._complete_config_from_rtdc_ds rdv cfgmap getattr allclose_0
       nanmax nanmin shape_0 Fixture.built).

End DatasetFixture.

(** ** A dictionary dataset *)

Module DictFixture.
Import Config Np FmtDict.

(** The feature names, as [dclab.definitions.cfgmaprev] maps to them. *)
Definition cfgmaprev : gmap string string :=
  {[ "area" := "area"; "defo" := "defo"; "time" := "time" ]}.

Definition rdv : list string := ["area"; "defo"; "time"].

(** Two events, given by area only, under a key that is not
    lower-case. *)
Definition ddict : list (string * ndarray) :=
  [("Area", [Float 100; Float 120])].

(** The numbers of an array of doubles. *)
Definition floats (a : ndarray) : list float :=
  (λ x, match x with Float f => f | _ => nan end) <$> a.

(** The features are attributes of the dataset. *)
Definition getattr (self : RTDC_Dict unit) (name : string) : exn + ndarray :=
  match _events self !! name with
  | Some a => inr a
  | None => inl (AttributeError name)
  end.

(** The dataset constructed on 4 November 2026 by a base class that
    keeps no attribute of its own. *)
Definition dataset : RTDC_Dict unit :=
  state_after
    (__init__ (ret tt) (ret tt) (2026, 11, 4) (λ _, "d41d8cd9") cfgmaprev rdv
       Fixture.uid Fixture.default DatasetFixture.cfgmap getattr
       (λ a, DatasetFixture.allclose_0 (floats a))
       (λ a, DatasetFixture.nanmax (floats a))
       (λ a, DatasetFixture.nanmin (floats a))
       (λ a, inr (Z.of_nat (length a)))
       ddict tt).

End DictFixture.

(** ** Notions the proofs are stated with *)

Module ConfigSteps.
Import Config.

(** [if not key in self[sec]: self[sec][key] = v], the step [_fix_config]
    is made of. *)
Definition fill (sec key : string) (v : cfgval) : M Configuration unit :=
  d <- cfg_getitem sec ;;
  when (negb (ci_contains key d)) (cfg_setkey sec key v).

(** [assert "general" in self] *)
Definition assert_general : M Configuration unit :=
  has_general <- cfg_contains "general" ;;
  when (negb has_general)
       (raise (AssertionError "Configuration not properly initialized!")).

(** The conditional default of the channel width. *)
Definition channel_step : M Configuration unit :=
  general <- cfg_getitem "general" ;;
  when (negb (ci_contains "channel width" general))
       (general <- cfg_getitem "general" ;;
        rate <- lift (ci_getitem "flow Rate [ul/s]" general) ;;
        below <- lift (lt_0_16 rate) ;;
        if (below : bool)
        then cfg_setkey "general" "channel width" (CInt 20)
        else cfg_setkey "general" "channel width" (CInt 30)).

(** The two fills [_fix_config] makes for one feature and one suffix. *)
Definition minmax_step (item a : string) : M Configuration unit :=
  fill "plotting" (item +:+ a) (CInt 0) ;;;
  fill "filtering" (item +:+ a) (CInt 0).

(** [cfg[sec]] exists and has [key]. *)
Definition present (sec key : string) (c : Configuration) : Prop :=
  ∃ d, c !! lower sec = Some d ∧ is_Some (d !! lower key).

(** [c'] has the sections of [c], each with at least the entries it has
    in [c]. *)
Definition extends (c c' : Configuration) : Prop :=
  ∀ s, option_Forall2 (⊆) (c !! s) (c' !! s).

(** What makes a run of default-filling steps repeatable: it only adds
    entries, it changes nothing when run again after it succeeded, it stays
    without effect on every larger configuration, and it fails the same way
    when run again after it failed. *)
Record repeatable (m : M Configuration unit) : Prop := {
  rep_extends : ∀ c, extends c (state_after (m c));
  rep_settled : ∀ c c', m c = Ok tt c' → m c' = Ok tt c';
  rep_upward : ∀ c c', m c = Ok tt c → extends c c' → m c' = Ok tt c';
  rep_failed : ∀ c e c', m c = Raise e c' → m c' = Raise e c';
}.

(** [_fix_config] as the sequence of its four steps. *)
Definition fix_steps (uid : list string) : M Configuration unit :=
  assert_general ;;;
  fill "general" "flow Rate [ul/s]" (CFloat nan) ;;;
  channel_step ;;;
  for_each uid (λ item, for_each [" min"; " max"] (minmax_step item)).

(** The value the channel width defaults to. *)
Definition channel_default (below : bool) : cfgval :=
  if below then CInt 20 else CInt 30.

(** How a run of [fill]s with the value [0] relates the configuration
    after it to the one before: it stays within [plotting] and
    [filtering], and there an entry is what it was or, if it was missing,
    at most the integer [0]. *)
Definition zero_filled (c c' : Configuration) : Prop :=
  (∀ s, s ≠ "plotting" → s ≠ "filtering" → c' !! s = c !! s) ∧
  (∀ sec key, entry sec key c' = entry sec key c
              ∨ (entry sec key c = None ∧ entry sec key c' = Some (CInt 0))).

(** [c'] has the sections of [c] and, in each, at least the keys it has
    in [c]; the values may differ. *)
Definition covers (c c' : Configuration) : Prop :=
  ∀ s d, c !! s = Some d →
    ∃ d', c' !! s = Some d' ∧ ∀ k, is_Some (d !! k) → is_Some (d' !! k).

End ConfigSteps.

Module WriterSteps.
Import Config Np H5 Writer.

(** A check: it returns without touching the state, or raises a
    [ValueError] without touching the state. *)
Definition is_check {S} (m : M S unit) : Prop :=
  ∀ s, m s = Ok tt s ∨ ∃ msg, m s = Raise (ValueError msg) s.

(** [h5obj.attrs[idk] = conftype(meta[sec][ck])] *)
Definition write_attr (config_types : gmap string (gmap string (cfgval → exn + cfgval)))
    (sec : string) (kv : string * cfgval) : M file unit :=
  let '(ck, value) := kv in
  conftype <- lift (match config_types !! sec with
                    | None => inl (KeyError sec)
                    | Some types =>
                        match types !! ck with
                        | None => inl (KeyError ck)
                        | Some conftype => inr conftype
                        end
                    end) ;;
  converted <- lift (conftype value) ;;
  modify (λ f, set_attrs (<[sec +:+ ":" +:+ ck := converted]> (attrs f)) f).

End WriterSteps.

(** ** Notions the further properties are stated with *)

Module ConfigNotions.
Import Config.

(** The value the pairs of one section assign to [key] last, every key
    read case-insensitively. *)
Fixpoint assigned_in (key : string) (sect : list (string * cfgval)) : option cfgval :=
  match sect with
  | [] => None
  | (k, v) :: rest =>
      match assigned_in key rest with
      | Some v' => Some v'
      | None => if decide (lower k = lower key) then Some v else None
      end
  end.

(** The value a sequence of sources assigns to [cfg[sec][key]] last. *)
Fixpoint assigned (sec key : string) (src : source) : option cfgval :=
  match src with
  | [] => None
  | (s, sect) :: rest =>
      match assigned sec key rest with
      | Some v => Some v
      | None => if decide (lower s = lower sec) then assigned_in key sect else None
      end
  end.

(** The sections a sequence of sources names. *)
Definition names_section (sec : string) (src : source) : Prop :=
  ∃ s sect, (s, sect) ∈ src ∧ lower s = lower sec.

(** Every section name and every key is spelled in lower case, as the
    methods of the class leave them. *)
Definition lowered (c : Configuration) : Prop :=
  ∀ s d, c !! s = Some d →
    lower s = s ∧ ∀ k, is_Some (d !! k) → lower k = k.

(** The spelling whose value the constructor of [CaseInsensitiveDict]
    keeps under the lower-case key [low]: the last key, in iteration
    order, that is spelled otherwise, or [low] itself. *)
Definition kept_spelling (keys : list string) (low : string) : string :=
  default low (last (filter (λ k, lower k = low ∧ k ≠ low) keys)).

(** [c in s] for a character [c]. *)
Fixpoint has_char (c : ascii) (s : string) : bool :=
  match s with
  | EmptyString => false
  | String a r => Ascii.eqb a c || has_char c r
  end.

(** Keys in the order [list.sort] leaves them: none above its
    successor. *)
Fixpoint ascending (keys : list string) : bool :=
  match keys with
  | a :: (b :: _) as rest => String.leb a b && ascending rest
  | _ => true
  end.

(** A text that is not empty and has no whitespace at either end. *)
Definition trimmed (s : string) : bool :=
  match first_char s, last_char s with
  | Some a, Some b => negb (is_space a) && negb (is_space b)
  | _, _ => false
  end.

(** A name that [Configuration.save] writes and [load_from_file] reads
    back as it is: lower-case and trimmed, with no [#] and no [=], and
    not starting like a section header. *)
Definition plain_key (k : string) : bool :=
  bool_decide (lower k = k) && trimmed k
  && negb (has_char "#" k) && negb (has_char "=" k) && negb (startswith k "[").

(** A value that reads back as itself: the text [keyval_typ2str] prints
    for it is trimmed, has no [#], and [keyval_str2typ] converts it, in
    lower case as the reader sees it, to the value. *)
Definition reads_back (uid : list string) (py_float : string → option float)
    (format_12f : float → string) (k : string) (v : cfgval) : Prop :=
  let s := (keyval_typ2str format_12f k v).2 in
  trimmed s = true ∧ has_char "#" s = false ∧
  keyval_str2typ uid py_float k (inl (lower s)) = inr (Some (k, v)).

(** A configuration that can be saved and loaded again: lower-case
    section names without [#], plain keys, and values that read back. *)
Definition storable (uid : list string) (py_float : string → option float)
    (format_12f : float → string) (c : Configuration) : Prop :=
  ∀ s d, c !! s = Some d →
    lower s = s ∧ has_char "#" s = false ∧
    ∀ k v, d !! k = Some v →
      plain_key k = true ∧ reads_back uid py_float format_12f k v.

End ConfigNotions.

Module DatasetNotions.
Import Config ConfigDataset.

Section WithDataset.

Context {A : Type}.
Variable rdv : list string.
Variable cfgmap : gmap string string.
Variable getattr : string → exn + A.
Variable allclose_0 : A → exn + bool.
Variable nanmax : A → exn + float.
Variable nanmin : A → exn + float.

(** A feature the dataset has values for, under its name in a
    configuration: one of [rdv], not all close to zero. *)
Definition measured (k name : string) (a : A) : Prop :=
  k ∈ rdv ∧ cfgmap !! k = Some name ∧ getattr k = inr a ∧ allclose_0 a = inr false.

(** The entry of [plotting] that the completion computes from the
    dataset: an accuracy of a measured feature, a tenth of the range of
    its values. *)
Definition accuracy_of (key : string) (v : cfgval) : Prop :=
  ∃ k name a d x,
    measured k name a ∧
    d ∈ ["contour accuracy "; "kde multivariate "] ∧
    lower key = lower (d +:+ name) ∧
    accl nanmax nanmin a = inr x ∧ v = CFloat x.

(** What the loop of the completion does to a configuration: it stays
    within [plotting], keeps every entry, and adds accuracies only. *)
Definition accuracies_added (c c' : Configuration) : Prop :=
  (∀ s, s ≠ "plotting" → c' !! s = c !! s) ∧
  (is_Some (c !! "plotting") → is_Some (c' !! "plotting")) ∧
  (∀ key, match entry "plotting" key c with
          | Some v => entry "plotting" key c' = Some v
          | None => entry "plotting" key c' = None
                    ∨ ∃ v, entry "plotting" key c' = Some v ∧ accuracy_of key v
          end).

End WithDataset.

End DatasetNotions.

Module DictNotions.
Import Config Np FmtDict.

(** An inherited method that leaves the attributes [RTDC_Dict] assigns
    as they are. *)
Definition keeps_assigned {B} (m : M (RTDC_Dict B) unit) : Prop :=
  ∀ self self', m self = Ok tt self' →
    _ids self' = _ids self ∧ path self' = path self ∧ title self' = title self ∧
    _events self' = _events self ∧ config self' = config self.

(** The key of [ddict] whose column is stored under the feature name
    [kk]: the last one, in iteration order, that [cfgmaprev] maps to
    it. *)
Definition column_key (cfgmaprev : gmap string string) (keys : list string) (kk : string)
  : option string :=
  last (filter (λ key, cfgmaprev !! lower key = Some kk) keys).

End DictNotions.

Module HierarchyNotions.
Import Config Np Hierarchy.

(** An inherited method that leaves the attributes [__init__] has
    assigned as they are: the path, the title and the configuration. *)
Definition keeps_identity {D} (m : M (RTDC_Hierarchy D) unit) : Prop :=
  ∀ self self', m self = Ok tt self' →
    path self' = path self ∧ title self' = title self ∧ config self' = config self.

(** The filter section [__init__] hands to the second
    [Configuration(cfg=cfg)]: the copied section without the applied
    filters, with the parent's identifier. *)
Definition child_filtering {D} `{RTDCBase D} (parent : D)
    (filtering : gmap string cfgval) : gmap string cfgval :=
  ci_setitem "hierarchy parent" (CStr (ds_identifier parent))
    (foldr ci_pop filtering
       (List.filter is_applied_filter (fst <$> map_to_list filtering))).

End HierarchyNotions.

Module WriterNotions.
Import Config Np H5 Writer.

(** A computation that only checks: it yields a value or an exception
    that do not depend on the state, and leaves the state as it is. *)
Definition checks_only {S A} (m : M S A) : Prop :=
  ∃ r : exn + A, ∀ s, m s = lift r s.

(** The checks [write] makes before it touches the file system: the
    items of [data] and the feature keys, or the exception. *)
Definition write_checks {S} (config_keys : gmap string (list string))
    (feature_names FLUOR_TRACES : list string)
    (data : pyarg) (meta : source) (mode : string)
  : M S (list (string * pydata) * list string) :=
  when (negb (bool_decide (mode ∈ ["append"; "replace"; "reset"])))
       (raise (ValueError "`mode` must be one of [append, replace, reset]")) ;;;
  data <- lift (match data with
                | DictLike items => inr items
                | NotDictLike => inl (ValueError "`data` must be dict-like")
                end) ;;
  check_meta config_keys meta ;;;
  feat_keys <- check_features feature_names FLUOR_TRACES data ;;
  ret (data, feat_keys).

(** What [write] does once its arguments have passed the checks. *)
Definition write_body (config_types : gmap string (gmap string (cfgval → exn + cfgval)))
    (feature_names : list string) (version : string)
    (path_or_h5file : target) (data : list (string * pydata))
    (meta : source) (logs : list (string * logdata)) (mode : string)
    (feat_keys : list string) : M (gmap string file) (option target) :=
  h5obj <- match path_or_h5file with
           | H5File p => ret p
           | Path p =>
               open_file p (if bool_decide (mode = "reset") then "w" else "a") ;;;
               ret p
           end ;;
  on_file h5obj (write_meta config_types version meta ;;;
                 write_data feature_names data feat_keys mode ;;;
                 write_logs logs mode) ;;;
  if bool_decide (mode = "append") then ret (Some (H5File h5obj)) else ret None.

(** The three steps [write] makes on the open file. *)
Definition write_steps (config_types : gmap string (gmap string (cfgval → exn + cfgval)))
    (feature_names : list string) (version : string)
    (data : list (string * pydata)) (meta : source)
    (logs : list (string * logdata)) (mode : string) (feat_keys : list string)
  : M file unit :=
  write_meta config_types version meta ;;;
  write_data feature_names data feat_keys mode ;;;
  write_logs logs mode.

(** The pair of one section of [meta] that is written last to the
    attribute [name], and the same over all of [meta]. *)
Fixpoint written_in (sec : string) (keys : list (string * cfgval)) (name : string)
  : option (string * cfgval) :=
  match keys with
  | [] => None
  | (ck, value) :: rest =>
      match written_in sec rest name with
      | Some x => Some x
      | None => if decide (sec +:+ ":" +:+ ck = name) then Some (ck, value) else None
      end
  end.

Fixpoint written (meta : source) (name : string) : option (string * string * cfgval) :=
  match meta with
  | [] => None
  | (sec, keys) :: rest =>
      match written rest name with
      | Some x => Some x
      | None => (λ x : string * cfgval, (sec, x.1, x.2)) <$> written_in sec keys name
      end
  end.

(** [dfn.config_types[sec][ck](value)], when there is such a type and it
    takes the value. *)
Definition converted (config_types : gmap string (gmap string (cfgval → exn + cfgval)))
    (x : string * string * cfgval) : option cfgval :=
  types ← config_types !! x.1.1 ;
  conftype ← types !! x.1.2 ;
  match conftype x.2 with inr c => Some c | inl _ => None end.

(** The lines of one log. *)
Definition log_lines (ldata : logdata) : list string :=
  match ldata with Line s => [s] | Lines l => l end.

(** The dataset h5py creates for an array and no attributes. *)
Definition plain (data : list item) : dataset :=
  {| values := data; dattrs := ∅ |}.

(** The [contour] group of a file that holds the contours [cs]: one
    dataset each, named by its position. *)
Definition contour_group (cs : list (list item)) : gmap string dataset :=
  list_to_map (imap (λ i c, (pretty i, plain c)) cs).

(** A dataset that has grown: it has kept its attributes and its rows,
    new rows coming after them. *)
Definition dataset_grows (d d' : dataset) : Prop :=
  values d `prefix_of` values d' ∧ dattrs d' = dattrs d.

(** A member of a group that has grown: a dataset has, and in a
    sub-group every dataset is still there and has. *)
Definition node_grows (n n' : node) : Prop :=
  match n, n' with
  | Dataset d, Dataset d' => dataset_grows d d'
  | Group g, Group g' =>
      ∀ k d, g !! k = Some d → ∃ d', g' !! k = Some d' ∧ dataset_grows d d'
  | _, _ => False
  end.

Definition group_grows (g g' : gmap string node) : Prop :=
  ∀ k n, g !! k = Some n → ∃ n', g' !! k = Some n' ∧ node_grows n n'.

(** A file that has lost nothing: every group is still there, with
    every member grown. *)
Definition file_grows (f f' : file) : Prop :=
  ∀ name g, groups f !! name = Some g →
    ∃ g', groups f' !! name = Some g' ∧ group_grows g g'.

End WriterNotions.
(** * Part II: properties *)

(** ** The configuration store *)

Module ConfigProps.
Import Config ConfigSteps.

Lemma extends_refl c : extends c c.
Proof. intros s. destruct (c !! s); by constructor. Qed.

Lemma extends_trans c1 c2 c3 : extends c1 c2 → extends c2 c3 → extends c1 c3.
Proof.
  intros H12 H23 s. specialize (H12 s). specialize (H23 s).
  destruct H12 as [d1 d2 H|]; inversion H23; subst; constructor.
  by etrans.
Qed.

Lemma extends_antisym c c' : extends c c' → extends c' c → c = c'.
Proof.
  intros H1 H2. apply map_eq. intros s.
  specialize (H1 s). specialize (H2 s).
  destruct H1 as [d d' Hd|]; [|done].
  inversion H2; subst. f_equal. by apply (anti_symm (⊆)).
Qed.

Lemma extends_insert (c : Configuration) s d k v :
  c !! s = Some d → d !! k = None → extends c (<[s := <[k := v]> d]> c).
Proof.
  intros Hs Hk s'. destruct (decide (s = s')) as [<-|Hne].
  - rewrite lookup_insert_eq, Hs. constructor. by apply insert_subseteq.
  - rewrite lookup_insert_ne by done. destruct (c !! s'); by constructor.
Qed.

Lemma extends_present sec key c c' : extends c c' → present sec key c → present sec key c'.
Proof.
  intros H (d & Hd & [v Hv]). specialize (H (lower sec)).
  rewrite Hd in H. inversion H as [? d' Hsub E1 E2|]; subst.
  exists d'. split; [done|]. exists v. by eapply lookup_weaken.
Qed.

Lemma extends_section s c c' : extends c c' → is_Some (c !! s) → is_Some (c' !! s).
Proof. intros H [d Hd]. specialize (H s). rewrite Hd in H. inversion H; eauto. Qed.

Lemma extends_no_section s (c c' : Configuration) : extends c c' → c !! s = None → c' !! s = None.
Proof. intros H Hd. specialize (H s). rewrite Hd in H. by inversion H. Qed.

Lemma bind_ok {S A B} (m : M S A) (k : A → M S B) s b s'' :
  bind m k s = Ok b s'' ↔ ∃ a s', m s = Ok a s' ∧ k a s' = Ok b s''.
Proof.
  unfold bind. destruct (m s) as [a s'|e s']; split.
  - eauto.
  - by intros (? & ? & [= -> ->] & ?).
  - done.
  - by intros (? & ? & ? & ?).
Qed.

Lemma bind_raise {S A B} (m : M S A) (k : A → M S B) s e s'' :
  bind m k s = Raise e s'' ↔
  m s = Raise e s'' ∨ ∃ a s', m s = Ok a s' ∧ k a s' = Raise e s''.
Proof.
  unfold bind. destruct (m s) as [a s'|e' s']; split.
  - eauto.
  - intros [|(? & ? & [= -> ->] & ?)]; done.
  - intros [= -> ->]. by left.
  - intros [[= -> ->]|(? & ? & ? & ?)]; done.
Qed.

(** A call that raised nothing returned, leaving its state behind. *)
Lemma not_raised_ok {S} (o : outcome S unit) :
  raised o = None → o = Ok tt (state_after o).
Proof. by destruct o as [[] s|e s]. Qed.

Lemma ret_repeatable : repeatable (ret tt).
Proof.
  split; unfold ret; simpl.
  - apply extends_refl.
  - by intros ?? [= ->].
  - done.
  - done.
Qed.

Lemma seq_repeatable m1 m2 :
  repeatable m1 → repeatable m2 → repeatable (m1 ;;; m2).
Proof.
  intros R1 R2. split.
  - intros c. unfold bind. pose proof (rep_extends _ R1 c) as H1.
    destruct (m1 c) as [[] c1|e c1]; simpl in *; [|done].
    eapply extends_trans; [done|]. apply (rep_extends _ R2).
  - intros c c'' ([] & c1 & H1 & H2)%bind_ok.
    apply bind_ok. exists tt, c''. split; [|by eapply rep_settled].
    eapply rep_upward; [done|by eapply rep_settled|].
    pose proof (rep_extends _ R2 c1) as H. by rewrite H2 in H.
  - intros c c' ([] & c1 & H1 & H2)%bind_ok Hext.
    assert (c1 = c) as ->.
    { apply extends_antisym.
      - pose proof (rep_extends _ R2 c1) as H. by rewrite H2 in H.
      - pose proof (rep_extends _ R1 c) as H. by rewrite H1 in H. }
    apply bind_ok. exists tt, c'. split; by eapply rep_upward.
  - intros c e c' [H1|([] & c1 & H1 & H2)]%bind_raise.
    + apply bind_raise. left. by eapply rep_failed.
    + apply bind_raise. right. exists tt, c'. split; [|by eapply rep_failed].
      eapply rep_upward; [done|by eapply rep_settled|].
      pose proof (rep_extends _ R2 c1) as H. by rewrite H2 in H.
Qed.

Lemma for_each_repeatable {A} (l : list A) (body : A → M Configuration unit) :
  (∀ x, repeatable (body x)) → repeatable (for_each l body).
Proof.
  intros Hbody. induction l as [|x l IH]; simpl.
  - apply ret_repeatable.
  - by apply seq_repeatable.
Qed.

Lemma repeatable_idempotent m c :
  repeatable m → m (state_after (m c)) = m c.
Proof.
  intros R. destruct (m c) as [[] c'|e c'] eqn:E; simpl.
  - by eapply rep_settled.
  - by eapply rep_failed.
Qed.

Lemma fill_spec sec key v (c : Configuration) :
  fill sec key v c =
  match c !! lower sec with
  | None => Raise (KeyError sec) c
  | Some d =>
      Ok tt (if ci_contains key d then c
             else <[lower sec := <[lower key := v]> d]> c)
  end.
Proof.
  unfold fill, cfg_getitem, cfg_setkey, cfg_getitem, bind, get, lift,
    ci_getitem, _k, when, modify, ci_setitem, ret, _k.
  destruct (c !! lower sec) as [d|] eqn:E; [|done].
  destruct (ci_contains key d); simpl; [done|].
  by rewrite E.
Qed.

Lemma ci_contains_true {V} key (d : gmap string V) :
  ci_contains key d = true ↔ is_Some (d !! lower key).
Proof. unfold ci_contains, _k. apply bool_decide_eq_true. Qed.

Lemma ci_contains_false {V} key (d : gmap string V) :
  ci_contains key d = false ↔ d !! lower key = None.
Proof.
  unfold ci_contains, _k. rewrite bool_decide_eq_false.
  by rewrite eq_None_not_Some.
Qed.

Lemma insert_absent_ne (c : Configuration) s d k v :
  c !! s = Some d → d !! k = None → <[s := <[k := v]> d]> c ≠ c.
Proof.
  intros Hs Hk Heq.
  assert (<[s := <[k := v]> d]> c !! s = Some d) as H by by rewrite Heq.
  rewrite lookup_insert_eq in H. injection H as H.
  assert (<[k := v]> d !! k = None) as H' by by rewrite H.
  by rewrite lookup_insert_eq in H'.
Qed.

Lemma fill_repeatable sec key v : repeatable (fill sec key v).
Proof.
  split.
  - intros c. rewrite fill_spec. destruct (c !! lower sec) as [d|] eqn:E; simpl.
    + destruct (ci_contains key d) eqn:Hc; [apply extends_refl|].
      apply extends_insert; [done|]. by apply ci_contains_false.
    + apply extends_refl.
  - intros c c'. rewrite !fill_spec.
    destruct (c !! lower sec) as [d|] eqn:E; [|done].
    destruct (ci_contains key d) eqn:Hc; intros [= <-].
    + by rewrite E, Hc.
    + rewrite lookup_insert_eq.
      replace (ci_contains key (<[lower key := v]> d)) with true; [done|].
      symmetry. apply ci_contains_true. rewrite lookup_insert_eq. eauto.
  - intros c c'. rewrite !fill_spec.
    destruct (c !! lower sec) as [d|] eqn:E; [|done].
    destruct (ci_contains key d) eqn:Hc.
    + intros _ Hext.
      destruct (extends_present sec key c c' Hext) as (d' & Hd' & Hk).
      { exists d. split; [done|]. by apply ci_contains_true. }
      rewrite Hd'. by apply ci_contains_true in Hk as ->.
    + intros [= Heq]. exfalso. revert Heq. apply insert_absent_ne; [done|].
      by apply ci_contains_false.
  - intros c e c'. rewrite !fill_spec.
    destruct (c !! lower sec) as [d|] eqn:E; [done|].
    intros [= <- <-]. by rewrite E.
Qed.

Lemma bind_assoc {S A B C} (m : M S A) (f : A → M S B) (g : B → M S C) s :
  bind (bind m f) g s = bind m (λ a, bind (f a) g) s.
Proof. unfold bind. by destruct (m s). Qed.

Lemma bind_ext {S A B} (m : M S A) (f g : A → M S B) s :
  (∀ a s', f a s' = g a s') → bind m f s = bind m g s.
Proof. intros H. unfold bind. by destruct (m s). Qed.

Lemma for_each_ext {S A} (l : list A) (f g : A → M S unit) s :
  (∀ x s', f x s' = g x s') → for_each l f s = for_each l g s.
Proof.
  intros H. revert s. induction l as [|x l IH]; intros s; simpl; [done|].
  unfold bind. rewrite H. destruct (g x s); [apply IH|done].
Qed.

Lemma fix_config_steps uid c : _fix_config uid c = fix_steps uid c.
Proof.
  unfold _fix_config, fix_steps, assert_general.
  rewrite bind_assoc. apply bind_ext. intros hg c1.
  apply bind_ext. intros _ c2.
  unfold fill at 1. rewrite bind_assoc. apply bind_ext. intros g c3.
  apply bind_ext. intros _ c4.
  unfold channel_step. rewrite bind_assoc. apply bind_ext. intros g' c5.
  apply bind_ext. intros _ c6.
  apply for_each_ext. intros item c7.
  apply for_each_ext. intros a c8.
  unfold minmax_step, fill. rewrite bind_assoc. apply bind_ext. intros p c9.
  done.
Qed.

Lemma lower_general : lower "general" = "general".
Proof. reflexivity. Qed.

Lemma assert_general_spec (c : Configuration) :
  assert_general c =
  match c !! "general" with
  | Some _ => Ok tt c
  | None => Raise (AssertionError "Configuration not properly initialized!") c
  end.
Proof.
  unfold assert_general, cfg_contains, bind, get, ret, when, raise.
  destruct (c !! "general") as [g|] eqn:E.
  - replace (ci_contains "general" c) with true; [done|].
    symmetry. apply ci_contains_true. rewrite lower_general, E. eauto.
  - replace (ci_contains "general" c) with false; [done|].
    symmetry. by apply ci_contains_false.
Qed.

Lemma assert_general_repeatable : repeatable assert_general.
Proof.
  split.
  - intros c. rewrite assert_general_spec.
    destruct (c !! "general"); apply extends_refl.
  - intros c c'. rewrite !assert_general_spec.
    destruct (c !! "general") eqn:E; [|done]. intros [= <-]. by rewrite E.
  - intros c c'. rewrite !assert_general_spec.
    destruct (c !! "general") eqn:E; [|done]. intros _ Hext.
    destruct (extends_section "general" c c' Hext) as [g' ->]; [by rewrite E|done].
  - intros c e c'. rewrite !assert_general_spec.
    destruct (c !! "general") eqn:E; [done|]. intros [= <- <-]. by rewrite E.
Qed.

Lemma channel_step_spec (c : Configuration) :
  channel_step c =
  match c !! "general" with
  | None => Raise (KeyError "general") c
  | Some g =>
      if ci_contains "channel width" g then Ok tt c
      else match g !! "flow rate [ul/s]" with
           | None => Raise (KeyError "flow Rate [ul/s]") c
           | Some rate =>
               match lt_0_16 rate with
               | inl e => Raise e c
               | inr below =>
                   Ok tt (<["general" := <["channel width" := channel_default below]> g]> c)
               end
           end
  end.
Proof.
  unfold channel_step, cfg_getitem, bind, get, lift, ci_getitem, when, ret.
  change (_k "general") with "general".
  change (_k "flow Rate [ul/s]") with "flow rate [ul/s]".
  destruct (c !! "general") as [g|] eqn:E; [|done].
  destruct (ci_contains "channel width" g); simpl; [done|].
  rewrite E.
  destruct (g !! "flow rate [ul/s]") as [rate|]; [|done].
  destruct (lt_0_16 rate) as [e|[]]; [done| |];
    unfold cfg_setkey, cfg_getitem, bind, get, lift, ci_getitem, modify, ci_setitem;
    change (_k "general") with "general";
    change (_k "channel width") with "channel width";
    by rewrite E.
Qed.

Lemma channel_step_repeatable : repeatable channel_step.
Proof.
  split.
  - intros c. rewrite channel_step_spec.
    destruct (c !! "general") as [g|] eqn:E; [|apply extends_refl].
    destruct (ci_contains "channel width" g) eqn:Hc; [apply extends_refl|].
    destruct (g !! "flow rate [ul/s]") as [rate|]; [|apply extends_refl].
    destruct (lt_0_16 rate) as [e|below]; [apply extends_refl|]. simpl.
    apply extends_insert; [done|]. by apply ci_contains_false in Hc.
  - intros c c'. rewrite !channel_step_spec.
    destruct (c !! "general") as [g|] eqn:E; [|done].
    destruct (ci_contains "channel width" g) eqn:Hc.
    { intros [= <-]. by rewrite E, Hc. }
    destruct (g !! "flow rate [ul/s]") as [rate|]; [|done].
    destruct (lt_0_16 rate) as [e|below]; [done|]. intros [= <-].
    rewrite lookup_insert_eq.
    replace (ci_contains "channel width" _) with true; [done|].
    symmetry. apply ci_contains_true.
    change (lower "channel width") with "channel width".
    rewrite lookup_insert_eq. eauto.
  - intros c c'. rewrite !channel_step_spec.
    destruct (c !! "general") as [g|] eqn:E; [|done].
    destruct (ci_contains "channel width" g) eqn:Hc.
    + intros _ Hext.
      destruct (extends_present "general" "channel width" c c' Hext) as (g' & Hg' & Hk).
      { exists g. split; [done|]. by apply ci_contains_true. }
      change (lower "general") with "general" in Hg'. rewrite Hg'.
      by apply ci_contains_true in Hk as ->.
    + destruct (g !! "flow rate [ul/s]") as [rate|]; [|done].
      destruct (lt_0_16 rate) as [e|below]; [done|].
      intros [= Heq]. exfalso. revert Heq. apply insert_absent_ne; [done|].
      by apply ci_contains_false in Hc.
  - intros c e c'. rewrite !channel_step_spec.
    destruct (c !! "general") as [g|] eqn:E.
    2:{ intros [= <- <-]. by rewrite E. }
    destruct (ci_contains "channel width" g) eqn:Hc; [done|].
    destruct (g !! "flow rate [ul/s]") as [rate|] eqn:Hr.
    2:{ intros [= <- <-]. by rewrite E, Hc, Hr. }
    destruct (lt_0_16 rate) as [e'|below] eqn:Hlt; [|done].
    intros [= <- <-]. by rewrite E, Hc, Hr, Hlt.
Qed.

Lemma fix_steps_repeatable uid : repeatable (fix_steps uid).
Proof.
  unfold fix_steps.
  apply seq_repeatable; [apply assert_general_repeatable|].
  apply seq_repeatable; [apply fill_repeatable|].
  apply seq_repeatable; [apply channel_step_repeatable|].
  apply for_each_repeatable. intros item.
  apply for_each_repeatable. intros a.
  apply seq_repeatable; apply fill_repeatable.
Qed.

(** C8. Running [_fix_config] on the configuration a first run left
    behind gives the outcome of that first run again: the same contents,
    and the same exception if the first run raised one. The operation is
    idempotent on every configuration. *)
Theorem fix_config_idempotent (uid : list string) (c : Configuration) :
  _fix_config uid (state_after (_fix_config uid c)) = _fix_config uid c.
Proof.
  rewrite !fix_config_steps.
  apply repeatable_idempotent, fix_steps_repeatable.
Qed.

(** *** What a successful construction leaves behind *)

Lemma cfg_setkey_spec sec key v (c : Configuration) :
  cfg_setkey sec key v c =
  match c !! lower sec with
  | None => Raise (KeyError sec) c
  | Some d => Ok tt (<[lower sec := <[lower key := v]> d]> c)
  end.
Proof.
  unfold cfg_setkey, cfg_getitem, bind, get, lift, ci_getitem, modify, ci_setitem, _k.
  by destruct (c !! lower sec).
Qed.

Lemma setkeys_ok key (sect : list (string * cfgval)) (c : Configuration) :
  is_Some (c !! lower key) →
  ∃ c', for_each sect (λ '(skey, v), cfg_setkey key skey v) c = Ok tt c'
        ∧ is_Some (c' !! lower key).
Proof.
  revert c. induction sect as [|[skey v] sect IH]; intros c [d Hd]; simpl.
  - exists c. split; [done|eauto].
  - unfold bind. rewrite cfg_setkey_spec, Hd.
    apply IH. rewrite lookup_insert_eq. eauto.
Qed.

(** [update] cannot fail: it creates the section it is about to write. *)
Lemma update_ok (newcfg : source) (c : Configuration) :
  ∃ c', update newcfg c = Ok tt c'.
Proof.
  unfold update. revert c.
  induction newcfg as [|[key sect] newcfg IH]; intros c; simpl.
  - by exists c.
  - unfold bind at 1. unfold bind at 1. unfold get at 1. unfold bind at 1.
    destruct (ci_contains key c) eqn:Hc; simpl.
    + apply ci_contains_true in Hc.
      destruct (setkeys_ok key sect c Hc) as (c1 & -> & _). apply IH.
    + unfold modify at 1.
      destruct (setkeys_ok key sect (ci_setitem key ∅ c)) as (c1 & -> & _); [|apply IH].
      unfold ci_setitem, _k. rewrite lookup_insert_eq. eauto.
Qed.

Lemma load_sources_ok default files cfg (c : Configuration) :
  ∃ c', load_sources default files cfg c = Ok tt c'.
Proof.
  unfold load_sources, bind.
  destruct (update_ok default c) as [c1 ->].
  destruct (update_ok cfg c1) as [c2 ->].
  clear. revert c2. induction files as [|f files IH]; intros c; simpl.
  - by exists c.
  - unfold bind. destruct (update_ok f c) as [c1 ->]. apply IH.
Qed.

Lemma zero_filled_refl c : zero_filled c c.
Proof. split; auto. Qed.

Lemma zero_filled_trans c1 c2 c3 :
  zero_filled c1 c2 → zero_filled c2 c3 → zero_filled c1 c3.
Proof.
  intros [Ha Hb] [Ha' Hb']. split.
  - intros s H1 H2. rewrite Ha', Ha; auto.
  - intros sec key.
    destruct (Hb sec key) as [E|[E1 E2]], (Hb' sec key) as [E'|[E1' E2']].
    + left. congruence.
    + right. split; congruence.
    + right. split; congruence.
    + congruence.
Qed.

Lemma entry_insert_section (c : Configuration) s d sec key :
  entry sec key (<[s := d]> c) =
  if decide (s = lower sec) then d !! lower key else entry sec key c.
Proof.
  unfold entry, _k. case_decide as H.
  - subst. by rewrite lookup_insert_eq.
  - by rewrite lookup_insert_ne.
Qed.

Lemma fill_zero_filled sec key (c c' : Configuration) :
  lower sec = "plotting" ∨ lower sec = "filtering" →
  fill sec key (CInt 0) c = Ok tt c' → zero_filled c c'.
Proof.
  intros Hsec. rewrite fill_spec.
  destruct (c !! lower sec) as [d|] eqn:E; [|done].
  destruct (ci_contains key d) eqn:Hc; intros [= <-]; [apply zero_filled_refl|].
  apply ci_contains_false in Hc. split.
  - intros s H1 H2. rewrite lookup_insert_ne; [done|]. destruct Hsec; congruence.
  - intros sec' key'. rewrite entry_insert_section. case_decide as Hs; [|by left].
    destruct (decide (lower key = lower key')) as [Hk|Hk].
    + right. unfold entry, _k. rewrite <-Hs, E. simpl. rewrite <-Hk, Hc.
      by rewrite lookup_insert_eq.
    + left. unfold entry, _k. rewrite <-Hs, E. simpl. by rewrite lookup_insert_ne.
Qed.

Lemma fill_present sec key v (c c' : Configuration) :
  fill sec key v c = Ok tt c' → is_Some (entry sec key c').
Proof.
  rewrite fill_spec. destruct (c !! lower sec) as [d|] eqn:E; [|done].
  destruct (ci_contains key d) eqn:Hc; intros [= <-].
  - apply ci_contains_true in Hc. unfold entry, _k. by rewrite E.
  - rewrite entry_insert_section, decide_True by done. rewrite lookup_insert_eq. eauto.
Qed.

(** A loop that ran to its end ran the body on each element, at some
    state between the first and the last. *)
Lemma for_each_ok_elem {S A} (R : S → S → Prop) (l : list A) (body : A → M S unit) s s' :
  (∀ s, R s s) → (∀ s1 s2 s3, R s1 s2 → R s2 s3 → R s1 s3) →
  (∀ x s1 s2, body x s1 = Ok tt s2 → R s1 s2) →
  for_each l body s = Ok tt s' →
  R s s' ∧ ∀ x, x ∈ l → ∃ s1 s2, R s s1 ∧ body x s1 = Ok tt s2 ∧ R s2 s'.
Proof.
  intros Hrefl Htrans Hbody. revert s.
  induction l as [|y l IH]; intros s; simpl.
  - intros [= <-]. split; [done|]. by intros x ?%elem_of_nil.
  - intros ([] & s1 & Hy & Hl)%bind_ok.
    destruct (IH _ Hl) as [HR Hin]. split; [by eauto|].
    intros x [->|Hx]%elem_of_cons.
    + exists s, s1. eauto.
    + destruct (Hin x Hx) as (t1 & t2 & ? & ? & ?). exists t1, t2. eauto.
Qed.

Lemma lower_app s1 s2 : lower (s1 +:+ s2) = lower s1 +:+ lower s2.
Proof. induction s1 as [|a s1 IH]; simpl; [done|]. by rewrite IH. Qed.

Lemma minmax_step_ok item a (c c' : Configuration) :
  minmax_step item a c = Ok tt c' →
  zero_filled c c' ∧
  is_Some (entry "plotting" (item +:+ a) c') ∧
  is_Some (entry "filtering" (item +:+ a) c').
Proof.
  intros ([] & c1 & H1 & H2)%bind_ok.
  assert (zero_filled c c1) as Z1
    by (apply (fill_zero_filled "plotting" (item +:+ a)); [by left|done]).
  assert (zero_filled c1 c') as Z2
    by (apply (fill_zero_filled "filtering" (item +:+ a)); [by right|done]).
  split; [by eapply zero_filled_trans|]. split; [|by eapply fill_present].
  apply fill_present in H1 as [v Hv].
  destruct Z2 as [_ Z2]. destruct (Z2 "plotting" (item +:+ a)) as [->|[? _]]; [eauto|congruence].
Qed.

Lemma zero_filled_keeps sec key c c' :
  zero_filled c c' → is_Some (entry sec key c) → entry sec key c' = entry sec key c.
Proof. intros [_ H] [v Hv]. destruct (H sec key) as [|[? _]]; congruence. Qed.

Lemma minmax_loop_ok uid (c c' : Configuration) :
  for_each uid (λ item, for_each [" min"; " max"] (minmax_step item)) c = Ok tt c' →
  zero_filled c c' ∧
  ∀ item a, item ∈ uid → a ∈ [" min"; " max"] →
    is_Some (entry "plotting" (item +:+ a) c') ∧
    is_Some (entry "filtering" (item +:+ a) c').
Proof.
  intros Hloop.
  assert (∀ item s1 s2,
    for_each [" min"; " max"] (minmax_step item) s1 = Ok tt s2 →
    zero_filled s1 s2 ∧ ∀ a, a ∈ [" min"; " max"] →
      is_Some (entry "plotting" (item +:+ a) s2) ∧
      is_Some (entry "filtering" (item +:+ a) s2)) as Hinner.
  { intros item s1 s2 H.
    apply (for_each_ok_elem zero_filled) in H as [HZ Hin];
      [|apply zero_filled_refl|apply zero_filled_trans
       |intros; by eapply minmax_step_ok].
    split; [done|]. intros a Ha.
    destruct (Hin a Ha) as (t1 & t2 & _ & (_ & Hp & Hf)%minmax_step_ok & Z).
    by rewrite !(zero_filled_keeps _ _ t2 s2). }
  apply (for_each_ok_elem zero_filled) in Hloop as [HZ Hin];
    [|apply zero_filled_refl|apply zero_filled_trans|intros; by eapply Hinner].
  split; [done|]. intros item a Hitem Ha.
  destruct (Hin item Hitem) as (t1 & t2 & _ & (_ & Hpf)%Hinner & Z).
  destruct (Hpf a Ha). by rewrite !(zero_filled_keeps _ _ t2 c').
Qed.

Lemma entry_general key (c : Configuration) g :
  c !! "general" = Some g → entry "general" key c = g !! lower key.
Proof. intros H. unfold entry, _k. change (lower "general") with "general". by rewrite H. Qed.

Lemma entry_other_section sec key (c c' : Configuration) :
  c' !! lower sec = c !! lower sec → entry sec key c' = entry sec key c.
Proof. intros H. unfold entry, _k. by rewrite H. Qed.

(** C7. A configuration whose construction succeeded, whatever the
    defaults, the explicit mapping and the loaded files were, has a
    [general] section; in it [flow rate [ul/s]] holds the supplied value or
    else NaN, and [channel width] holds the supplied value or else 20 when
    the flow rate compares below 0.16 and 30 when it does not; and for every
    known feature identifier, [plotting] and [filtering] hold the supplied
    [<feature> min] and [<feature> max] or else 0. *)
Theorem Configuration_init_invariant
    (uid : list string) (default : source)
    (files : list source) (cfg : source) (c : Configuration) :
  Configuration_init uid default files cfg = Ok tt c →
  ∃ merged,
    load_sources default files cfg ∅ = Ok tt merged ∧
    is_Some (c !! "general") ∧
    entry "general" "flow rate [ul/s]" c
      = Some (from_option id (CFloat nan) (entry "general" "flow rate [ul/s]" merged)) ∧
    match entry "general" "channel width" merged with
    | Some width => entry "general" "channel width" c = Some width
    | None =>
        ∃ rate below,
          entry "general" "flow rate [ul/s]" c = Some rate ∧
          lt_0_16 rate = inr below ∧
          entry "general" "channel width" c = Some (if below then CInt 20 else CInt 30)
    end ∧
    ∀ item a sec,
      item ∈ uid → a ∈ [" min"; " max"] → sec ∈ ["plotting"; "filtering"] →
      entry sec (item +:+ a) c
        = Some (from_option id (CInt 0) (entry sec (item +:+ a) merged)).
Proof.
  unfold Configuration_init. intros ([] & merged & Hload & Hfix)%bind_ok.
  exists merged. split; [done|].
  rewrite fix_config_steps in Hfix. unfold fix_steps in Hfix.
  apply bind_ok in Hfix as ([] & c0 & Hassert & Hfix).
  apply bind_ok in Hfix as ([] & c1 & Hflow & Hfix).
  apply bind_ok in Hfix as ([] & c2 & Hwidth & Hloop).
  rewrite assert_general_spec in Hassert.
  destruct (merged !! "general") as [g0|] eqn:Hg0; [|done].
  injection Hassert as <-.
  rewrite fill_spec in Hflow. change (lower "general") with "general" in Hflow.
  change (lower "flow Rate [ul/s]") with "flow rate [ul/s]" in Hflow.
  rewrite Hg0 in Hflow.
  (* the general section after the flow-rate step *)
  assert (∃ g1, c1 !! "general" = Some g1 ∧
            g1 !! "flow rate [ul/s]"
              = Some (from_option id (CFloat nan) (g0 !! "flow rate [ul/s]")) ∧
            g1 !! "channel width" = g0 !! "channel width" ∧
            ∀ s, s ≠ "general" → c1 !! s = merged !! s) as (g1 & Hg1 & Hrate1 & Hcw1 & Hsec1).
  { destruct (ci_contains "flow Rate [ul/s]" g0) eqn:Hc; injection Hflow as <-.
    - apply ci_contains_true in Hc as [v Hv].
      change (lower "flow Rate [ul/s]") with "flow rate [ul/s]" in Hv.
      exists g0. by rewrite Hv.
    - apply ci_contains_false in Hc.
      change (lower "flow Rate [ul/s]") with "flow rate [ul/s]" in Hc.
      eexists. rewrite lookup_insert_eq. split; [done|].
      rewrite lookup_insert_eq, Hc, lookup_insert_ne by done.
      repeat split. intros s ?. by rewrite lookup_insert_ne. }
  rewrite channel_step_spec, Hg1 in Hwidth.
  (* the general section after the channel-width step *)
  assert (∃ g2, c2 !! "general" = Some g2 ∧
            g2 !! "flow rate [ul/s]" = g1 !! "flow rate [ul/s]" ∧
            match g1 !! "channel width" with
            | Some width => g2 !! "channel width" = Some width
            | None => ∃ rate below,
                g1 !! "flow rate [ul/s]" = Some rate ∧ lt_0_16 rate = inr below ∧
                g2 !! "channel width" = Some (if below then CInt 20 else CInt 30)
            end ∧
            ∀ s, s ≠ "general" → c2 !! s = c1 !! s) as (g2 & Hg2 & Hrate2 & Hcw2 & Hsec2).
  { destruct (ci_contains "channel width" g1) eqn:Hc.
    - injection Hwidth as <-. apply ci_contains_true in Hc as [w Hw].
      change (lower "channel width") with "channel width" in Hw.
      exists g1. by rewrite Hw.
    - apply ci_contains_false in Hc.
      change (lower "channel width") with "channel width" in Hc.
      destruct (g1 !! "flow rate [ul/s]") as [rate|] eqn:Hr; [|done].
      destruct (lt_0_16 rate) as [e|below] eqn:Hlt; [done|].
      injection Hwidth as <-. eexists. rewrite lookup_insert_eq. split; [done|].
      rewrite lookup_insert_ne by done. split; [done|]. rewrite Hc. split.
      + exists rate, below. rewrite lookup_insert_eq. by destruct below.
      + intros s ?. by rewrite lookup_insert_ne. }
  apply minmax_loop_ok in Hloop as [[Hframe Hzero] Hpresent].
  assert (c !! "general" = Some g2) as Hg by by rewrite Hframe.
  split; [by rewrite Hg|].
  rewrite !(entry_general _ c g2), !(entry_general _ merged g0) by done.
  change (lower "flow rate [ul/s]") with "flow rate [ul/s]".
  change (lower "channel width") with "channel width".
  split; [by rewrite Hrate2|]. split.
  - rewrite <-Hcw1. destruct (g1 !! "channel width"); [done|].
    destruct Hcw2 as (rate & below & ? & ? & ?). exists rate, below.
    by rewrite Hrate2.
  - intros item a sec Hitem Ha Hsec.
    assert (entry sec (item +:+ a) c2 = entry sec (item +:+ a) merged) as <-.
    { apply entry_other_section. unfold _k.
      rewrite Hsec2, Hsec1; [done| |];
        apply elem_of_cons in Hsec as [->|Hsec]; [done| |done|];
        apply list_elem_of_singleton in Hsec as ->; done. }
    assert (is_Some (entry sec (item +:+ a) c)) as [v Hv].
    { destruct (Hpresent item a Hitem Ha).
      apply elem_of_cons in Hsec as [->|Hsec]; [done|].
      by apply list_elem_of_singleton in Hsec as ->. }
    rewrite Hv. destruct (Hzero sec (item +:+ a)) as [E|[E1 E2]].
    + by rewrite <-E, Hv.
    + rewrite E1. simpl. congruence.
Qed.

Lemma Configuration_init_invariant_witness :
  Configuration_init Fixture.uid Fixture.default [] Fixture.cfg = Ok tt Fixture.built ∧
  entry "general" "channel width" Fixture.built = Some (CInt 20) ∧
  entry "filtering" "defo min" Fixture.built = Some (CFloat 0.01) ∧
  entry "filtering" "defo max" Fixture.built = Some (CInt 0).
Proof.
  assert (Configuration_init Fixture.uid Fixture.default [] Fixture.cfg
          = Ok tt Fixture.built) as Hbuilt
    by (apply not_raised_ok; vm_compute; reflexivity).
  split; [exact Hbuilt|].
  destruct (Configuration_init_invariant _ _ _ _ _ Hbuilt)
    as (merged & Hmerged & _ & _ & Hwidth & Hminmax).
  assert (merged = state_after (load_sources Fixture.default [] Fixture.cfg ∅)) as ->
    by (by rewrite Hmerged).
  split; [|split].
  - vm_compute in Hwidth. destruct Hwidth as (rate & below & [= <-] & Hbelow & ->).
    vm_compute in Hbelow. by injection Hbelow as <-.
  - etrans; [apply (Hminmax "defo" " min" "filtering")|reflexivity];
      repeat first [apply list_elem_of_here | apply list_elem_of_further].
  - etrans; [apply (Hminmax "defo" " max" "filtering")|reflexivity];
      repeat first [apply list_elem_of_here | apply list_elem_of_further].
Defined.

(** *** Constructing from a complete configuration succeeds *)

Lemma covers_refl c : covers c c.
Proof. intros s d Hd. eauto. Qed.

Lemma covers_trans c1 c2 c3 : covers c1 c2 → covers c2 c3 → covers c1 c3.
Proof.
  intros H12 H23 s d Hd. destruct (H12 s d Hd) as (d2 & Hd2 & Hk2).
  destruct (H23 s d2 Hd2) as (d3 & Hd3 & Hk3). eauto.
Qed.

Lemma covers_entry sec key c c' :
  covers c c' → is_Some (entry sec key c) → is_Some (entry sec key c').
Proof.
  unfold entry. intros Hc [v Hv].
  destruct (c !! _k sec) as [d|] eqn:Hd; [|done]. simpl in Hv.
  destruct (Hc _ d Hd) as (d' & -> & Hk). simpl. apply Hk. eauto.
Qed.

Lemma covers_section s c c' : covers c c' → is_Some (c !! s) → is_Some (c' !! s).
Proof. intros Hc [d Hd]. destruct (Hc s d Hd) as (d' & -> & _). eauto. Qed.

Lemma extends_covers c c' : extends c c' → covers c c'.
Proof.
  intros Hext s d Hd. specialize (Hext s). rewrite Hd in Hext.
  inversion Hext as [? d' Hsub|]; subst. exists d'. split; [done|].
  intros k [v Hv]. exists v. by eapply lookup_weaken.
Qed.

Lemma covers_complete c c' : covers c c' → complete c → complete c'.
Proof.
  intros Hc (? & ? & ?).
  split; [by eapply covers_entry|]. split; by eapply covers_section.
Qed.

Lemma cfg_setkey_covers sec key v (c c' : Configuration) :
  cfg_setkey sec key v c = Ok tt c' →
  covers c c' ∧ is_Some (entry sec key c').
Proof.
  rewrite cfg_setkey_spec. destruct (c !! lower sec) as [d|] eqn:Hd; [|done].
  intros [= <-]. split.
  - intros s d0 Hd0. destruct (decide (s = lower sec)) as [->|Hne].
    + rewrite lookup_insert_eq. eexists. split; [done|].
      assert (d0 = d) as -> by congruence.
      intros k Hk. destruct (decide (k = lower key)) as [->|Hk'].
      * rewrite lookup_insert_eq. eauto.
      * by rewrite lookup_insert_ne.
    + rewrite lookup_insert_ne by done. eauto.
  - unfold entry, _k. rewrite lookup_insert_eq. simpl. rewrite lookup_insert_eq. eauto.
Qed.

Lemma update_covers (newcfg : source) (c c' : Configuration) :
  update newcfg c = Ok tt c' →
  covers c c' ∧
  ∀ key sect, (key, sect) ∈ newcfg →
    is_Some (c' !! lower key) ∧
    ∀ skey v, (skey, v) ∈ sect → is_Some (entry key skey c').
Proof.
  intros Hup. unfold update in Hup.
  apply (for_each_ok_elem covers) in Hup as [Hcov Hin];
    [|apply covers_refl|apply covers_trans|].
  - split; [done|]. intros key sect Hks.
    destruct (Hin _ Hks) as (s1 & s2 & _ & Hbody & Hc2).
    apply bind_ok in Hbody as (c0 & s1' & [= <- <-] & Hbody).
    apply bind_ok in Hbody as ([] & t & Hcreate & Hkeys).
    assert (is_Some (t !! lower key)) as Hsec.
    { unfold when in Hcreate. destruct (ci_contains key s1) eqn:Hk; simpl in Hcreate.
      - injection Hcreate as <-. by apply ci_contains_true.
      - injection Hcreate as <-. unfold ci_setitem, _k. rewrite lookup_insert_eq. eauto. }
    apply (for_each_ok_elem covers) in Hkeys as [Hcov' Hin'];
      [|apply covers_refl|apply covers_trans
       |intros [skey v] t1 t2 Ht; by apply cfg_setkey_covers in Ht as [? _]].
    split.
    + eapply covers_section; [done|]. by eapply covers_section.
    + intros skey v Hsv.
      destruct (Hin' _ Hsv) as (t1 & t2 & _ & [_ Hpres]%cfg_setkey_covers & Hc3).
      eapply covers_entry; [done|]. by eapply covers_entry.
  - intros [key sect] s1 s2 Hbody.
    apply bind_ok in Hbody as (c0 & s1' & [= <- <-] & Hbody).
    apply bind_ok in Hbody as ([] & t & Hcreate & Hkeys).
    eapply covers_trans.
    + unfold when in Hcreate. destruct (ci_contains key s1) eqn:Hk; simpl in Hcreate;
        injection Hcreate as <-; [apply covers_refl|].
      apply ci_contains_false in Hk. intros s d Hd.
      unfold ci_setitem, _k. rewrite lookup_insert_ne by congruence. eauto.
    + apply (for_each_ok_elem covers) in Hkeys as [Hcov' _];
        [done|apply covers_refl|apply covers_trans
        |intros [skey v] t1 t2 Ht; by apply cfg_setkey_covers in Ht as [? _]].
Qed.

Lemma items_elem (c : Configuration) key d :
  c !! key = Some d → (key, map_to_list d) ∈ items c.
Proof.
  intros Hd. unfold items. apply elem_of_map_to_list.
  by rewrite lookup_fmap, Hd.
Qed.

Lemma update_items_complete (c c0 c' : Configuration) :
  complete c → update (items c) c0 = Ok tt c' → complete c'.
Proof.
  intros (Hw & [p Hp] & [f Hf]) [_ Hin]%update_covers.
  unfold entry in Hw. change (_k "general") with "general" in Hw.
  change (_k "channel width") with "channel width" in Hw.
  destruct (c !! "general") as [g|] eqn:Hg; [|by destruct Hw]. simpl in Hw.
  destruct Hw as [w Hw].
  split; [|split].
  - destruct (Hin _ _ (items_elem c _ _ Hg)) as [_ Hkeys].
    apply (Hkeys "channel width" w). by apply elem_of_map_to_list.
  - by destruct (Hin _ _ (items_elem c _ _ Hp)) as [? _].
  - by destruct (Hin _ _ (items_elem c _ _ Hf)) as [? _].
Qed.

Lemma minmax_loop_returns uid (c : Configuration) :
  is_Some (c !! "plotting") → is_Some (c !! "filtering") →
  ∃ c', for_each uid (λ item, for_each [" min"; " max"] (minmax_step item)) c = Ok tt c'.
Proof.
  assert (∀ item a (c : Configuration),
    is_Some (c !! "plotting") → is_Some (c !! "filtering") →
    ∃ c', minmax_step item a c = Ok tt c' ∧
          is_Some (c' !! "plotting") ∧ is_Some (c' !! "filtering")) as Hstep.
  { intros item a c0 [p Hp] [f Hf].
    pose proof (rep_extends _ (seq_repeatable _ _
      (fill_repeatable "plotting" (item +:+ a) (CInt 0))
      (fill_repeatable "filtering" (item +:+ a) (CInt 0))) c0) as Hext.
    fold (minmax_step item a) in Hext.
    assert (∃ c', minmax_step item a c0 = Ok tt c') as [c' Hc'].
    { unfold minmax_step, bind. rewrite fill_spec.
      change (lower "plotting") with "plotting". rewrite Hp.
      rewrite fill_spec. change (lower "filtering") with "filtering".
      destruct (ci_contains (item +:+ a) p).
      - rewrite Hf. eauto.
      - rewrite lookup_insert_ne by done. rewrite Hf. eauto. }
    exists c'. split; [done|]. rewrite Hc' in Hext. simpl in Hext.
    split; eapply extends_section; eauto. }
  revert c. induction uid as [|item uid IH]; intros c Hp Hf; simpl; [by eexists|].
  unfold bind at 1.
  destruct (Hstep item " min" c Hp Hf) as (c1 & H1 & Hp1 & Hf1).
  destruct (Hstep item " max" c1 Hp1 Hf1) as (c2 & H2 & Hp2 & Hf2).
  unfold bind at 1. rewrite H1. unfold bind at 1. rewrite H2. simpl.
  by apply IH.
Qed.

Lemma fix_config_complete uid (c : Configuration) :
  complete c → ∃ c', _fix_config uid c = Ok tt c' ∧ complete c'.
Proof.
  intros Hc.
  assert (∃ c', _fix_config uid c = Ok tt c') as [c' Hc'].
  { rewrite fix_config_steps. unfold fix_steps.
    destruct Hc as (Hw & Hp & Hf).
    unfold entry in Hw. change (_k "general") with "general" in Hw.
    change (_k "channel width") with "channel width" in Hw.
    destruct (c !! "general") as [g|] eqn:Hg; [|by destruct Hw]. simpl in Hw.
    unfold bind at 1. rewrite assert_general_spec, Hg.
    unfold bind at 1. rewrite fill_spec.
    change (lower "general") with "general". rewrite Hg.
    set (c1 := if ci_contains "flow Rate [ul/s]" g then c else _).
    assert (∃ g1, c1 !! "general" = Some g1 ∧ is_Some (g1 !! "channel width") ∧
              is_Some (c1 !! "plotting") ∧ is_Some (c1 !! "filtering"))
      as (g1 & Hg1 & Hw1 & Hp1 & Hf1).
    { subst c1. destruct (ci_contains "flow Rate [ul/s]" g); [by exists g|].
      eexists. rewrite lookup_insert_eq. split; [done|].
      rewrite !lookup_insert_ne by done. done. }
    unfold bind at 1. rewrite channel_step_spec, Hg1.
    replace (ci_contains "channel width" g1) with true
      by (symmetry; by apply ci_contains_true).
    by apply minmax_loop_returns. }
  exists c'. split; [done|].
  eapply covers_complete; [|done]. apply extends_covers.
  pose proof (rep_extends _ (fix_steps_repeatable uid) c) as Hext.
  by rewrite <-fix_config_steps, Hc' in Hext.
Qed.

(** [Configuration(cfg=c)] returns when [c] is complete, and the new
    configuration is complete again. *)
Lemma Configuration_init_complete uid default (c : Configuration) :
  complete c →
  ∃ c', Configuration_init uid default [] (items c) = Ok tt c' ∧ complete c'.
Proof.
  intros Hc. unfold Configuration_init, load_sources, bind.
  destruct (update_ok default ∅) as [c1 ->].
  destruct (update_ok (items c) c1) as [c2 Hc2]. rewrite Hc2. simpl.
  apply fix_config_complete. by eapply update_items_complete.
Qed.

(** *** String to value and back *)

(** A boolean prints as Python's [True] or [False], whatever was
    parsed. *)
Lemma keyword_round_trip uid py_float format_12f :
  keyval_str2typ uid py_float "Key " (inl " y") = inr (Some ("key", CBool true)) ∧
  keyval_typ2str format_12f "key" (CBool true) = ("key", "True").
Proof. split; reflexivity. Qed.

(** The value of a quoted keyword prints as the keyword, which parses
    to a boolean and then prints differently: a second round trip does not
    reproduce the first. *)
Lemma quoted_keyword_round_trip uid py_float format_12f :
  keyval_str2typ uid py_float "key" (inl "'true'") = inr (Some ("key", CStr "true")) ∧
  keyval_typ2str format_12f "key" (CStr "true") = ("key", "true") ∧
  keyval_str2typ uid py_float "key" (inl "true") = inr (Some ("key", CBool true)) ∧
  keyval_typ2str format_12f "key" (CBool true) = ("key", "True").
Proof. repeat split; reflexivity. Qed.

(** A list prints as its items in the 12-digit format, joined by a comma
    and a space, whatever separated them in the string parsed. *)
Lemma list_round_trip uid py_float format_12f x y :
  py_float "1" = Some x → py_float "2.5" = Some y →
  keyval_str2typ uid py_float "key" (inl "[1,2.5]") = inr (Some ("key", CList [x; y])) ∧
  keyval_typ2str format_12f "key" (CList [x; y])
    = ("key", "[" +:+ (format_12f x +:+ ", " +:+ format_12f y) +:+ "]").
Proof.
  intros Hx Hy. split.
  - unfold keyval_str2typ. simpl. by rewrite Hx, Hy.
  - reflexivity.
Qed.

End ConfigProps.
(** ** Hierarchy children *)

Module HierarchyProps.
Import Config Np Hierarchy.

Section Facts.

Context {D : Type} `{RTDCBase D}.
Variable base : inherited D.

Lemma set_hparent_same (self : RTDC_Hierarchy D) : set_hparent (hparent self) self = self.
Proof. by destruct self. Qed.

Lemma sum_bool_select {A} (a : list A) (mask : list bool) :
  length mask = length a → Z.of_nat (length (select a mask)) = sum_bool mask.
Proof.
  revert mask. induction a as [|x a IH]; intros [|b mask] Hlen; try done.
  injection Hlen as Hlen. specialize (IH mask Hlen).
  change (sum_bool (b :: mask)) with (Z.b2z b + sum_bool mask).
  destruct b; cbn [select length Z.b2z]; [rewrite Nat2Z.inj_succ|]; lia.
Qed.

Lemma sum_bool_nonneg mask : (0 ≤ sum_bool mask)%Z.
Proof.
  induction mask as [|b mask IH]; [done|].
  change (sum_bool (b :: mask)) with (Z.b2z b + sum_bool mask).
  destruct b; cbn [Z.b2z]; lia.
Qed.

Lemma length_arange n : (0 ≤ n)%Z → Z.of_nat (length (arange 1 (n + 1))) = n.
Proof. intros Hn. unfold arange. rewrite length_fmap, length_seqZ. lia. Qed.

(** What [apply_filter] does on a child without manual exclusions, once
    the parent's filter resolves: it returns, with the parent resolved and
    the index regenerated. *)
Lemma apply_filter_ok (self : RTDC_Hierarchy D) (p' : D) :
  base_manages_filters base →
  ds_apply_filter (hparent self) = Ok tt p' →
  manual_excludes (_filter_manual self) = false →
  ∃ self',
    apply_filter base self = Ok tt self' ∧
    hparent self' = p' ∧
    _events self' =
      <["index" := NdArray (arange 1 (sum_bool (ds_filter p') + 1))]> (_events self) ∧
    manual_excludes (_filter_manual self') = false.
Proof.
  intros (_ & Hinit & Happly) Hp Hman.
  unfold apply_filter, bind, on_parent. rewrite Hp. unfold get, modify. simpl.
  match goal with |- context [_init_filters base ?s] =>
    destruct (Hinit s) as (s1 & -> & Hp1 & He1 & Hm1) end.
  simpl in *. rewrite (Hm1 Hman). simpl.
  match goal with |- context [RTDCBase_apply_filter base ?s] =>
    destruct (Happly s) as (s2 & -> & Hp2 & He2 & Hm2) end.
  simpl in *. exists s2. split; [done|].
  rewrite Hp2, He2, Hp1, He1. auto.
Qed.

(** C9. For a key the child has not overridden and the parent holds:
    when the parent's value is not an array, [child[key]] raises
    [NotImplementedError] (no [KeyError]) and [key in child] is false; when
    it is an array, [key in child] is true and [child[key]] is the parent's
    array at the entries the parent's current filter selects (the filter
    being as long as the array, as numpy requires of a boolean index). *)
Theorem inherited_item (self : RTDC_Hierarchy D) (key : string) :
  _events self !! key = None →
  ds_contains (hparent self) key = true →
  (∀ repr, ds_getitem (hparent self) key = inr (Other repr) →
     __getitem__ self key
       = inl (NotImplementedError ("Hierarchy does not implement " +:+ key)) ∧
     __contains__ self key = inr false) ∧
  (∀ a, ds_getitem (hparent self) key = inr (NdArray a) →
     __contains__ self key = inr true ∧
     (length (ds_filter (hparent self)) = length a →
      __getitem__ self key = inr (NdArray (select a (ds_filter (hparent self)))))).
Proof.
  intros Hev Hin. unfold __getitem__, __contains__. rewrite Hev, Hin. split.
  - by intros repr ->.
  - intros a ->. split; [done|]. intros Hlen.
    unfold bool_index. by rewrite decide_True.
Qed.



Lemma Configuration_new_complete uid default (c : gmap string (gmap string cfgval)) :
  complete c →
  ∃ c', Configuration_new uid default (items c) = inr c' ∧ complete c'.
Proof.
  intros Hc. unfold Configuration_new.
  destruct (ConfigProps.Configuration_init_complete uid default c Hc) as (c' & -> & Hc').
  eauto.
Qed.

(** C10. Constructing a child of a parent whose filter resolves (and
    whose configuration is complete) returns, with no [apply_filter] by
    the caller: the parent is resolved, the child's [index] is the sequence
    1, 2, ... of as many entries as the parent's filter has [True] entries,
    and a feature the parent holds as an array can be read. *)
Theorem construction_applies_filter uid default (parent p' : D) :
  base_manages_filters base →
  complete (ds_config parent) →
  ds_apply_filter parent = Ok tt p' →
  ∃ child,
    __init__ uid default base parent = Ok tt child ∧
    hparent child = p' ∧
    (∃ index,
       __getitem__ child "index" = inr (NdArray index) ∧
       index = Int <$> seqZ 1 (sum_bool (ds_filter p')) ∧
       Z.of_nat (length index) = sum_bool (ds_filter p')) ∧
    ∀ key a,
      key ≠ "index" →
      ds_getitem p' key = inr (NdArray a) →
      length (ds_filter p') = length a →
      __getitem__ child key = inr (NdArray (select a (ds_filter p'))).
Proof.
  intros Hbase Hcfg Hp. pose proof Hbase as (Hinit & _ & _).
  destruct (Hinit (blank parent)) as (s0 & Hs0 & Hp0 & He0 & Hm0).
  destruct (Configuration_new_complete uid default _ Hcfg) as (cfg & Hcfg1 & Hc1).
  assert (∃ filtering, ci_getitem "filtering" cfg = inr filtering) as [filtering Hf].
  { destruct Hc1 as (_ & _ & [f Hf]). exists f. unfold ci_getitem.
    change (_k "filtering") with "filtering". by rewrite Hf. }
  set (filtering' := ci_setitem "hierarchy parent" (CStr (ds_identifier parent))
         (foldr ci_pop filtering
            (List.filter is_applied_filter (fst <$> map_to_list filtering)))).
  assert (complete (ci_setitem "filtering" filtering' cfg)) as Hc2.
  { destruct Hc1 as (Hw & Hpl & _). unfold ci_setitem at 1.
    change (_k "filtering") with "filtering". split; [|split].
    - unfold entry in *. change (_k "general") with "general" in *.
      by rewrite lookup_insert_ne.
    - by rewrite lookup_insert_ne.
    - rewrite lookup_insert_eq. eauto. }
  destruct (Configuration_new_complete uid default _ Hc2) as (cfg' & Hcfg2 & _).
  set (s1 := set_config cfg'
               (set_hparent parent
                  (set_path_title (ds_path parent) (ds_title parent +:+ "_child")
                     (set_events ∅ s0)))).
  destruct (apply_filter_ok s1 p' Hbase) as (child & Hchild & Hpar & Hev & _);
    [exact Hp|by apply Hm0|].
  exists child. split.
  { unfold __init__, bind. rewrite Hs0. unfold modify, lift.
    rewrite Hcfg1, Hf. fold filtering'. rewrite Hcfg2. exact Hchild. }
  split; [done|].
  assert (_events child
          = <["index" := NdArray (arange 1 (sum_bool (ds_filter p') + 1))]> ∅) as Hevents
    by (by rewrite Hev).
  split.
  - eexists. split; [|split].
    + unfold __getitem__. by rewrite Hevents, lookup_insert_eq.
    + unfold arange. do 2 f_equal. lia.
    + apply length_arange, sum_bool_nonneg.
  - intros key a Hkey Hget Hlen. unfold __getitem__.
    rewrite Hevents, lookup_insert_ne, lookup_empty by done.
    rewrite Hpar, Hget. unfold bool_index. by rewrite decide_True.
Qed.

End Facts.

Lemma inherited_item_witness :
  __getitem__ Fixture.child_evens "contour"
    = inl (NotImplementedError "Hierarchy does not implement contour") ∧
  __getitem__ Fixture.child_evens "area"
    = inr (NdArray (Int <$> [10; 12; 14; 16; 18])).
Proof.
  destruct (inherited_item Fixture.child_evens "contour") as [Hother _];
    [reflexivity|reflexivity|].
  destruct (inherited_item Fixture.child_evens "area") as [_ Harray];
    [reflexivity|reflexivity|].
  split.
  - apply (Hother "ContourColumn"). reflexivity.
  - destruct (Harray (Int <$> [10; 11; 12; 13; 14; 15; 16; 17; 18; 19]))
      as [_ Hget]; [reflexivity|].
    apply Hget. reflexivity.
Defined.

Lemma fixture_init_filters_keeps_manual : init_filters_keeps_manual Fixture.base.
Proof. intros self. eexists. split; [reflexivity|]. by destruct self. Qed.

Lemma fixture_base_manages_filters : base_manages_filters Fixture.base.
Proof.
  repeat split; intros self; eexists; (split; [reflexivity|]); by destruct self.
Qed.




Lemma fixture_built_complete : complete Fixture.built.
Proof.
  split; [|split]; apply (bool_decide_unpack _); vm_compute; exact I.
Qed.

Lemma construction_applies_filter_witness :
  ∃ child,
    __init__ Fixture.uid Fixture.default Fixture.base Fixture.parent_three
      = Ok tt child ∧
    __getitem__ child "index" = inr (NdArray [Int 1; Int 2; Int 3]).
Proof.
  destruct (construction_applies_filter Fixture.base Fixture.uid Fixture.default
              Fixture.parent_three (Fixture.dd_resolve Fixture.parent_three))
    as (child & Hchild & _ & (index & Hindex & -> & _) & _);
    [apply fixture_base_manages_filters|apply fixture_built_complete|reflexivity|].
  exists child. split; [exact Hchild|]. rewrite Hindex. reflexivity.
Defined.

End HierarchyProps.
(** ** The container writer *)

Module WriterProps.
Import Config Np H5 Writer WriterSteps.

Section Facts.

Variable config_keys : gmap string (list string).
Variable config_types : gmap string (gmap string (cfgval → exn + cfgval)).
Variable feature_names : list string.
Variable FLUOR_TRACES : list string.
Variable version : string.

Lemma for_each_is_check {S A} (l : list A) (body : A → M S unit) :
  (∀ x, is_check (body x)) → is_check (for_each l body).
Proof.
  intros Hbody. induction l as [|x l IH]; intros s; simpl; [by left|].
  unfold bind. destruct (Hbody x s) as [->|[msg ->]]; [apply IH|eauto].
Qed.

Lemma when_raise_is_check {S} (cond : bool) msg :
  is_check (S := S) (when cond (raise (ValueError msg))).
Proof. intros s. destruct cond; simpl; [right; by exists msg|by left]. Qed.

Lemma check_meta_section {S} (sec : string) (keys : list (string * cfgval)) :
  is_check (S := S)
    match config_keys !! sec with
    | None => raise (ValueError ("Meta data section not defined in dclab: " +:+ sec))
    | Some known =>
        for_each keys (λ '(ck, _),
          when (negb (bool_decide (ck ∈ known)))
               (raise (ValueError ("Meta key not defined in dclab: " +:+ sec +:+ ":" +:+ ck))))
    end.
Proof.
  destruct (config_keys !! sec) as [known|].
  - apply for_each_is_check. intros [ck v]. apply when_raise_is_check.
  - intros s. right. by eexists.
Qed.

Lemma check_meta_is_check {S} meta : is_check (S := S) (check_meta config_keys meta).
Proof.
  apply for_each_is_check. intros [sec keys]. apply check_meta_section.
Qed.

(** [check_meta] lets no unknown section through. *)
Lemma check_meta_unknown {S} meta sec keys (s : S) :
  (sec, keys) ∈ meta → config_keys !! sec = None →
  ∃ msg, check_meta config_keys meta s = Raise (ValueError msg) s.
Proof.
  intros Hin Hsec. unfold check_meta.
  induction meta as [|[sec' keys'] meta IH]; [by apply elem_of_nil in Hin|].
  simpl. unfold bind.
  apply elem_of_cons in Hin as [[= <- <-]|Hin].
  - rewrite Hsec. by eexists.
  - destruct (check_meta_section sec' keys' s) as [->|[msg ->]]; [by apply IH|eauto].
Qed.

Local Abbreviation write' := (write config_keys config_types feature_names FLUOR_TRACES version).

(** C2. A call of [write] whose [meta] names a section that is not in
    [dfn.config_keys] raises a [ValueError] and leaves the file system as
    it was: a target path that did not exist still does not exist, and an
    existing file is unmodified. *)
Theorem write_rejects_unknown_section
    (path_or_h5file : target) (data : pyarg) (meta : source)
    (logs : list (string * logdata)) (mode : string) (fs : gmap string file)
    (sec : string) (keys : list (string * cfgval)) :
  (sec, keys) ∈ meta → config_keys !! sec = None →
  ∃ msg, write' path_or_h5file data meta logs mode fs = Raise (ValueError msg) fs.
Proof.
  intros Hin Hsec. unfold write, bind.
  destruct (bool_decide (mode ∈ ["append"; "replace"; "reset"])); simpl; [|eauto].
  destruct data as [items|]; simpl; [|eauto].
  destruct (check_meta_unknown meta sec keys fs Hin Hsec) as [msg ->]. eauto.
Qed.

Lemma append_rows_spec data dset :
  append_rows data dset
  = inr {| values := (values dset ++ data)%list; dattrs := dattrs dset |}.
Proof.
  unfold append_rows, assign_from, resize. simpl.
  rewrite decide_True.
  - do 2 f_equal. rewrite take_app_le by (rewrite length_take; lia).
    rewrite take_take, take_ge by lia. f_equal.
  - rewrite length_app, length_take, length_replicate. lia.
Qed.

(** [store_scalar] on a group without the feature creates it. *)
Lemma store_scalar_new name a (g : gmap string node) :
  g !! name = None →
  store_scalar name (Array a) g
  = Ok tt (<[name := Dataset {| values := a; dattrs := ∅ |}]> g).
Proof.
  intros Hn. unfold store_scalar, bind, lift, get, create_dataset, bind, get.
  by rewrite !Hn.
Qed.

(** [store_scalar] on a group that has the feature appends to it. *)
Lemma store_scalar_append name a (g : gmap string node) dset :
  g !! name = Some (Dataset dset) →
  store_scalar name (Array a) g
  = Ok tt (<[name := Dataset {| values := (values dset ++ a)%list;
                                dattrs := dattrs dset |}]> g).
Proof.
  intros Hn. unfold store_scalar, bind, lift, get. rewrite Hn.
  by rewrite append_rows_spec.
Qed.

Lemma check_features_scalar {S} feat value (s : S) :
  feat ∈ feature_names → feat ≠ "trace" →
  check_features feature_names FLUOR_TRACES [(feat, value)] s = Ok [feat] s.
Proof.
  intros Hin Hne. unfold check_features, bind. simpl. unfold bind.
  rewrite bool_decide_eq_true_2 by (apply elem_of_app; by left). simpl.
  by rewrite bool_decide_eq_false_2.
Qed.

Lemma require_group_spec name (f : file) :
  require_group name f
  = Ok tt (set_groups (<[name := default ∅ (groups f !! name)]> (groups f)) f).
Proof.
  unfold require_group, bind, get, when, modify.
  destruct (bool_decide (is_Some (groups f !! name))) eqn:Hb; simpl.
  - apply bool_decide_eq_true in Hb as [g Hg]. rewrite Hg. simpl. unfold ret.
    rewrite insert_id by done. by destruct f.
  - apply bool_decide_eq_false in Hb. apply eq_None_not_Some in Hb.
    by rewrite Hb.
Qed.

Lemma data_getitem_head fk value rest :
  data_getitem ((fk, value) :: rest) fk = inr value.
Proof. unfold data_getitem. simpl. by rewrite decide_True. Qed.

(** What one [write] of a scalar feature in append mode does to the open
    file, without metadata and logs. *)
Lemma append_scalar_file feat a (f : file) :
  feat ∈ feature_names →
  (write_meta config_types version [] ;;;
   write_data feature_names [(feat, Array a)] [feat] "append" ;;;
   write_logs [] "append") f
  = let f1 := set_attrs (<["setup:software version" := CStr ("dclab " +:+ version)]> (attrs f)) f in
    let ev := default ∅ (groups f1 !! "events") in
    let g1 := <["events" := ev]> (groups f1) in
    match store_scalar feat (Array a) ev with
    | Ok _ ev' =>
        let g2 := <["events" := ev']> g1 in
        Ok tt (set_groups (<["logs" := default ∅ (g2 !! "logs")]> g2) f1)
    | Raise e ev' => Raise e (set_groups (<["events" := ev']> g1) f1)
    end.
Proof.
  intros Hin. unfold write_meta, write_data, write_logs, bind. simpl.
  rewrite require_group_spec. rewrite bool_decide_eq_true_2 by done.
  unfold bind. rewrite data_getitem_head. simpl.
  unfold on_group. simpl. rewrite lookup_insert_eq.
  destruct (store_scalar feat (Array a) (default ∅ (groups f !! "events")))
    as [[] ev'|e ev']; simpl; [|done].
  by rewrite require_group_spec.
Qed.

Lemma open_file_append p (fs : gmap string file) :
  open_file p "a" fs = Ok tt (<[p := default empty_file (fs !! p)]> fs).
Proof.
  unfold open_file, bind, get, when, modify. simpl.
  destruct (bool_decide (is_Some (fs !! p))) eqn:Hb; simpl.
  - apply bool_decide_eq_true in Hb as [f Hf]. rewrite Hf. simpl. unfold ret.
    by rewrite insert_id.
  - apply bool_decide_eq_false in Hb. apply eq_None_not_Some in Hb.
    by rewrite Hb.
Qed.

(** A [write] of one scalar feature in append mode, without metadata and
    logs, on the file [f] the target stands for. *)
Lemma write_append_scalar tgt p feat a (fs : gmap string file) (f : file) :
  feat ∈ feature_names → feat ≠ "trace" →
  (tgt = H5File p ∧ fs !! p = Some f) ∨
  (tgt = Path p ∧ f = default empty_file (fs !! p)) →
  write' tgt (DictLike [(feat, Array a)]) [] [] "append" fs
  = match (write_meta config_types version [] ;;;
           write_data feature_names [(feat, Array a)] [feat] "append" ;;;
           write_logs [] "append") f with
    | Ok _ f' => Ok (Some (H5File p)) (<[p := f']> fs)
    | Raise e f' => Raise e (<[p := f']> fs)
    end.
Proof.
  intros Hin Hne Htgt. unfold write. unfold bind at 1. simpl.
  unfold bind at 1. simpl. unfold bind at 1. simpl.
  unfold bind at 1. rewrite check_features_scalar by done.
  destruct Htgt as [[-> Hf]|[-> ->]].
  - unfold bind at 1. simpl. unfold bind at 1. unfold on_file. rewrite Hf.
    by destruct (bind _ _ f) as [[] f'|e f'].
  - unfold bind at 1. unfold bind at 1. rewrite open_file_append. simpl.
    unfold bind at 1. unfold on_file. rewrite lookup_insert_eq.
    destruct (bind _ _ (default empty_file (fs !! p))) as [[] f'|e f']; simpl;
      by rewrite insert_insert_eq.
Qed.


(** *** Replace mode *)

Lemma check_meta_accepted {S} meta (s : S) :
  meta_accepted config_keys config_types meta →
  check_meta config_keys meta s = Ok tt s.
Proof.
  unfold check_meta. induction meta as [|[sec keys] meta IH]; intros Hacc; [done|].
  simpl. unfold bind.
  destruct (Hacc sec keys) as (known & types & Hk & _ & Hkeys); [by left|].
  rewrite Hk.
  assert (for_each keys (λ '(ck, _),
            when (negb (bool_decide (ck ∈ known)))
              (raise (ValueError ("Meta key not defined in dclab: " +:+ sec +:+ ":" +:+ ck)))) s
          = Ok tt s) as ->.
  { clear -Hkeys. induction keys as [|[ck v] keys IHk]; [done|]. simpl. unfold bind.
    destruct (Hkeys ck v) as [Hck _]; [by left|].
    rewrite bool_decide_eq_true_2 by done. simpl.
    apply IHk. intros ck' v' Hin. apply Hkeys. by right. }
  apply IH. intros sec' keys' Hin. apply Hacc. by right.
Qed.

(** A loop keeps what each run of its body keeps, whatever the
    outcome. *)
Lemma for_each_keeps {S A} (R : S → S → Prop) (l : list A) (body : A → M S unit) s :
  (∀ s, R s s) → (∀ s1 s2 s3, R s1 s2 → R s2 s3 → R s1 s3) →
  (∀ x s, R s (state_after (body x s))) →
  R s (state_after (for_each l body s)).
Proof.
  intros Hrefl Htrans Hbody. revert s.
  induction l as [|x l IH]; intros s; simpl; [done|].
  unfold bind. specialize (Hbody x s).
  destruct (body x s) as [[] s1|e s1]; simpl in *; [|done].
  eapply Htrans; [done|apply IH].
Qed.

(** A loop returns when its body returns on every element. *)
Lemma for_each_returns {S A} (l : list A) (body : A → M S unit) s :
  (∀ x s, x ∈ l → raised (body x s) = None) →
  raised (for_each l body s) = None.
Proof.
  revert s. induction l as [|x l IH]; intros s Hbody; simpl; [done|].
  unfold bind. pose proof (Hbody x s (list_elem_of_here _ _)) as Hx.
  destruct (body x s) as [[] s1|e s1]; simpl in *; [|done].
  apply IH. intros y s' Hy. apply Hbody. by right.
Qed.

Lemma write_meta_attrs meta :
  write_meta config_types version meta
  = (for_each meta (λ '(sec, keys), for_each keys (write_attr config_types sec)) ;;;
     modify (λ f, set_attrs (<["setup:software version" := CStr ("dclab " +:+ version)]> (attrs f)) f)).
Proof.
  reflexivity.
Qed.

(** [write_meta] touches the attributes only, whatever its outcome. *)
Lemma write_meta_groups meta (f : file) :
  groups (state_after (write_meta config_types version meta f)) = groups f.
Proof.
  rewrite write_meta_attrs. unfold bind.
  pose proof (for_each_keeps (λ f f' : file, groups f' = groups f) meta
    (λ '(sec, keys), for_each keys (write_attr config_types sec)) f) as Hloop.
  destruct (for_each meta _ f) as [[] f1|e f1]; simpl in *; apply Hloop;
    try done; try (intros; congruence).
  all: intros [sec keys] f0;
    apply (for_each_keeps (λ f f' : file, groups f' = groups f));
    [done|intros; congruence|];
    intros [ck v] f2; unfold write_attr, bind, lift, modify;
    destruct (config_types !! sec) as [types|]; [|done];
    destruct (types !! ck) as [conftype|]; [|done];
    by destruct (conftype v).
Qed.

Lemma write_meta_accepted meta (f : file) :
  meta_accepted config_keys config_types meta →
  raised (write_meta config_types version meta f) = None.
Proof.
  intros Hacc. rewrite write_meta_attrs. unfold bind.
  pose proof (for_each_returns meta (λ '(sec, keys), for_each keys (write_attr config_types sec)) f)
    as Hloop.
  destruct (for_each meta _ f) as [[] f1|e f1]; simpl in *; [done|].
  apply Hloop. intros [sec keys] f0 Hin.
  destruct (Hacc sec keys Hin) as (known & types & _ & Ht & Hkeys).
  apply for_each_returns. intros [ck v] f2 Hck.
  destruct (Hkeys ck v Hck) as (_ & conftype & converted & Hc & Hv).
  unfold write_attr, bind, lift, modify. by rewrite Ht, Hc, Hv.
Qed.

Lemma set_groups_same (f : file) name g :
  groups f !! name = Some g → set_groups (<[name := g]> (groups f)) f = f.
Proof. intros Hg. rewrite insert_id by done. by destruct f. Qed.

(** A loop of method calls on one group is the loop on the group. *)
Lemma on_group_for_each {A} name (l : list A) (body : A → M (gmap string node) unit)
    (f : file) g :
  groups f !! name = Some g →
  for_each l (λ x, on_group name (body x)) f
  = match for_each l body g with
    | Ok _ g' => Ok tt (set_groups (<[name := g']> (groups f)) f)
    | Raise e g' => Raise e (set_groups (<[name := g']> (groups f)) f)
    end.
Proof.
  revert f g. induction l as [|x l IH]; intros f g Hg; simpl.
  - unfold ret. by rewrite set_groups_same.
  - unfold bind, on_group. rewrite Hg.
    destruct (body x g) as [[] g1|e g1]; [|done].
    rewrite (IH _ g1) by apply lookup_insert_eq. simpl.
    destruct (for_each l body g1) as [[] g2|e g2]; by rewrite insert_insert_eq.
Qed.

(** Assigning the lines of a log one by one. *)
Lemma log_lines_ok lkey (oldsize : nat) (lines : list (nat * string))
    (lg : gmap string node) d :
  lg !! lkey = Some (Dataset d) →
  ∃ lg' d',
    for_each lines (λ '(ii, line),
      log_group <- get ;;
      match log_group !! lkey with
      | Some (Dataset log_dset) =>
          modify (<[lkey := Dataset {| values := <[(oldsize + ii)%nat := Str line]> (values log_dset);
                                       dattrs := dattrs log_dset |}]>)
      | _ => raise (KeyError lkey)
      end) lg = Ok tt lg' ∧
    lg' !! lkey = Some (Dataset d') ∧
    ∀ k, k ≠ lkey → lg' !! k = lg !! k.
Proof.
  revert lg d. induction lines as [|[ii line] lines IH]; intros lg d Hd; simpl.
  - by exists lg, d.
  - unfold bind at 1. unfold bind at 1. unfold get at 1. rewrite Hd.
    unfold modify at 1.
    edestruct (IH (<[lkey := Dataset {| values := <[(oldsize + ii)%nat := Str line]> (values d);
                                        dattrs := dattrs d |}]> lg))
      as (lg' & d' & -> & Hd' & Hframe); [apply lookup_insert_eq|].
    exists lg', d'. split; [done|]. split; [done|].
    intros k Hk. rewrite Hframe by done. by rewrite lookup_insert_ne.
Qed.

(** [store_log] on a name that is free or names a dataset returns, and
    touches that name only. *)
Lemma store_log_ok lkey ldata (lg : gmap string node) :
  lg !! lkey = None ∨ (∃ d, lg !! lkey = Some (Dataset d)) →
  ∃ lg' d',
    store_log lkey ldata lg = Ok tt lg' ∧
    lg' !! lkey = Some (Dataset d') ∧
    ∀ k, k ≠ lkey → lg' !! k = lg !! k.
Proof.
  intros Hk. unfold store_log. unfold bind at 1. unfold get at 1.
  destruct Hk as [Hnone|[d Hd]].
  - rewrite Hnone. unfold bind at 1, create_dataset, bind at 1, get at 1.
    rewrite Hnone. unfold modify at 1.
    edestruct (log_lines_ok lkey 0) as (lg' & d' & Hloop & Hd' & Hframe);
      [apply lookup_insert_eq|].
    exists lg', d'. split; [exact Hloop|]. split; [done|].
    intros k Hne. rewrite Hframe by done. by rewrite lookup_insert_ne.
  - rewrite Hd. unfold bind at 1, modify at 1.
    edestruct (log_lines_ok lkey (length (values d))) as (lg' & d' & Hloop & Hd' & Hframe);
      [apply lookup_insert_eq|].
    exists lg', d'. split; [exact Hloop|]. split; [done|].
    intros k Hne. rewrite Hframe by done. by rewrite lookup_insert_ne.
Qed.

(** The logs of a call in replace mode, on the [logs] group: every named
    log is deleted, then stored; this returns, and touches named logs
    only. *)
Lemma replace_logs_group (logs : list (string * logdata)) (lg : gmap string node) :
  ∃ lg1 lg2,
    for_each logs (λ '(rl, _), modify (delete rl)) lg = Ok tt lg1 ∧
    for_each logs (λ '(lkey, ldata), store_log lkey ldata) lg1 = Ok tt lg2 ∧
    ∀ k, k ∉ (fst <$> logs) → lg2 !! k = lg !! k.
Proof.
  assert (∀ (seen rest : list (string * logdata)) (lg : gmap string node),
    (∀ k, k ∈ (fst <$> seen) → lg !! k = None) →
    ∃ lg1, for_each rest (λ '(rl, _), modify (delete rl)) lg = Ok tt lg1 ∧
           (∀ k, k ∈ (fst <$> (seen ++ rest)%list) → lg1 !! k = None) ∧
           (∀ k, k ∉ (fst <$> rest) → lg1 !! k = lg !! k)) as Hdel.
  { intros seen rest. revert seen. induction rest as [|[rl ld] rest IH];
      intros seen lg0 Hseen; simpl.
    - exists lg0. rewrite app_nil_r. done.
    - unfold bind at 1, modify at 1.
      destruct (IH (seen ++ [(rl, ld)])%list (delete rl lg0)) as (lg1 & -> & Hnone & Hframe).
      { intros k. rewrite fmap_app, elem_of_app. intros [Hk|Hk].
        - destruct (decide (k = rl)) as [->|Hne]; [apply lookup_delete_eq|].
          rewrite lookup_delete_ne by done. by apply Hseen.
        - apply list_elem_of_singleton in Hk as ->. apply lookup_delete_eq. }
      exists lg1. split; [done|]. split.
      + intros k Hk. apply Hnone. by rewrite <-app_assoc.
      + intros k Hk. rewrite not_elem_of_cons in Hk. destruct Hk as [Hne Hk].
        rewrite Hframe by done. by rewrite lookup_delete_ne. }
  assert (∀ (rest : list (string * logdata)) (lg : gmap string node),
    (∀ k, k ∈ (fst <$> rest) → lg !! k = None ∨ ∃ d, lg !! k = Some (Dataset d)) →
    ∃ lg2, for_each rest (λ '(lkey, ldata), store_log lkey ldata) lg = Ok tt lg2 ∧
           (∀ k, k ∉ (fst <$> rest) → lg2 !! k = lg !! k)) as Hstore.
  { induction rest as [|[lkey ld] rest IH]; intros lg0 Hinv; simpl.
    - by exists lg0.
    - unfold bind.
      destruct (store_log_ok lkey ld lg0) as (lg' & d' & -> & Hd' & Hframe);
        [apply Hinv; by left|].
      destruct (IH lg') as (lg2 & -> & Hframe2).
      { intros k Hk. destruct (decide (k = lkey)) as [->|Hne]; [eauto|].
        rewrite Hframe by done. apply Hinv. by right. }
      exists lg2. split; [done|].
      intros k Hk. rewrite not_elem_of_cons in Hk. destruct Hk as [Hne Hk].
      rewrite Hframe2 by done. by apply Hframe. }
  destruct (Hdel [] logs lg) as (lg1 & Hd1 & Hnone & Hf1); [by intros k ?%elem_of_nil|].
  destruct (Hstore logs lg1) as (lg2 & Hs2 & Hf2).
  { intros k Hk. left. by apply Hnone. }
  exists lg1, lg2. split; [done|]. split; [done|].
  intros k Hk. by rewrite Hf2, Hf1.
Qed.

Lemma write_logs_replace (logs : list (string * logdata)) (f : file) :
  ∃ lg,
    write_logs logs "replace" f = Ok tt (set_groups (<["logs" := lg]> (groups f)) f) ∧
    ∀ k, k ∉ (fst <$> logs) → lg !! k = default ∅ (groups f !! "logs") !! k.
Proof.
  destruct (replace_logs_group logs (default ∅ (groups f !! "logs")))
    as (lg1 & lg2 & Hdel & Hstore & Hframe).
  exists lg2. split; [|done].
  unfold write_logs. unfold bind at 1. rewrite require_group_spec.
  unfold bind at 1. simpl.
  rewrite (ConfigProps.for_each_ext logs _
             (λ x, on_group "logs" ((λ '(rl, _), modify (delete rl)) x)))
    by (by intros [rl ld] ?).
  rewrite (on_group_for_each "logs" logs _ _ (default ∅ (groups f !! "logs")))
    by apply lookup_insert_eq.
  rewrite Hdel.
  rewrite (ConfigProps.for_each_ext logs _
             (λ x, on_group "logs" ((λ '(lkey, ldata), store_log lkey ldata) x)))
    by (by intros [lkey ld] ?).
  rewrite (on_group_for_each "logs" logs _ _ lg1) by apply lookup_insert_eq.
  rewrite Hstore. simpl. by rewrite !insert_insert_eq.
Qed.

Lemma write_data_replace_area xs (f : file) events :
  "area" ∈ feature_names →
  groups f !! "events" = Some events →
  write_data feature_names [("area", Array xs)] ["area"] "replace" f
  = Ok tt (set_groups
             (<["events" := <["area" := Dataset {| values := xs; dattrs := ∅ |}]>
                              (delete "area" events)]> (groups f)) f).
Proof.
  intros Hin Hev. unfold write_data. unfold bind at 1. rewrite require_group_spec.
  rewrite Hev. simpl. rewrite set_groups_same by done.
  unfold bind at 1. simpl. unfold bind at 1. unfold on_group at 1. rewrite Hev.
  unfold modify at 1. unfold ret at 1.
  unfold bind at 1. rewrite bool_decide_eq_true_2 by done.
  unfold bind at 1. rewrite data_getitem_head. simpl.
  unfold on_group. simpl. rewrite lookup_insert_eq.
  rewrite store_scalar_new by apply lookup_delete_eq.
  unfold ret. simpl. by rewrite insert_insert_eq.
Qed.

(** C6. On a file whose [events] group holds [area] and [deform], a call
    in replace mode with [area] alone in [data] leaves every other member
    of [events] ([deform] among them), every log the call does not name and
    every other group as it was, whatever the outcome of the call; and when
    the metadata is accepted the call returns [None] with [area] holding
    exactly the new values. *)
Theorem replace_only_named
    (path_or_h5file : target) (p : string) (fs : gmap string file) (f : file)
    (events : gmap string node) (xs : list item) (meta : source)
    (logs : list (string * logdata)) :
  "area" ∈ feature_names →
  path_or_h5file = Path p ∨ path_or_h5file = H5File p →
  fs !! p = Some f →
  groups f !! "events" = Some events →
  is_Some (events !! "area") → is_Some (events !! "deform") →
  ∃ f',
    state_after (write' path_or_h5file (DictLike [("area", Array xs)]) meta logs "replace" fs)
      = <[p := f']> fs ∧
    member f' "events" "deform" = member f "events" "deform" ∧
    (∀ k, k ≠ "area" → member f' "events" k = member f "events" k) ∧
    (∀ l, l ∉ (fst <$> logs) → member f' "logs" l = member f "logs" l) ∧
    (∀ g, g ≠ "events" → g ≠ "logs" → groups f' !! g = groups f !! g) ∧
    (meta_accepted config_keys config_types meta →
     write' path_or_h5file (DictLike [("area", Array xs)]) meta logs "replace" fs
       = Ok None (<[p := f']> fs) ∧
     member f' "events" "area" = Some (Dataset {| values := xs; dattrs := ∅ |})).
Proof.
  intros Hin Htgt Hf Hev _ _.
  remember (write' path_or_h5file (DictLike [("area", Array xs)]) meta logs "replace" fs)
    as r eqn:Hr.
  unfold write in Hr. unfold bind at 1 in Hr. simpl in Hr.
  unfold bind at 1 in Hr. simpl in Hr. unfold bind at 1 in Hr.
  destruct (check_meta_is_check meta fs) as [Hmeta|[msg Hmeta]]; rewrite Hmeta in Hr.
  2:{ exists f. subst r. simpl. rewrite insert_id by done. repeat split; try done.
      all: by rewrite check_meta_accepted in Hmeta. }
  unfold bind at 1 in Hr. rewrite check_features_scalar in Hr by done.
  assert (∀ (fs0 : gmap string file) r0,
    fs0 = fs ∨ fs0 = <[p := f]> fs →
    r0 = bind (on_file p
          (write_meta config_types version meta ;;;
           write_data feature_names [("area", Array xs)] ["area"] "replace" ;;;
           write_logs logs "replace"))
        (λ _, ret (None : option target)) fs0 →
    ∃ f',
      state_after r0 = <[p := f']> fs ∧
      member f' "events" "deform" = member f "events" "deform" ∧
      (∀ k, k ≠ "area" → member f' "events" k = member f "events" k) ∧
      (∀ l, l ∉ (fst <$> logs) → member f' "logs" l = member f "logs" l) ∧
      (∀ g, g ≠ "events" → g ≠ "logs" → groups f' !! g = groups f !! g) ∧
      (meta_accepted config_keys config_types meta →
       r0 = Ok None (<[p := f']> fs) ∧
       member f' "events" "area" = Some (Dataset {| values := xs; dattrs := ∅ |})))
    as Hfile.
  { intros fs0 r0 Hfs0 Hr0.
    assert (fs0 !! p = Some f) as Hf0.
    { destruct Hfs0 as [->| ->]; [done|apply lookup_insert_eq]. }
    assert (∀ f', <[p := f']> fs0 = <[p := f']> fs) as Hins.
    { intros f'. destruct Hfs0 as [->| ->]; [done|apply insert_insert_eq]. }
    unfold bind at 1 in Hr0. unfold on_file in Hr0. rewrite Hf0 in Hr0.
    unfold bind at 1 in Hr0.
    pose proof (write_meta_groups meta f) as Hgroups.
    pose proof (write_meta_accepted meta f) as Hreturns.
    destruct (write_meta config_types version meta f) as [[] f1|e f1]; simpl in *.
    2:{ exists f1. subst r0. simpl. rewrite Hins. unfold member. rewrite Hgroups.
        repeat split; try done.
        all: match goal with Hacc : meta_accepted _ _ _ |- _ =>
               by specialize (Hreturns Hacc) end. }
    unfold bind at 1 in Hr0.
    rewrite (write_data_replace_area xs f1 events) in Hr0 by (by rewrite ?Hgroups).
    destruct (write_logs_replace logs
                (set_groups (<["events" := <["area" := Dataset {| values := xs; dattrs := ∅ |}]>
                                             (delete "area" events)]> (groups f1)) f1))
      as (lg & Hlogs & Hlg).
    rewrite Hlogs in Hr0. simpl in Hr0. rewrite Hins in Hr0. subst r0.
    eexists. split; [reflexivity|].
    unfold member. simpl. rewrite Hgroups.
    rewrite !lookup_insert_ne, !lookup_insert_eq, Hev by done. simpl.
    repeat split.
    - by rewrite lookup_insert_ne, lookup_delete_ne.
    - intros k Hk. by rewrite lookup_insert_ne, lookup_delete_ne.
    - intros l Hl. rewrite Hlg by done. simpl. rewrite lookup_insert_ne by done.
      rewrite Hgroups. by destruct (groups f !! "logs").
    - intros g Hg1 Hg2. by rewrite !lookup_insert_ne.
    - apply lookup_insert_eq. }
  destruct Htgt as [-> | ->].
  - unfold bind at 1 in Hr. unfold bind at 1 in Hr. simpl in Hr.
    rewrite open_file_append, Hf in Hr. simpl in Hr.
    apply (Hfile (<[p := f]> fs) r); [by right|].
    rewrite Hr. apply ConfigProps.bind_ext. intros [] fs1.
    by replace (bool_decide ("replace" = "append")) with false by done.
  - unfold bind at 1 in Hr. simpl in Hr.
    apply (Hfile fs r); [by left|].
    rewrite Hr. apply ConfigProps.bind_ext. intros [] fs1.
    by replace (bool_decide ("replace" = "append")) with false by done.
Qed.

End Facts.

Lemma write_rejects_unknown_section_witness :
  ∃ msg,
    write Fixture.config_keys Fixture.config_types Fixture.feature_names
      Fixture.FLUOR_TRACES Fixture.version
      (Path "out.rtdc") (DictLike [("area", Array [Int 1])])
      [("setup", [("channel width", CFloat 20)]); ("online filter", [])] [] "reset" ∅
    = Raise (ValueError msg) ∅.
Proof.
  apply (write_rejects_unknown_section Fixture.config_keys Fixture.config_types
           Fixture.feature_names Fixture.FLUOR_TRACES Fixture.version
           _ _ _ _ _ _ "online filter" []).
  - apply list_elem_of_further, list_elem_of_here.
  - reflexivity.
Defined.


Lemma replace_only_named_witness :
  ∃ f',
    write Fixture.config_keys Fixture.config_types Fixture.feature_names
      Fixture.FLUOR_TRACES Fixture.version
      (Path "m.rtdc") (DictLike [("area", Array (Int <$> [51; 61; 71; 81]))])
      [("setup", [("flow rate", CFloat 0.04)])] [("dclab", Lines ["replaced area"])]
      "replace" {[ "m.rtdc" := Fixture.rtdc_file ]}
      = Ok None (<["m.rtdc" := f']> {[ "m.rtdc" := Fixture.rtdc_file ]}) ∧
    member f' "events" "area"
      = Some (Dataset {| values := Int <$> [51; 61; 71; 81]; dattrs := ∅ |}) ∧
    member f' "events" "deform" = member Fixture.rtdc_file "events" "deform" ∧
    member f' "logs" "setup" = member Fixture.rtdc_file "logs" "setup".
Proof.
  edestruct (replace_only_named Fixture.config_keys Fixture.config_types
               Fixture.feature_names Fixture.FLUOR_TRACES Fixture.version
               (Path "m.rtdc") "m.rtdc" {[ "m.rtdc" := Fixture.rtdc_file ]}
               Fixture.rtdc_file Fixture.rtdc_events (Int <$> [51; 61; 71; 81])
               [("setup", [("flow rate", CFloat 0.04)])]
               [("dclab", Lines ["replaced area"])])
    as (f' & _ & Hdeform & _ & Hlogs & _ & Hok).
  - apply list_elem_of_here.
  - by left.
  - reflexivity.
  - reflexivity.
  - apply (bool_decide_unpack _). vm_compute. exact I.
  - apply (bool_decide_unpack _). vm_compute. exact I.
  - exists f'. destruct Hok as [Hret Harea].
    + intros sec keys Hin. apply list_elem_of_singleton in Hin.
      injection Hin as -> ->.
      exists ["channel width"; "flow rate"],
        {[ "channel width" := Fixture.as_is; "flow rate" := Fixture.as_is ]}.
      split; [reflexivity|]. split; [reflexivity|].
      intros ck value Hck. apply list_elem_of_singleton in Hck.
      injection Hck as -> ->.
      split; [apply list_elem_of_further, list_elem_of_here|].
      exists Fixture.as_is, (CFloat 0.04). split; reflexivity.
    + split; [exact Hret|]. split; [exact Harea|]. split; [exact Hdeform|].
      apply Hlogs. intros Hin. apply list_elem_of_singleton in Hin. discriminate.
Defined.

End WriterProps.
(** * Part III: further properties of the code *)

(** ** The runtime *)

Module PyFacts.

Lemma for_each_app {S A} (l1 l2 : list A) (body : A → M S unit) s :
  for_each (l1 ++ l2)%list body s = bind (for_each l1 body) (λ _, for_each l2 body) s.
Proof.
  revert s. induction l1 as [|x l1 IH]; intros s; [done|].
  cbn [app for_each]. unfold bind in IH |- *.
  destruct (body x s); [apply IH|done].
Qed.

(** A loop that ran to its end ran the body on each element, at some
    state between the first and the last; the relation need only hold
    for the steps on elements of the list. *)
Lemma for_each_ok_in {S A} (R : S → S → Prop) (l : list A) (body : A → M S unit) s s' :
  (∀ s, R s s) → (∀ s1 s2 s3, R s1 s2 → R s2 s3 → R s1 s3) →
  (∀ x s1 s2, x ∈ l → body x s1 = Ok tt s2 → R s1 s2) →
  for_each l body s = Ok tt s' →
  R s s' ∧ ∀ x, x ∈ l → ∃ s1 s2, R s s1 ∧ body x s1 = Ok tt s2 ∧ R s2 s'.
Proof.
  intros Hrefl Htrans. revert s.
  induction l as [|y l IH]; intros s Hbody; simpl.
  - intros [= <-]. split; [done|]. by intros x ?%elem_of_nil.
  - unfold bind at 1. destruct (body y s) as [[] s1|] eqn:Hy; [|done]. intros Hl.
    assert (R s s1) as Hs1 by (eapply Hbody; [by left|done]).
    destruct (IH s1) as [HR Hin]; [intros; eapply Hbody; [by right|done]|done|].
    split; [by eauto|].
    intros x [->|Hx]%elem_of_cons.
    + exists s, s1. eauto.
    + destruct (Hin x Hx) as (t1 & t2 & ? & ? & ?). exists t1, t2. eauto.
Qed.

End PyFacts.

(** ** Strings *)

Module StrFacts.
Import Config ConfigNotions PyText ConfigFile.

Lemma app_nil_r s : s +:+ "" = s.
Proof.
  induction s as [|a s IH]; [done|].
  change (String a s +:+ "") with (String a (s +:+ "")). by rewrite IH.
Qed.

Lemma app_assoc a b c : (a +:+ b) +:+ c = a +:+ (b +:+ c).
Proof.
  induction a as [|x a IH]; [done|].
  change ((String x a +:+ b) +:+ c) with (String x ((a +:+ b) +:+ c)).
  by rewrite IH.
Qed.

Lemma rev_app_acc s acc : String.rev_app s acc = String.rev s +:+ acc.
Proof.
  unfold String.rev. revert acc. induction s as [|a s IH]; intros acc; [done|].
  simpl. rewrite (IH (String a acc)), (IH (String a "")). by rewrite app_assoc.
Qed.

Lemma rev_cons a s : String.rev (String a s) = String.rev s +:+ String a "".
Proof. unfold String.rev at 1. simpl. apply rev_app_acc. Qed.

Lemma rev_app a b : String.rev (a +:+ b) = String.rev b +:+ String.rev a.
Proof.
  induction a as [|x a IH].
  - change (String.rev "") with "". by rewrite app_nil_r.
  - change (String x a +:+ b) with (String x (a +:+ b)).
    by rewrite !rev_cons, IH, app_assoc.
Qed.

Lemma rev_involutive s : String.rev (String.rev s) = s.
Proof.
  induction s as [|a s IH]; [done|]. by rewrite rev_cons, rev_app, IH.
Qed.

Lemma lstrip_kept drop a s :
  drop a = false → lstrip_by drop (String a s) = String a s.
Proof. intros Ha. simpl. by rewrite Ha. Qed.

Lemma has_char_app c a b : has_char c (a +:+ b) = has_char c a || has_char c b.
Proof.
  induction a as [|x a IH]; [done|].
  change (String x a +:+ b) with (String x (a +:+ b)). simpl.
  by rewrite IH, orb_assoc.
Qed.

Lemma split_on_none sep s :
  has_char sep s = false → split_on sep s = [s].
Proof.
  induction s as [|a s IH]; simpl; [done|].
  intros [Ha Hs]%orb_false_elim. by rewrite Ha, (IH Hs).
Qed.

Lemma lstrip_app_dropped drop t rest :
  lstrip_by drop t = "" → lstrip_by drop (t +:+ rest) = lstrip_by drop rest.
Proof.
  induction t as [|a t IH]; [done|].
  change (String a t +:+ rest) with (String a (t +:+ rest)). simpl.
  destruct (drop a); [done|]. discriminate.
Qed.

Lemma first_char_app a b : a ≠ "" → first_char (a +:+ b) = first_char a.
Proof. by destruct a. Qed.

Lemma last_char_app a b : b ≠ "" → last_char (a +:+ b) = last_char b.
Proof.
  intros Hb. unfold last_char. rewrite rev_app. apply first_char_app.
  destruct b as [|x b]; [done|]. rewrite rev_cons. by destruct (String.rev b).
Qed.

Lemma trimmed_nonempty s : trimmed s = true → s ≠ "".
Proof. by destruct s. Qed.

Lemma trimmed_app a mid b :
  trimmed a = true → trimmed b = true → trimmed (a +:+ mid +:+ b) = true.
Proof.
  intros Ha Hb. pose proof (trimmed_nonempty _ Ha). pose proof (trimmed_nonempty _ Hb).
  unfold trimmed in *. rewrite first_char_app by done.
  rewrite !last_char_app by (try done; by destruct mid).
  destruct (first_char a); [|done]. destruct (last_char a); [|done].
  destruct (first_char b); [|done]. destruct (last_char b); [|done].
  apply andb_prop in Ha as [-> _]. by apply andb_prop in Hb as [_ ->].
Qed.

(** [strip] returns a trimmed text as it is, whatever whitespace
    follows it. *)
Lemma strip_trimmed t tail :
  trimmed t = true → lstrip_by is_space tail = "" → strip (t +:+ tail) = t.
Proof.
  intros Ht Htail. unfold strip, strip_by, trimmed, last_char, first_char in *.
  destruct t as [|a t]; [done|]. simpl in Ht.
  destruct (String.rev (String a t)) as [|b r] eqn:Hrev; [done|]. simpl in Ht.
  apply andb_prop in Ht as [Ha%negb_true_iff Hb%negb_true_iff].
  change (String a t +:+ tail) with (String a (t +:+ tail)).
  rewrite (lstrip_kept _ _ _ Ha).
  change (String a (t +:+ tail)) with (String a t +:+ tail).
  rewrite rev_app, lstrip_app_dropped.
  - rewrite Hrev, (lstrip_kept _ _ _ Hb), <- Hrev. apply rev_involutive.
  - clear -Htail. induction tail as [|c tail IH]; [done|].
    simpl in Htail. destruct (is_space c) eqn:Hc; [|done].
    rewrite rev_cons, lstrip_app_dropped by auto. simpl. by rewrite Hc.
Qed.

Lemma content_trimmed t tail :
  trimmed t = true → has_char "#" t = false →
  lstrip_by is_space tail = "" → has_char "#" tail = false →
  content (t +:+ tail) = lower t.
Proof.
  intros Ht Hh Htail Hh'. unfold content.
  rewrite split_on_none by (by rewrite has_char_app, Hh, Hh'). simpl.
  by rewrite strip_trimmed.
Qed.

Lemma substring_prefix a b : String.substring 0 (String.length a) (a +:+ b) = a.
Proof.
  induction a as [|x a IH]; [by destruct b|].
  change (String x a +:+ b) with (String x (a +:+ b)). simpl. by rewrite IH.
Qed.

Lemma length_app a b : String.length (a +:+ b) = (String.length a + String.length b)%nat.
Proof.
  induction a as [|x a IH]; [done|].
  change (String x a +:+ b) with (String x (a +:+ b)). simpl. by rewrite IH.
Qed.

Lemma header_line sec :
  trimmed ("[" +:+ sec +:+ "]") = true ∧
  is_header ("[" +:+ sec +:+ "]") = true ∧
  slice_1_m1 ("[" +:+ sec +:+ "]") = sec.
Proof.
  split; [|split].
  - unfold trimmed. rewrite last_char_app by (by destruct sec).
    by rewrite last_char_app.
  - unfold is_header, startswith, endswith.
    rewrite !rev_app. change (String.rev "]") with "]".
    change (("]" +:+ String.rev sec) +:+ String.rev "[")
      with (String "]" (String.rev sec +:+ String.rev "[")).
    change ("[" +:+ sec +:+ "]") with (String "[" (sec +:+ "]")).
    simpl. by destruct (String.rev sec +:+ String.rev "["), (sec +:+ "]").
  - unfold slice_1_m1. change ("[" +:+ sec +:+ "]") with (String "[" (sec +:+ "]")).
    simpl. rewrite length_app. simpl.
    replace (String.length sec + 1 - 1)%nat with (String.length sec) by lia.
    apply substring_prefix.
Qed.

Lemma startswith_app a b p :
  a ≠ "" → startswith (a +:+ b) (String p "") = startswith a (String p "").
Proof.
  intros Ha. destruct a as [|x a]; [done|].
  change (String x a +:+ b) with (String x (a +:+ b)). unfold startswith. simpl.
  destruct (ascii_dec p x); [|done]. generalize (a +:+ b). intros t. by destruct a, t.
Qed.

End StrFacts.

(** ** Layered sources, copies and the dict class *)

Module ConfigMore.
Import Config ConfigSteps ConfigNotions PyText CaseInsensitive ConfigFile ConfigProps PyFacts.

Lemma lower_ascii_idemp a : lower_ascii (lower_ascii a) = lower_ascii a.
Proof.
  unfold lower_ascii.
  destruct ((65 <=? nat_of_ascii a)%nat && (nat_of_ascii a <=? 90)%nat) eqn:E; [|by rewrite E].
  apply andb_prop in E as [H1%Nat.leb_le H2%Nat.leb_le].
  rewrite nat_ascii_embedding by lia.
  replace ((65 <=? nat_of_ascii a + 32)%nat && (nat_of_ascii a + 32 <=? 90)%nat) with false; [done|].
  symmetry. apply andb_false_iff. right. apply Nat.leb_gt. lia.
Qed.

Lemma lower_idemp s : lower (lower s) = lower s.
Proof. induction s as [|a s IH]; simpl; [done|]. by rewrite lower_ascii_idemp, IH. Qed.

(** *** What [update] assigns *)

Lemma entry_setkey (c : Configuration) s d k v sec key :
  entry sec key (<[lower s := <[lower k := v]> d]> c) =
  if decide (lower s = lower sec)
  then (if decide (lower k = lower key) then Some v else d !! lower key)
  else entry sec key c.
Proof.
  rewrite entry_insert_section. destruct (decide (lower s = lower sec)); [|done].
  destruct (decide (lower k = lower key)) as [->|Hne].
  - by rewrite lookup_insert_eq.
  - by rewrite lookup_insert_ne.
Qed.

Lemma setkeys_entry s (sect : list (string * cfgval)) (c : Configuration) sec key :
  is_Some (c !! lower s) →
  ∃ c', for_each sect (λ '(skey, v), cfg_setkey s skey v) c = Ok tt c' ∧
    is_Some (c' !! lower s) ∧
    (∀ x, x ≠ lower s → c' !! x = c !! x) ∧
    entry sec key c' =
      if decide (lower s = lower sec)
      then from_option Some (entry sec key c) (assigned_in key sect)
      else entry sec key c.
Proof.
  revert c. induction sect as [|[k v] sect IH]; intros c [d Hd].
  - exists c. simpl. repeat split; [eauto|]. by destruct (decide _).
  - simpl. unfold bind at 1. rewrite cfg_setkey_spec, Hd.
    destruct (IH (<[lower s := <[lower k := v]> d]> c)) as (c' & Hrun & Hsec & Hframe & Hent).
    { rewrite lookup_insert_eq. eauto. }
    exists c'. split; [done|]. split; [done|]. split.
    { intros x Hx. rewrite Hframe by done. by rewrite lookup_insert_ne. }
    rewrite Hent, entry_setkey.
    destruct (decide (lower s = lower sec)) as [Hs|]; [|done].
    destruct (assigned_in key sect); simpl; [done|].
    destruct (decide (lower k = lower key)); simpl; [done|].
    unfold entry, _k. rewrite <- Hs, Hd. done.
Qed.

Lemma update_entry (newcfg : source) (c : Configuration) sec key :
  ∃ c', update newcfg c = Ok tt c' ∧
    entry sec key c' = from_option Some (entry sec key c) (assigned sec key newcfg) ∧
    (is_Some (c' !! lower sec) ↔ is_Some (c !! lower sec) ∨ names_section sec newcfg) ∧
    (∀ x, lower x ≠ x → c' !! x = c !! x).
Proof.
  revert c. induction newcfg as [|[s sect] rest IH]; intros c.
  - exists c. simpl. split; [done|]. split; [done|]. split; [|done]. split.
    + intros Hc. by left.
    + intros [|(? & ? & []%elem_of_nil & _)]; done.
  - unfold update. simpl. unfold bind at 1, get at 1. do 2 unfold bind at 1.
    set (c1 := if ci_contains s c then c else <[lower s := ∅]> c).
    assert (when (negb (ci_contains s c)) (modify (ci_setitem s (∅ : gmap string cfgval))) c
            = Ok tt c1) as ->.
    { unfold c1. by destruct (ci_contains s c). }
    assert (is_Some (c1 !! lower s)) as Hsec1.
    { unfold c1. destruct (ci_contains s c) eqn:E.
      - by apply ci_contains_true.
      - rewrite lookup_insert_eq. eauto. }
    destruct (setkeys_entry s sect c1 sec key Hsec1) as (c2 & -> & Hsec2 & Hframe & Hent).
    destruct (IH c2) as (c' & Hrun & Hent' & Hsecs & Hraw).
    exists c'. split; [exact Hrun|].
    assert (entry sec key c1 = entry sec key c) as Hent1.
    { unfold c1. destruct (ci_contains s c) eqn:E; [done|].
      apply ci_contains_false in E. rewrite entry_insert_section.
      destruct (decide (lower s = lower sec)) as [Hs|]; [|done].
      unfold entry, _k. rewrite <- Hs, E. by rewrite lookup_empty. }
    assert (∀ x, x ≠ lower s → c1 !! x = c !! x) as Hframe1.
    { intros x Hx. unfold c1. destruct (ci_contains s c); [done|].
      by rewrite lookup_insert_ne. }
    split; [|split].
    + rewrite Hent'. destruct (assigned sec key rest); simpl; [done|].
      rewrite Hent, Hent1. by destruct (decide (lower s = lower sec)).
    + rewrite Hsecs. split.
      * intros [Hc2|(s' & sect' & Hin & Hs')].
        -- destruct (decide (lower sec = lower s)) as [E|Hne].
           ++ right. exists s, sect. split; [by left|done].
           ++ left. by rewrite <- (Hframe1 _ Hne), <- (Hframe _ Hne).
        -- right. exists s', sect'. split; [by right|done].
      * intros [Hc|(s' & sect' & Hin & Hs')].
        -- left. destruct (decide (lower sec = lower s)) as [->|Hne]; [done|].
           by rewrite (Hframe _ Hne), (Hframe1 _ Hne).
        -- apply elem_of_cons in Hin as [[= <- <-]|Hin].
           ++ left. by rewrite <- Hs'.
           ++ right. by exists s', sect'.
    + intros x Hx. rewrite Hraw by done.
      assert (x ≠ lower s) as Hne by (intros ->; by rewrite lower_idemp in Hx).
      by rewrite (Hframe _ Hne), (Hframe1 _ Hne).
Qed.

Lemma assigned_app sec key (a b : source) :
  assigned sec key (a ++ b)%list
  = from_option Some (assigned sec key a) (assigned sec key b).
Proof.
  induction a as [|[s sect] a IH]; simpl.
  - by destruct (assigned sec key b).
  - rewrite IH. destruct (assigned sec key b); simpl; [done|].
    by destruct (assigned sec key a).
Qed.

Lemma for_each_update_entry (files : list source) (c : Configuration) sec key :
  ∃ c', for_each files update c = Ok tt c' ∧
    entry sec key c' = from_option Some (entry sec key c) (assigned sec key (concat files)).
Proof.
  revert c. induction files as [|f files IH]; intros c.
  - by exists c.
  - simpl. unfold bind at 1.
    destruct (update_entry f c sec key) as (c1 & -> & Hent & _).
    destruct (IH c1) as (c' & Hrun & Hent').
    exists c'. split; [done|].
    rewrite Hent', Hent, assigned_app.
    by destruct (assigned sec key (concat files)).
Qed.

Lemma names_section_app sec (a b : source) :
  names_section sec (a ++ b)%list ↔ names_section sec a ∨ names_section sec b.
Proof.
  unfold names_section. split.
  - intros (s & sect & [Hin|Hin]%elem_of_app & Hs); [left|right]; eauto.
  - intros [(s & sect & Hin & Hs)|(s & sect & Hin & Hs)];
      exists s, sect; (split; [|done]); apply elem_of_app; auto.
Qed.

Lemma for_each_update_section (files : list source) (c : Configuration) sec :
  ∃ c', for_each files update c = Ok tt c' ∧
    (is_Some (c' !! lower sec)
     ↔ is_Some (c !! lower sec) ∨ names_section sec (concat files)).
Proof.
  revert c. induction files as [|f files IH]; intros c.
  - exists c. split; [done|]. split; [by left|].
    intros [|(? & ? & []%elem_of_nil & _)]; done.
  - simpl. unfold bind at 1.
    destruct (update_entry f c sec "") as (c1 & -> & _ & Hsec & _).
    destruct (IH c1) as (c' & Hrun & Hsec').
    exists c'. split; [done|].
    rewrite Hsec', Hsec, names_section_app. tauto.
Qed.

Lemma load_sources_merged (default : source) (files : list source) (cfg : source) :
  ∃ merged,
    load_sources default files cfg ∅ = Ok tt merged ∧
    (∀ sec key,
      entry sec key merged = assigned sec key (default ++ cfg ++ concat files)%list) ∧
    (∀ sec, is_Some (merged !! lower sec)
            ↔ names_section sec (default ++ cfg ++ concat files)%list).
Proof.
  destruct (load_sources_ok default files cfg ∅) as [merged Hload].
  exists merged. split; [done|]. split.
  - intros sec key.
    revert Hload. unfold load_sources. unfold bind at 1.
    destruct (update_entry default ∅ sec key) as (c1 & -> & H1 & _).
    unfold bind at 1.
    destruct (update_entry cfg c1 sec key) as (c2 & -> & H2 & _).
    destruct (for_each_update_entry files c2 sec key) as (c3 & -> & H3).
    intros [= <-].
    rewrite H3, H2, H1, !assigned_app.
    assert (entry sec key (∅ : Configuration) = None) as -> by done.
    destruct (assigned sec key (concat files)); simpl; [done|].
    destruct (assigned sec key cfg); simpl; [done|].
    by destruct (assigned sec key default).
  - intros sec.
    revert Hload. unfold load_sources. unfold bind at 1.
    destruct (update_entry default ∅ sec "") as (c1 & -> & _ & H1 & _).
    unfold bind at 1.
    destruct (update_entry cfg c1 sec "") as (c2 & -> & _ & H2 & _).
    destruct (for_each_update_section files c2 sec) as (c3 & -> & H3).
    intros [= <-].
    rewrite H3, H2, H1, !names_section_app, lookup_empty.
    split; [|tauto]. intros [[[[? [=]]|]|]|]; tauto.
Qed.


(** *** Copies *)

Lemma lowered_empty : lowered ∅.
Proof. intros s d Hs. by rewrite lookup_empty in Hs. Qed.

Lemma lowered_setkey (c : Configuration) s d k v :
  lowered c → c !! lower s = Some d →
  lowered (<[lower s := <[lower k := v]> d]> c).
Proof.
  intros Hc Hd s' d'. destruct (decide (lower s = s')) as [<-|Hne].
  - rewrite lookup_insert_eq. intros [= <-]. split; [apply lower_idemp|].
    intros k'. destruct (decide (lower k = k')) as [<-|Hk].
    + intros _. apply lower_idemp.
    + rewrite lookup_insert_ne by done. by apply (Hc _ _ Hd).
  - rewrite lookup_insert_ne by done. apply Hc.
Qed.

Lemma lowered_new_section (c : Configuration) s :
  lowered c → lowered (<[lower s := ∅]> c).
Proof.
  intros Hc s' d'. destruct (decide (lower s = s')) as [<-|Hne].
  - rewrite lookup_insert_eq. intros [= <-]. split; [apply lower_idemp|].
    intros k [? Hk]. by rewrite lookup_empty in Hk.
  - rewrite lookup_insert_ne by done. apply Hc.
Qed.

Lemma cfg_setkey_lowered sec key v (c c' : Configuration) :
  cfg_setkey sec key v c = Ok tt c' → lowered c → lowered c'.
Proof.
  rewrite cfg_setkey_spec. destruct (c !! lower sec) as [d|] eqn:Hd; [|done].
  intros [= <-] Hc. by apply lowered_setkey.
Qed.

Lemma update_lowered (newcfg : source) (c c' : Configuration) :
  update newcfg c = Ok tt c' → lowered c → lowered c'.
Proof.
  intros Hup. unfold update in Hup.
  apply (for_each_ok_elem (λ c c', lowered c → lowered c')) in Hup as [Hl _];
    [done|done|by eauto|].
  intros [key sect] s1 s2 Hbody.
  apply bind_ok in Hbody as (c0 & s1' & [= <- <-] & Hbody).
  apply bind_ok in Hbody as ([] & t & Hcreate & Hkeys).
  intros Hs1. assert (lowered t) as Ht.
  { unfold when in Hcreate. destruct (ci_contains key s1); simpl in Hcreate;
      injection Hcreate as <-; [done|]. by apply lowered_new_section. }
  apply (for_each_ok_elem (λ c c', lowered c → lowered c')) in Hkeys as [Hl _];
    [by apply Hl|done|by eauto|].
  intros [skey v] t1 t2. apply cfg_setkey_lowered.
Qed.

Lemma for_each_update_lowered (files : list source) (c c' : Configuration) :
  for_each files update c = Ok tt c' → lowered c → lowered c'.
Proof.
  intros Hup.
  apply (for_each_ok_elem (λ c c', lowered c → lowered c')) in Hup as [Hl _];
    [done|done|by eauto|].
  intros f s1 s2. apply update_lowered.
Qed.

Lemma fill_lowered sec key v (c c' : Configuration) :
  fill sec key v c = Ok tt c' → lowered c → lowered c'.
Proof.
  rewrite fill_spec. destruct (c !! lower sec) as [d|] eqn:Hd; [|done].
  intros [= <-] Hc. destruct (ci_contains key d); [done|]. by apply lowered_setkey.
Qed.

Lemma fix_config_lowered uid (c c' : Configuration) :
  _fix_config uid c = Ok tt c' → lowered c → lowered c'.
Proof.
  rewrite fix_config_steps. unfold fix_steps.
  intros ([] & c1 & H1 & H)%bind_ok. apply bind_ok in H as ([] & c2 & H2 & H).
  apply bind_ok in H as ([] & c3 & H3 & H4). intros Hc.
  rewrite assert_general_spec in H1. destruct (c !! "general"); [|done].
  injection H1 as <-.
  apply fill_lowered in H2; [|done].
  assert (lowered c3) as Hc3.
  { rewrite channel_step_spec in H3. destruct (c2 !! "general") as [gen|] eqn:Hg; [|done].
    destruct (ci_contains "channel width" gen); [by injection H3 as <-|].
    destruct (gen !! "flow rate [ul/s]") as [rate|]; [|done].
    destruct (lt_0_16 rate); [done|]. injection H3 as <-.
    by apply (lowered_setkey c2 "general" gen "channel width"). }
  apply (for_each_ok_elem (λ c c', lowered c → lowered c')) in H4 as [Hl _];
    [by apply Hl|done|by eauto|].
  intros item s1 s2 Hi.
  apply (for_each_ok_elem (λ c c', lowered c → lowered c')) in Hi as [Hl _];
    [done|done|by eauto|].
  intros a t1 t2 ([] & t & Hp & Hf)%bind_ok Ht1.
  eapply fill_lowered; [done|]. by eapply fill_lowered.
Qed.

Lemma lowered_ext (c c' : Configuration) :
  lowered c → lowered c' →
  (∀ sec, is_Some (c !! lower sec) ↔ is_Some (c' !! lower sec)) →
  (∀ sec key, entry sec key c = entry sec key c') →
  c = c'.
Proof.
  intros Hc Hc' Hsec Hent. apply map_eq. intros x.
  destruct (decide (lower x = x)) as [Hx|Hx].
  - specialize (Hsec x). rewrite Hx in Hsec.
    destruct (c !! x) as [d|] eqn:Hd, (c' !! x) as [d'|] eqn:Hd'.
    + f_equal. apply map_eq. intros k.
      destruct (decide (lower k = k)) as [Hk|Hk].
      * specialize (Hent x k). unfold entry, _k in Hent.
        rewrite Hx, Hk, Hd, Hd' in Hent. done.
      * destruct (d !! k) eqn:E.
        { destruct Hk. apply (Hc _ _ Hd). eauto. }
        destruct (d' !! k) eqn:E'; [|done].
        destruct Hk. apply (Hc' _ _ Hd'). eauto.
    + destruct Hsec as [[? H] _]; [eauto|done].
    + destruct Hsec as [_ [? H]]; [eauto|done].
    + done.
  - destruct (c !! x) eqn:E; [destruct Hx; by destruct (Hc _ _ E)|].
    destruct (c' !! x) eqn:E'; [destruct Hx; by destruct (Hc' _ _ E')|done].
Qed.

Lemma assigned_in_lookup key (l : list (string * cfgval)) :
  NoDup l.*1 → (∀ k, k ∈ l.*1 → lower k = k) →
  assigned_in key l = (list_to_map l : gmap string cfgval) !! lower key.
Proof.
  induction l as [|[k v] l IH]; intros Hnd Hlow; [done|].
  simpl. apply NoDup_cons in Hnd as [Hk Hnd].
  rewrite IH; [|done|intros; apply Hlow; by right].
  assert (lower k = k) as Hlk by (apply Hlow; by left).
  destruct (decide (k = lower key)) as [->|Hne].
  - rewrite lookup_insert_eq, lower_idemp.
    rewrite (not_elem_of_list_to_map_1 _ _ Hk). by rewrite decide_True.
  - rewrite lookup_insert_ne by done.
    destruct (list_to_map l !! lower key); [done|].
    rewrite decide_False; [done|]. by rewrite Hlk.
Qed.

Lemma assigned_lookup sec key (src : source) :
  NoDup src.*1 → (∀ s, s ∈ src.*1 → lower s = s) →
  assigned sec key src
  = (list_to_map src : gmap string (list (string * cfgval))) !! lower sec
      ≫= assigned_in key.
Proof.
  induction src as [|[s sect] src IH]; intros Hnd Hlow; [done|].
  simpl. apply NoDup_cons in Hnd as [Hs Hnd].
  rewrite IH; [|done|intros; apply Hlow; by right].
  assert (lower s = s) as Hls by (apply Hlow; by left).
  destruct (decide (s = lower sec)) as [->|Hne].
  - rewrite lookup_insert_eq, lower_idemp.
    rewrite (not_elem_of_list_to_map_1 _ _ Hs). simpl. by rewrite decide_True.
  - rewrite lookup_insert_ne by done.
    destruct (list_to_map src !! lower sec ≫= assigned_in key); [done|].
    rewrite decide_False; [done|]. by rewrite Hls.
Qed.

Lemma assigned_items sec key (c : Configuration) :
  lowered c → assigned sec key (items c) = entry sec key c.
Proof.
  intros Hc. unfold items. rewrite assigned_lookup.
  - rewrite list_to_map_to_list, lookup_fmap. unfold entry, _k.
    destruct (c !! lower sec) as [d|] eqn:Hd; [|done]. simpl.
    rewrite assigned_in_lookup.
    + by rewrite list_to_map_to_list.
    + apply NoDup_fst_map_to_list.
    + intros k [[k' v] [-> Hin%elem_of_map_to_list]]%list_elem_of_fmap.
      apply (Hc _ _ Hd). eauto.
  - apply NoDup_fst_map_to_list.
  - intros s [[s' l] [-> Hin%elem_of_map_to_list]]%list_elem_of_fmap.
    rewrite lookup_fmap in Hin. simpl.
    destruct (c !! s') as [d|] eqn:Hd; [|done]. by destruct (Hc _ _ Hd).
Qed.

Lemma names_section_items sec (c : Configuration) :
  lowered c → names_section sec (items c) ↔ is_Some (c !! lower sec).
Proof.
  intros Hc. unfold names_section, items. split.
  - intros (s & sect & Hin%elem_of_map_to_list & Hs).
    rewrite lookup_fmap in Hin. destruct (c !! s) as [d|] eqn:Hd; [|done].
    destruct (Hc _ _ Hd) as [Hls _]. rewrite <- Hs, Hls. eauto.
  - intros [d Hd]. exists (lower sec), (map_to_list d). split.
    + apply elem_of_map_to_list. by rewrite lookup_fmap, Hd.
    + apply lower_idemp.
Qed.

Lemma for_each_update_covers (files : list source) (c c' : Configuration) :
  for_each files update c = Ok tt c' → covers c c'.
Proof.
  intros Hup.
  apply (for_each_ok_elem covers) in Hup as [Hl _];
    [done|apply covers_refl|apply covers_trans|].
  intros f s1 s2 Hf. by apply update_covers in Hf as [? _].
Qed.

(** X2: [copy] is faithful: the copy of a configuration that the
    constructor has built, from whatever sources, is built without an
    exception and equals the configuration it was taken of. *)
Theorem copy_equal
    (uid : list string) (default : source)
    (files : list source) (cfg : source) (c : Configuration) :
  Configuration_init uid default files cfg = Ok tt c →
  copy uid default c = Ok tt c.
Proof.
  unfold copy, Configuration_init.
  intros ([] & merged & Hload & Hfix)%bind_ok.
  unfold load_sources in Hload.
  apply bind_ok in Hload as ([] & c1 & H1 & Hload).
  apply bind_ok in Hload as ([] & c2 & H2 & H3).
  assert (lowered c) as Hc.
  { eapply fix_config_lowered; [done|]. eapply for_each_update_lowered; [done|].
    eapply update_lowered; [done|]. eapply update_lowered; [done|]. apply lowered_empty. }
  assert (covers c1 c) as Hcov.
  { eapply covers_trans; [by apply update_covers in H2 as [? _]|].
    eapply covers_trans; [by apply for_each_update_covers in H3|].
    apply extends_covers. rewrite fix_config_steps in Hfix.
    pose proof (rep_extends _ (fix_steps_repeatable uid) merged) as He.
    by rewrite Hfix in He. }
  assert (_fix_config uid c = Ok tt c) as Hsettled.
  { rewrite fix_config_steps in Hfix |- *.
    by apply (rep_settled _ (fix_steps_repeatable uid) merged). }
  assert (load_sources default [] (items c) ∅ = Ok tt c) as Hcopy.
  { unfold load_sources. unfold bind at 1. rewrite H1. unfold bind at 1.
    destruct (update_ok (items c) c1) as [c' Hc'].
    rewrite Hc'. simpl. unfold ret. f_equal. apply lowered_ext.
    - eapply update_lowered; [done|]. eapply update_lowered; [done|]. apply lowered_empty.
    - done.
    - intros sec. destruct (update_entry (items c) c1 sec "") as (c'' & Hc'' & _ & Hsec & _).
      rewrite Hc' in Hc''. injection Hc'' as <-. rewrite Hsec, names_section_items by done.
      split; [|by right]. intros [H|H]; [|done]. by eapply covers_section.
    - intros sec key.
      destruct (update_entry (items c) c1 sec key) as (c'' & Hc'' & Hent & _).
      rewrite Hc' in Hc''. injection Hc'' as <-. rewrite Hent, assigned_items by done.
      destruct (entry sec key c) eqn:E; [done|]. simpl.
      destruct (entry sec key c1) eqn:E1; [|done].
      assert (is_Some (entry sec key c)) as [? Hs] by (eapply covers_entry; eauto).
      congruence. }
  unfold bind. by rewrite Hcopy.
Qed.

Lemma copy_equal_witness :
  Configuration_init Fixture.uid Fixture.default [] Fixture.cfg = Ok tt Fixture.built ∧
  copy Fixture.uid Fixture.default Fixture.built = Ok tt Fixture.built.
Proof.
  assert (Configuration_init Fixture.uid Fixture.default [] Fixture.cfg
          = Ok tt Fixture.built) as Hbuilt
    by (apply not_raised_ok; vm_compute; reflexivity).
  split; [exact Hbuilt|].
  exact (copy_equal _ _ _ _ _ Hbuilt).
Defined.

(** *** When the constructor raises *)

Lemma minmax_loop_outcome uid (c : Configuration) :
  match for_each uid (λ item, for_each [" min"; " max"] (minmax_step item)) c with
  | Ok _ _ => uid = [] ∨ (is_Some (c !! "plotting") ∧ is_Some (c !! "filtering"))
  | Raise e _ =>
      uid ≠ [] ∧
      ((c !! "plotting" = None ∧ e = KeyError "plotting") ∨
       (is_Some (c !! "plotting") ∧ c !! "filtering" = None ∧ e = KeyError "filtering"))
  end.
Proof.
  destruct uid as [|item uid]; [by left|].
  destruct (c !! "plotting") as [p|] eqn:Hp.
  - destruct (c !! "filtering") as [f|] eqn:Hf.
    + destruct (minmax_loop_returns (item :: uid) c) as [c' ->]; [by rewrite Hp|by rewrite Hf|].
      right. eauto.
    + cbn [for_each]. unfold bind at 1, bind at 1, minmax_step, bind at 1.
      rewrite fill_spec. change (lower "plotting") with "plotting". rewrite Hp.
      rewrite fill_spec. change (lower "filtering") with "filtering".
      assert ((if ci_contains (item +:+ " min") p then c
               else <["plotting" := <[lower (item +:+ " min") := CInt 0]> p]> c)
              !! "filtering" = None) as ->.
      { destruct (ci_contains (item +:+ " min") p); [done|]. by rewrite lookup_insert_ne. }
      split; [done|]. right. eauto.
  - cbn [for_each]. unfold bind at 1, bind at 1, minmax_step, bind at 1.
    rewrite fill_spec. change (lower "plotting") with "plotting". rewrite Hp.
    split; [done|]. by left.
Qed.

Section Outcome.

Variable uid : list string.
Variable default : source.
Variable files : list source.
Variable cfg : source.

Local Abbreviation sources := (default ++ cfg ++ concat files)%list.
Local Abbreviation rate :=
  (from_option id (CFloat nan) (assigned "general" "flow rate [ul/s]" sources)).


End Outcome.

(** *** What the constructor leaves outside [general] *)

Lemma fix_config_entry uid (m c : Configuration) sec key :
  _fix_config uid m = Ok tt c → lower sec ≠ "general" →
  entry sec key c = entry sec key m
  ∨ (entry sec key m = None ∧ entry sec key c = Some (CInt 0)).
Proof.
  rewrite fix_config_steps. unfold fix_steps.
  intros ([] & c0 & H0 & H)%bind_ok Hsec. apply bind_ok in H as ([] & c1 & H1 & H).
  apply bind_ok in H as ([] & c2 & H2 & H3).
  rewrite assert_general_spec in H0. destruct (m !! "general") as [g0|]; [|done].
  injection H0 as <-.
  assert (entry sec key c1 = entry sec key m) as E1.
  { rewrite fill_spec in H1. destruct (m !! lower "general") as [d|]; [|done].
    injection H1 as <-. destruct (ci_contains "flow Rate [ul/s]" d); [done|].
    rewrite entry_insert_section. by rewrite decide_False. }
  assert (entry sec key c2 = entry sec key c1) as E2.
  { rewrite channel_step_spec in H2. destruct (c1 !! "general") as [g1|]; [|done].
    destruct (ci_contains "channel width" g1); [by injection H2 as <-|].
    destruct (g1 !! "flow rate [ul/s]") as [rate|]; [|done].
    destruct (lt_0_16 rate); [done|]. injection H2 as <-.
    rewrite entry_insert_section. by rewrite decide_False. }
  apply minmax_loop_ok in H3 as [[_ Hzero] _].
  rewrite <- E1, <- E2. apply Hzero.
Qed.

Lemma Configuration_init_entry uid default cfg (c : Configuration) sec key :
  Configuration_init uid default [] cfg = Ok tt c → lower sec ≠ "general" →
  entry sec key c
    = from_option Some (assigned sec key default) (assigned sec key cfg)
  ∨ (from_option Some (assigned sec key default) (assigned sec key cfg) = None
     ∧ entry sec key c = Some (CInt 0)).
Proof.
  unfold Configuration_init. intros ([] & merged & Hload & Hfix)%bind_ok Hsec.
  assert (entry sec key merged
          = from_option Some (assigned sec key default) (assigned sec key cfg)) as <-.
  { revert Hload. unfold load_sources. unfold bind at 1.
    destruct (update_entry default ∅ sec key) as (c1 & -> & H1 & _).
    unfold bind at 1.
    destruct (update_entry cfg c1 sec key) as (c2 & -> & H2 & _).
    intros [= <-]. rewrite H2, H1.
    assert (entry sec key (∅ : Configuration) = None) as -> by done.
    by destruct (assigned sec key default). }
  by apply (fix_config_entry uid).
Qed.

Lemma Configuration_init_lowered uid default files cfg (c : Configuration) :
  Configuration_init uid default files cfg = Ok tt c → lowered c.
Proof.
  unfold Configuration_init, load_sources.
  intros ([] & merged & Hload & Hfix)%bind_ok.
  apply bind_ok in Hload as ([] & c1 & H1 & Hload).
  apply bind_ok in Hload as ([] & c2 & H2 & H3).
  eapply fix_config_lowered; [done|]. eapply for_each_update_lowered; [done|].
  eapply update_lowered; [done|]. eapply update_lowered; [done|]. apply lowered_empty.
Qed.

(** *** The dict class *)

Lemma not_lower_ne s k : lower s ≠ s → s ≠ lower k.
Proof. intros Hs ->. by rewrite lower_idemp in Hs. Qed.

Lemma convert_keys_cons {V} k keys (m : gmap string V) v :
  m !! k = Some v →
  _convert_keys (k :: keys) m = _convert_keys keys (ci_setitem k v (delete k m)).
Proof.
  intros Hv. unfold _convert_keys. cbn [for_each].
  unfold bind at 1. unfold bind at 1, get at 1. by rewrite Hv.
Qed.

Lemma convert_keys_spec {V} (keys : list string) (m : gmap string V) :
  NoDup keys → (∀ k, k ∈ keys → is_Some (m !! k)) →
  ∃ d, _convert_keys keys m = Ok tt d ∧
    ∀ x, d !! x =
      if decide (lower x = x) then m !! kept_spelling keys x
      else if decide (x ∈ keys) then None else m !! x.
Proof.
  revert m. induction keys as [|k keys IH]; intros m Hnd Hdom.
  - exists m. split; [done|]. intros x. unfold kept_spelling. simpl.
    by destruct (decide (lower x = x)).
  - apply NoDup_cons in Hnd as [Hk Hnd].
    destruct (Hdom k) as [v Hv]; [by left|].
    rewrite (convert_keys_cons _ _ _ _ Hv).
    set (m1 := ci_setitem k v (delete k m)).
    assert (∀ y, m1 !! y =
              if decide (y = lower k) then Some v
              else if decide (y = k) then None else m !! y) as Hm1.
    { intros y. unfold m1, ci_setitem, _k. destruct (decide (y = lower k)) as [->|Hy].
      - by rewrite lookup_insert_eq.
      - rewrite lookup_insert_ne by done. destruct (decide (y = k)) as [->|Hyk].
        + by rewrite lookup_delete_eq.
        + by rewrite lookup_delete_ne. }
    destruct (IH m1 Hnd) as (d & Hrun & Hd).
    { intros k' Hk'. rewrite Hm1. destruct (decide (k' = lower k)); [eauto|].
      rewrite decide_False by (intros ->; done). apply Hdom. by right. }
    exists d. split; [exact Hrun|]. intros x. rewrite Hd.
    destruct (decide (lower x = x)) as [Hx|Hx].
    + unfold kept_spelling. rewrite filter_cons.
      destruct (decide (lower k = x ∧ k ≠ x)) as [[Hkx Hne]|Hnot].
      * rewrite last_cons.
        destruct (last (filter (λ k0, lower k0 = x ∧ k0 ≠ x) keys)) as [k'|] eqn:El; simpl.
        -- apply last_Some_elem_of, list_elem_of_filter in El as [[Hk'x Hk'ne] Hin].
           rewrite Hm1. rewrite decide_False.
           ++ rewrite decide_False; [done|]. intros ->. done.
           ++ apply not_lower_ne. by rewrite Hk'x.
        -- rewrite Hm1. rewrite decide_True by done. done.
      * destruct (last (filter (λ k0, lower k0 = x ∧ k0 ≠ x) keys)) as [k'|] eqn:El; simpl.
        -- apply last_Some_elem_of, list_elem_of_filter in El as [[Hk'x Hk'ne] Hin].
           rewrite Hm1. rewrite decide_False.
           ++ rewrite decide_False; [done|]. intros ->. done.
           ++ apply not_lower_ne. by rewrite Hk'x.
        -- rewrite Hm1. destruct (decide (x = lower k)) as [Hxk|Hxk].
           ++ destruct (decide (k = x)) as [->|Hkx]; [done|].
              destruct Hnot. by split.
           ++ destruct (decide (x = k)) as [->|Hkx]; [|done].
              by rewrite Hx in Hxk.
    + rewrite Hm1. rewrite (decide_False (P := x = lower k)) by by apply not_lower_ne.
      destruct (decide (x ∈ keys)) as [Hin|Hin].
      * rewrite decide_True; [done|]. by right.
      * destruct (decide (x = k)) as [->|Hxk].
        -- rewrite decide_True; [done|]. by left.
        -- rewrite decide_False; [done|]. by intros [?|?]%elem_of_cons.
Qed.

Lemma dict_lookup_acc {V} (pairs : list (string * V)) (acc : gmap string V) k :
  is_Some (foldl (λ d '(k, v), <[k := v]> d) acc pairs !! k)
  ↔ is_Some (acc !! k) ∨ k ∈ pairs.*1.
Proof.
  revert acc. induction pairs as [|[k' v] pairs IH]; intros acc; simpl.
  - split; [by left|]. by intros [?|?%elem_of_nil].
  - rewrite IH. destruct (decide (k = k')) as [->|Hne].
    + rewrite lookup_insert_eq. split; [intros _; right; by left|eauto].
    + rewrite lookup_insert_ne by done. rewrite elem_of_cons. intuition congruence.
Qed.

Lemma dict_keys_spec {V} (pairs : list (string * V)) seen :
  NoDup (dict_keys seen pairs) ∧
  ∀ k, k ∈ dict_keys seen pairs ↔ k ∈ pairs.*1 ∧ k ∉ seen.
Proof.
  revert seen. induction pairs as [|[k' v] pairs IH]; intros seen; simpl.
  - split; [constructor|]. intros k. split; [by intros ?%elem_of_nil|].
    by intros [?%elem_of_nil _].
  - destruct (bool_decide (k' ∈ seen)) eqn:E.
    + apply bool_decide_eq_true in E. destruct (IH seen) as [Hnd Hel].
      split; [done|]. intros k. rewrite Hel, elem_of_cons.
      split; [intros [? ?]; by auto|]. intros [[->|?] ?]; [done|by auto].
    + apply bool_decide_eq_false in E. destruct (IH (k' :: seen)) as [Hnd Hel].
      split.
      * constructor; [|done]. rewrite Hel. intros [_ []]. by left.
      * intros k. rewrite !elem_of_cons, Hel, elem_of_cons.
        destruct (decide (k = k')) as [->|Hne]; [by intuition|].
        split; [intros [?|[? Hn]]; [done|]; split; [by right|by auto]|].
        intros [[?|?] ?]; [done|]. right. split; [done|]. by intros [?|?].
Qed.

Lemma dict_keys_complete {V} (pairs : list (string * V)) x :
  x ∉ dict_keys [] pairs → dict pairs !! x = None.
Proof.
  intros Hx. destruct (dict_keys_spec pairs []) as [_ Hel].
  destruct (dict pairs !! x) eqn:E; [|done].
  destruct Hx. apply Hel. split; [|apply not_elem_of_nil].
  assert (is_Some (dict pairs !! x)) as [?|?]%dict_lookup_acc by eauto; [|done].
  by rewrite lookup_empty in H.
Qed.

(** X3: the constructor of [CaseInsensitiveDict] returns for every
    argument, and leaves lower-case keys only. Under a lower-case key it
    keeps the value of the last key of the argument, in iteration order,
    that is spelled otherwise, and the value of the lower-case spelling
    itself only when no other spelling occurs. *)
Theorem ci_init_spec {V} (pairs : list (string * V)) :
  ∃ d, ci_init pairs = Ok tt d ∧
    ∀ x, d !! x =
      if decide (lower x = x)
      then dict pairs !! kept_spelling (dict_keys [] pairs) x
      else None.
Proof.
  destruct (dict_keys_spec pairs []) as [Hnd Hel].
  destruct (convert_keys_spec (dict_keys [] pairs) (dict pairs) Hnd) as (d & Hrun & Hd).
  { intros k [Hk _]%Hel. apply dict_lookup_acc. by right. }
  exists d. split; [exact Hrun|]. intros x. rewrite Hd.
  destruct (decide (lower x = x)); [done|].
  destruct (decide (x ∈ dict_keys [] pairs)) as [|Hx]; [done|].
  destruct (dict pairs !! x) eqn:E; [|done].
  destruct Hx. apply Hel. split; [|apply not_elem_of_nil].
  assert (is_Some (dict pairs !! x)) as [?|?]%dict_lookup_acc by eauto; [|done].
  by rewrite lookup_empty in H.
Qed.

(** X22: [update(E)] never raises and reads the keys of [E]
    case-insensitively: under a lower-case key the dict holds afterwards
    the value [E] gives for it (that of the last spelling other than the
    lower-case one, if there is any), and what it held before where [E]
    gives none; no other key is touched. *)
Theorem update_any_spelling {V} (E : list (string * V)) (self : gmap string V) :
  ∃ self', ci_update E self = Ok tt self' ∧
    ∀ x, self' !! x =
      if decide (lower x = x)
      then match dict E !! kept_spelling (dict_keys [] E) x with
           | Some v => Some v
           | None => self !! x
           end
      else self !! x.
Proof.
  destruct (dict_keys_spec E []) as [Hnd Hel].
  destruct (convert_keys_spec (dict_keys [] E) (dict E) Hnd) as (d & Hrun & Hd).
  { intros k [Hk _]%Hel. apply dict_lookup_acc. by right. }
  exists (d ∪ self). split; [unfold ci_update, ci_init; by rewrite Hrun|].
  intros x. rewrite lookup_union, Hd.
  destruct (decide (lower x = x)).
  - destruct (dict E !! kept_spelling (dict_keys [] E) x); by destruct (self !! x).
  - destruct (decide (x ∈ dict_keys [] E)); [by destruct (self !! x)|].
    rewrite dict_keys_complete by done. by destruct (self !! x).
Qed.



(** *** The items of a dict *)

Lemma insert_sorted_perm k keys : insert_sorted k keys ≡ₚ k :: keys.
Proof.
  induction keys as [|k' keys IH]; simpl; [done|].
  destruct (String.leb k k'); [done|]. rewrite IH. apply Permutation_swap.
Qed.

Lemma sorted_perm keys : sorted keys ≡ₚ keys.
Proof.
  induction keys as [|k keys IH]; simpl; [done|].
  by rewrite insert_sorted_perm, IH.
Qed.

Lemma ascending_insert k keys :
  ascending keys = true → ascending (insert_sorted k keys) = true.
Proof.
  induction keys as [|a keys IH]; [done|].
  intros Hasc. cbn [insert_sorted].
  destruct (String.leb k a) eqn:Hka.
  - cbn [ascending]. by rewrite Hka.
  - assert (String.leb a k = true) as Hak.
    { destruct (String.leb_total k a) as [E|E]; [congruence|done]. }
    destruct keys as [|b keys].
    + simpl. by rewrite Hak.
    + cbn [ascending] in Hasc. apply andb_prop in Hasc as [Hab Hrest].
      specialize (IH Hrest). cbn [insert_sorted] in IH |- *.
      destruct (String.leb k b) eqn:Hkb.
      * cbn [ascending] in IH |- *. by rewrite Hak, Hkb, Hrest.
      * change (ascending (a :: b :: insert_sorted k keys))
          with (String.leb a b && ascending (b :: insert_sorted k keys)).
        by rewrite Hab, IH.
Qed.

Lemma ascending_sorted keys : ascending (sorted keys) = true.
Proof. induction keys as [|k keys IH]; [done|]. by apply ascending_insert. Qed.

Lemma read_back_spec {V} (keys : list string) (d : gmap string V) :
  (∀ k, k ∈ keys → lower k = k ∧ is_Some (d !! k)) →
  ∃ l, read_back keys d = inr l ∧ l.*1 = keys ∧ ∀ k v, (k, v) ∈ l → d !! k = Some v.
Proof.
  induction keys as [|k keys IH]; intros Hall.
  - exists []. split; [done|]. split; [done|]. by intros ?? ?%elem_of_nil.
  - destruct (Hall k) as [Hlow [v Hv]]; [by left|].
    destruct IH as (l & Hl & Hfst & Hd); [intros; apply Hall; by right|].
    exists ((k, v) :: l). split; [|split].
    + cbn [read_back]. unfold ci_getitem, _k. by rewrite Hlow, Hv, Hl.
    + rewrite fmap_cons. by rewrite Hfst.
    + intros k' v' [[= -> ->]|Hin]%elem_of_cons; [done|]. by apply Hd.
Qed.

(** X18: [items()] of a dict with lower-case keys, as every method of
    the class leaves them, returns every key with its value, each once,
    in ascending order of the keys. *)
Theorem items_sorted {V} (d : gmap string V)
    (Hlow : ∀ k, is_Some (d !! k) → lower k = k) :
  ∃ l, ci_items d = inr l ∧ ascending l.*1 = true ∧ l ≡ₚ map_to_list d.
Proof.
  destruct (read_back_spec (sorted (fst <$> map_to_list d)) d) as (l & Hl & Hfst & Hd).
  { intros k Hk. rewrite sorted_perm in Hk.
    apply list_elem_of_fmap in Hk as ([k' v] & -> & Hk%elem_of_map_to_list).
    split; [apply Hlow|]; by eexists. }
  exists l. split; [done|]. split; [rewrite Hfst; apply ascending_sorted|].
  apply NoDup_Permutation.
  - apply (NoDup_fmap_1 fst). rewrite Hfst, sorted_perm. apply NoDup_fst_map_to_list.
  - apply NoDup_map_to_list.
  - intros [k v]. rewrite elem_of_map_to_list. split; [apply Hd|].
    intros Hk. assert (k ∈ l.*1) as Hin.
    { rewrite Hfst, sorted_perm. apply list_elem_of_fmap. exists (k, v).
      split; [done|]. by apply elem_of_map_to_list. }
    apply list_elem_of_fmap in Hin as ([k' v'] & -> & Hin).
    pose proof (Hd _ _ Hin) as Hv. simpl in Hk. rewrite Hk in Hv. by injection Hv as <-.
Qed.

Lemma items_sorted_witness :
  ∃ l, ci_items ({[ "defo" := 2; "area" := 1 ]} : gmap string Z) = inr l
    ∧ ascending l.*1 = true ∧ l ≡ₚ map_to_list ({[ "defo" := 2; "area" := 1 ]} : gmap string Z).
Proof.
  apply (items_sorted ({[ "defo" := 2; "area" := 1 ]} : gmap string Z)).
  intros k [v [[<- _]|[_ [<- _]%lookup_singleton_Some]]%lookup_insert_Some]; reflexivity.
Defined.

(** *** Reading a configuration file *)

Section Files.

Variable uid : list string.
Variable py_float : string → option float.

Local Abbreviation read_line' := (read_line uid py_float).
Local Abbreviation load_from_file' := (load_from_file uid py_float).

Lemma read_blank line st :
  content line = "" → read_line' line st = Ok tt st.
Proof. intros E. unfold read_line. by rewrite E. Qed.

Lemma run_skips_blank code st :
  for_each code read_line' st
  = for_each (filter (λ l, content l ≠ "") code) read_line' st.
Proof.
  revert st. induction code as [|line code IH]; intros st; [done|].
  rewrite filter_cons. destruct (decide (content line ≠ "")) as [Hne|He].
  - cbn [for_each]. unfold bind. destruct (read_line' line st); [apply IH|done].
  - apply dec_stable in He. cbn [for_each]. unfold bind at 1.
    rewrite (read_blank _ _ He). apply IH.
Qed.

(** X5: [load_from_file] reads past every line that is blank once its
    comment is cut off: the result, a configuration or an exception, is
    that of the lines with content alone. *)
Theorem load_skips_blank (code : list string) :
  load_from_file' code
  = load_from_file' (filter (λ l, content l ≠ "") code).
Proof. unfold load_from_file. by rewrite run_skips_blank. Qed.

Lemma run_then_raise pre line rest st e st' :
  for_each pre read_line' (∅, None) = Ok tt st →
  read_line' line st = Raise e st' →
  load_from_file' (pre ++ line :: rest)%list = inl e.
Proof.
  intros Hpre Hline. unfold load_from_file. rewrite for_each_app.
  unfold bind at 1. rewrite Hpre. cbn [for_each]. unfold bind at 1. by rewrite Hline.
Qed.

Lemma load_ok_run pre cfg :
  load_from_file' pre = inr cfg →
  ∃ st, for_each pre read_line' (∅, None) = Ok tt st.
Proof.
  unfold load_from_file.
  destruct (for_each pre read_line' (∅, None)) as [[] st|]; [eauto|done].
Qed.

Lemma split_once_none sep s :
  has_char sep s = false → split_once sep s = [s].
Proof.
  induction s as [|a s IH]; simpl; [done|].
  intros [Ha Hs]%orb_false_elim. by rewrite Ha, (IH Hs).
Qed.

Lemma split_once_app sep var val :
  has_char sep var = false → split_once sep (var +:+ String sep val) = [var; val].
Proof.
  induction var as [|a var IH]; simpl.
  - intros _. by rewrite Ascii.eqb_refl.
  - intros [Ha Hs]%orb_false_elim. by rewrite Ha, (IH Hs).
Qed.

Lemma length_zero_eqb s : (String.length s =? 0)%nat = true ↔ s = "".
Proof. destruct s; simpl; split; done. Qed.

Lemma read_entry line st :
  content line ≠ "" → is_header (content line) = false →
  read_line' line st
  = (varval <- lift (match split_once "=" (content line) with
                     | [var; val] => inr (var, val)
                     | _ => inl (ValueError "not enough values to unpack (expected 2, got 1)")
                     end) ;;
     converted <- lift (keyval_str2typ uid py_float varval.1 (inl varval.2)) ;;
     varval <- lift (match converted with
                     | Some (var, val) => inr (var, val)
                     | None => inl (TypeError "cannot unpack non-iterable NoneType object")
                     end) ;;
     when (negb (String.length varval.1 =? 0)%nat && negb (prints_empty varval.2))
       (st <- get ;;
        match st.2 with
        | None => raise (NameError "local variable 'section' referenced before assignment")
        | Some section =>
            match cfg_setkey section varval.1 varval.2 st.1 with
            | Ok _ cfg => modify (λ _, (cfg, Some section))
            | Raise e _ => raise e
            end
        end)) st.
Proof.
  intros Hne Hh. unfold read_line. rewrite Hh.
  destruct (String.length (content line) =? 0)%nat eqn:E; [|done].
  by apply length_zero_eqb in E.
Qed.

Lemma blank_converts_to_none var val :
  strip var = "" ∨ strip val = "" →
  keyval_str2typ uid py_float var (inl val) = inr None.
Proof.
  intros H. unfold keyval_str2typ.
  destruct H as [-> | ->]; simpl; [done|]. by rewrite andb_false_r.
Qed.

(** X6: a line that has content, is no section header and cannot be
    taken apart ends [load_from_file] with an exception, whatever comes
    after it, once the lines before it were read: a [ValueError] when
    the line has no [=], and a [TypeError] when the text before the first
    [=] or the text after it is blank. *)
Theorem malformed_line_raises
    (pre : list string) (line : string) (rest : list string) (cfg : Configuration) :
  load_from_file' pre = inr cfg →
  content line ≠ "" → is_header (content line) = false →
  (has_char "=" (content line) = false →
   load_from_file' (pre ++ line :: rest)%list
   = inl (ValueError "not enough values to unpack (expected 2, got 1)")) ∧
  (∀ var val,
     content line = var +:+ String "=" val → has_char "=" var = false →
     strip var = "" ∨ strip val = "" →
     load_from_file' (pre ++ line :: rest)%list
     = inl (TypeError "cannot unpack non-iterable NoneType object")).
Proof.
  intros [st Hpre]%load_ok_run Hne Hh. split.
  - intros Hno. apply (run_then_raise _ _ _ _ _ st Hpre).
    rewrite read_entry by done. by rewrite (split_once_none _ _ Hno).
  - intros var val Hline Hvar Hblank. apply (run_then_raise _ _ _ _ _ st Hpre).
    rewrite read_entry by done. rewrite Hline, (split_once_app _ _ _ Hvar).
    unfold bind at 1, lift at 1. unfold bind at 1. cbn [fst snd].
    by rewrite (blank_converts_to_none _ _ Hblank).
Qed.

Lemma converted_key var val k v :
  keyval_str2typ uid py_float var (inl val) = inr (Some (k, v)) →
  (String.length k =? 0)%nat = false.
Proof.
  unfold keyval_str2typ.
  destruct (negb (String.length (lower (strip var)) =? 0)%nat) eqn:E; [|done].
  apply negb_true_iff in E. cbn [andb].
  intros H. assert (k = lower (strip var)) as ->; [|done].
  repeat case_match; by simplify_eq.
Qed.

Lemma read_without_header line (c : Configuration) st :
  is_header (content line) = false →
  read_line' line (c, None) = Ok tt st → st = (c, None).
Proof.
  intros Hh. destruct (decide (content line = "")) as [E|E].
  { rewrite read_blank by done. by intros [= <-]. }
  rewrite read_entry by done.
  intros (varval & s1 & H1 & H)%bind_ok.
  apply bind_ok in H as (converted & s2 & H2 & H).
  apply bind_ok in H as (varval' & s3 & H3 & H).
  unfold lift in H1, H2, H3.
  repeat case_match; simplify_eq; try done.
  all: unfold when in H; repeat case_match; simplify_eq; try done.
  by injection H as <-.
Qed.

Lemma run_without_header pre (c : Configuration) st :
  (∀ l, l ∈ pre → is_header (content l) = false) →
  for_each pre read_line' (c, None) = Ok tt st → st = (c, None).
Proof.
  induction pre as [|l pre IH]; intros Hpre.
  - by intros [= <-].
  - cbn [for_each]. intros ([] & s1 & H1 & H2)%bind_ok.
    apply read_without_header in H1 as ->; [|apply Hpre; by left].
    apply IH; [|done]. intros l' Hl'. apply Hpre. by right.
Qed.

(** X7: an entry that stands before the first section header ends
    [load_from_file] with a [NameError] (the local variable [section] is
    not bound yet), unless its value is a quoted empty string, in which
    case the entry is dropped. *)
Theorem entry_before_header
    (pre : list string) (line : string) (rest : list string) (cfg : Configuration)
    (var val k : string) (v : cfgval) :
  (∀ l, l ∈ pre → is_header (content l) = false) →
  load_from_file' pre = inr cfg →
  is_header (content line) = false →
  content line = var +:+ String "=" val → has_char "=" var = false →
  keyval_str2typ uid py_float var (inl val) = inr (Some (k, v)) →
  (prints_empty v = false →
   load_from_file' (pre ++ line :: rest)%list
   = inl (NameError "local variable 'section' referenced before assignment")) ∧
  (prints_empty v = true →
   load_from_file' (pre ++ [line])%list = inr ∅).
Proof.
  intros Hpre [st Hrun]%load_ok_run Hh Hline Hvar Hconv.
  pose proof (run_without_header _ _ _ Hpre Hrun) as ->.
  assert (content line ≠ "") as Hne.
  { rewrite Hline. by destruct var. }
  assert (∀ st, read_line' line st
          = when (negb (prints_empty v))
              (st <- get ;;
               match st.2 with
               | None => raise (NameError "local variable 'section' referenced before assignment")
               | Some section =>
                   match cfg_setkey section k v st.1 with
                   | Ok _ cfg => modify (λ _, (cfg, Some section))
                   | Raise e _ => raise e
                   end
               end) st) as Hread.
  { intros st. rewrite read_entry by done. rewrite Hline, (split_once_app _ _ _ Hvar).
    unfold bind at 1, lift at 1. unfold bind at 1. cbn [fst snd]. rewrite Hconv.
    unfold lift at 1. unfold bind at 1, lift at 1. cbn [fst snd].
    by rewrite (converted_key _ _ _ _ Hconv). }
  split; intros Hv.
  - eapply run_then_raise; [exact Hrun|]. rewrite Hread, Hv. done.
  - unfold load_from_file. rewrite for_each_app. unfold bind at 1. rewrite Hrun.
    cbn [for_each]. unfold bind at 1. rewrite Hread, Hv. done.
Qed.

End Files.

Lemma malformed_line_raises_witness :
  load_from_file [] (λ _, None) ["[General]"; "channel width =  # to be measured"]
  = inl (TypeError "cannot unpack non-iterable NoneType object").
Proof.
  refine (proj2 (malformed_line_raises [] (λ _, None) ["[General]"]
                   "channel width =  # to be measured" []
                   {[ "general" := ∅ ]} _ _ _) "channel width " "" _ _ _).
  - reflexivity.
  - vm_compute. discriminate.
  - reflexivity.
  - reflexivity.
  - reflexivity.
  - right. reflexivity.
Defined.

Lemma entry_before_header_witness :
  load_from_file [] (λ _, None) ["# settings"; "Mode = fast"; "[General]"]
  = inl (NameError "local variable 'section' referenced before assignment").
Proof.
  refine (proj1 (entry_before_header [] (λ _, None) ["# settings"] "Mode = fast"
                   ["[General]"] ∅ "mode " " fast" "mode" (CStr "fast")
                   _ _ _ _ _ _) _).
  - intros l [->|[]%elem_of_nil]%elem_of_cons. reflexivity.
  - reflexivity.
  - reflexivity.
  - reflexivity.
  - reflexivity.
  - reflexivity.
  - reflexivity.
Defined.


(** *** Saving a configuration and loading it again *)

Lemma foldl_insert_lookup (d acc : gmap string cfgval) kvs x :
  (∀ k v, (k, v) ∈ kvs → d !! k = Some v) →
  foldl (λ a kv, <[kv.1 := kv.2]> a) acc kvs !! x
  = if decide (x ∈ kvs.*1) then d !! x else acc !! x.
Proof.
  revert acc. induction kvs as [|[k v] kvs IH]; intros acc Hd; simpl.
  - destruct (decide (x ∈ [])) as [[]%elem_of_nil|]; done.
  - rewrite IH by (intros; apply Hd; by right).
    destruct (decide (x ∈ kvs.*1)) as [Hin|Hnin].
    + rewrite decide_True by (by right). done.
    + destruct (decide (x = k)) as [->|Hne].
      * rewrite decide_True by (by left). rewrite lookup_insert_eq.
        symmetry. apply Hd. by left.
      * rewrite decide_False by (by intros [?|?]%elem_of_cons).
        by rewrite lookup_insert_ne.
Qed.

Section RoundTrip.

Variable uid : list string.
Variable py_float : string → option float.
Variable format_12f : float → string.

Local Abbreviation read_line' := (read_line uid py_float).
Local Abbreviation reads_back' := (reads_back uid py_float format_12f).

Lemma strip_space_front t : strip (String " " t) = strip t.
Proof. done. Qed.

Lemma keyval_str2typ_strip var var' val val' :
  strip var = strip var' → strip val = strip val' →
  keyval_str2typ uid py_float var (inl val) = keyval_str2typ uid py_float var' (inl val').
Proof. intros Hvar Hval. unfold keyval_str2typ. cbv zeta. by rewrite Hvar, Hval. Qed.

Lemma plain_key_spec k :
  plain_key k = true →
  lower k = k ∧ trimmed k = true ∧ has_char "#" k = false ∧
  has_char "=" k = false ∧ startswith k "[" = false.
Proof.
  unfold plain_key. rewrite !andb_true_iff, !negb_true_iff, bool_decide_eq_true.
  tauto.
Qed.

Lemma strip_id k : trimmed k = true → strip k = k.
Proof.
  intros Hk. rewrite <- (StrFacts.app_nil_r k) at 1. by apply StrFacts.strip_trimmed.
Qed.

Lemma read_header_line sec (c : Configuration) o :
  lower sec = sec → has_char "#" sec = false →
  read_line' (("[" +:+ sec +:+ "]") +:+ crlf) (c, o)
  = Ok tt (if ci_contains sec c then c else <[sec := ∅]> c, Some sec).
Proof.
  intros Hlow Hhash. destruct (StrFacts.header_line sec) as (Htrim & Hhead & Hslice).
  assert (content (("[" +:+ sec +:+ "]") +:+ crlf) = "[" +:+ sec +:+ "]") as Hc.
  { rewrite StrFacts.content_trimmed; [|done| |done..].
    - by rewrite !lower_app, Hlow.
    - rewrite !StrFacts.has_char_app, Hhash. done. }
  unfold read_line. rewrite Hc, Hhead, Hslice.
  destruct (String.length ("[" +:+ sec +:+ "]") =? 0)%nat eqn:E.
  { apply length_zero_eqb in E. discriminate. }
  cbn. unfold modify, ci_setitem, _k. cbn. by rewrite Hlow.
Qed.

Lemma read_empty_line st : read_line' ("" +:+ crlf) st = Ok tt st.
Proof. by apply read_blank. Qed.

Lemma read_entry_line k v sec (c : Configuration) acc :
  lower sec = sec → c !! sec = Some acc →
  plain_key k = true → reads_back' k v →
  read_line' ((k +:+ " = " +:+ (keyval_typ2str format_12f k v).2) +:+ crlf) (c, Some sec)
  = Ok tt (<[sec := <[k := v]> acc]> c, Some sec).
Proof.
  intros Hlow Hsec (Hk & Htrim & Hhash & Heq & Hbr)%plain_key_spec (Hs & Hsh & Hback).
  set (s := (keyval_typ2str format_12f k v).2) in *.
  pose proof (StrFacts.trimmed_nonempty _ Htrim) as Hne.
  assert (content ((k +:+ " = " +:+ s) +:+ crlf) = (k +:+ " ") +:+ String "=" (" " +:+ lower s))
    as Hc.
  { rewrite StrFacts.content_trimmed; [| |  |done..].
    - rewrite !lower_app, Hk. by rewrite StrFacts.app_assoc.
    - by apply StrFacts.trimmed_app.
    - rewrite !StrFacts.has_char_app, Hhash, Hsh. done. }
  rewrite read_entry; rewrite Hc.
  - rewrite split_once_app by (by rewrite StrFacts.has_char_app, Heq).
    unfold bind at 1. cbn [lift fst snd].
    rewrite (keyval_str2typ_strip _ k _ (lower s)).
    + rewrite Hback. unfold bind at 1. cbn [lift]. unfold bind at 1. cbn [lift fst snd].
      assert (negb (String.length k =? 0)%nat && negb (prints_empty v) = true) as ->.
      { apply andb_true_intro. split.
        - destruct k; [done|done].
        - destruct v as [| | |t|]; try done. subst s. simpl in Hs. by destruct t. }
      cbn [when]. unfold bind at 1, get. cbn [fst snd].
      unfold cfg_setkey, cfg_getitem, bind, get, lift, ci_getitem, modify, ci_setitem, _k.
      by rewrite Hlow, Hsec, Hk.
    + rewrite (strip_id k) by done. by apply StrFacts.strip_trimmed.
    + apply strip_space_front.
  - rewrite StrFacts.app_assoc. intros E.
    destruct k; [done|]. discriminate.
  - unfold is_header. rewrite StrFacts.app_assoc, StrFacts.startswith_app by done.
    by rewrite Hbr.
Qed.

Lemma read_entries kvs sec (c : Configuration) (acc : gmap string cfgval) :
  lower sec = sec → c !! sec = Some acc →
  (∀ k v, (k, v) ∈ kvs → plain_key k = true ∧ reads_back' k v) →
  for_each ((λ kv, (kv.1 +:+ " = " +:+ (keyval_typ2str format_12f kv.1 kv.2).2) +:+ crlf)
              <$> kvs) read_line' (c, Some sec)
  = Ok tt (<[sec := foldl (λ a kv, <[kv.1 := kv.2]> a) acc kvs]> c, Some sec).
Proof.
  intros Hlow. revert c acc. induction kvs as [|[k v] kvs IH]; intros c acc Hsec Hall.
  - simpl. by rewrite insert_id.
  - destruct (Hall k v) as [Hk Hv]; [by left|].
    cbn [fmap list_fmap for_each fst snd]. unfold bind at 1.
    rewrite (read_entry_line k v sec c acc) by done.
    rewrite (IH _ (<[k := v]> acc)).
    + by rewrite insert_insert_eq.
    + by rewrite lookup_insert_eq.
    + intros. apply Hall. by right.
Qed.

Lemma save_keys_spec (d : gmap string cfgval) ks :
  (∀ k, k ∈ ks → is_Some (d !! k) ∧ plain_key k = true) →
  ∃ kvs, save_keys format_12f d ks
         = inr ((λ kv, kv.1 +:+ " = " +:+ (keyval_typ2str format_12f kv.1 kv.2).2) <$> kvs)
    ∧ kvs.*1 = ks ∧ ∀ k v, (k, v) ∈ kvs → d !! k = Some v.
Proof.
  induction ks as [|k ks IH]; intros Hall.
  - exists []. split; [done|]. split; [done|]. by intros ?? ?%elem_of_nil.
  - destruct (Hall k) as [[v Hv] Hk]; [by left|].
    destruct IH as (kvs & Hsave & Hfst & Hd); [intros; apply Hall; by right|].
    apply plain_key_spec in Hk as (Hlow & Htrim & _).
    exists ((k, v) :: kvs). split; [|split].
    + cbn [save_keys]. unfold ci_getitem, _k. rewrite Hlow, Hv, Hsave.
      cbn [fmap list_fmap fst snd]. unfold keyval_typ2str at 1. cbn [fst].
      by rewrite strip_id, Hlow.
    + rewrite fmap_cons. by rewrite Hfst.
    + intros k' v' [[= -> ->]|Hin]%elem_of_cons; [done|]. by apply Hd.
Qed.

Lemma sections_round (c : Configuration) keys :
  storable uid py_float format_12f c →
  NoDup keys → (∀ key, key ∈ keys → is_Some (c !! key)) →
  ∃ out, save_sections format_12f c keys = inr out ∧
    ∀ (c0 : Configuration) o, (∀ key, key ∈ keys → c0 !! key = None) →
      ∃ c' o', for_each ((λ l, l +:+ crlf) <$> out) read_line' (c0, o) = Ok tt (c', o')
        ∧ ∀ x, c' !! x = if decide (x ∈ keys) then c !! x else c0 !! x.
Proof.
  intros Hst. induction keys as [|key keys IH]; intros Hnd Hin.
  - exists []. split; [done|]. intros c0 o _. exists c0, o. split; [done|].
    intros x. destruct (decide (x ∈ [])) as [[]%elem_of_nil|]; done.
  - apply NoDup_cons in Hnd as [Hnk Hnd].
    destruct (Hin key) as [d Hd]; [by left|].
    destruct (Hst key d Hd) as (Hlow & Hhash & Hent).
    destruct IH as (out & Hsave & Hload); [done|intros; apply Hin; by right|].
    destruct (save_keys_spec d (sorted (fst <$> map_to_list d))) as (kvs & Hkeys & Hfst & Hkv).
    { intros k Hk. rewrite sorted_perm in Hk.
      apply list_elem_of_fmap in Hk as ([k' v] & -> & Hk%elem_of_map_to_list).
      split; [by eexists|]. by destruct (Hent _ _ Hk). }
    eexists. split.
    { cbn [save_sections]. unfold ci_getitem, _k. rewrite Hlow, Hd, Hkeys, Hsave. done. }
    intros c0 o Hc0.
    destruct (Hload (<[key := d]> c0) (Some key)) as (c' & o' & Hrun & Hc').
    { intros k Hk. rewrite lookup_insert_ne; [apply Hc0; by right|]. by intros ->. }
    exists c', o'. split.
    + rewrite fmap_cons, fmap_app, fmap_cons. cbn [for_each]. unfold bind at 1.
      rewrite read_header_line by done.
      unfold ci_contains, _k. rewrite Hlow, (Hc0 key) by (by left).
      rewrite bool_decide_eq_false_2 by (by intros [? ?]).
      rewrite for_each_app. unfold bind at 1. rewrite <- list_fmap_compose.
      rewrite (read_entries kvs key _ ∅); [| done | by rewrite lookup_insert_eq |].
      * cbn [for_each]. unfold bind at 1. rewrite read_empty_line.
        rewrite insert_insert_eq.
        assert (foldl (λ a kv, <[kv.1 := kv.2]> a) ∅ kvs = d) as ->; [|done].
        apply map_eq. intros x. rewrite (foldl_insert_lookup d) by done.
        rewrite Hfst. destruct (decide (x ∈ sorted (map_to_list d).*1)) as [|Hx]; [done|].
        rewrite lookup_empty. symmetry. apply eq_None_not_Some. intros [v Hv].
        apply Hx. rewrite sorted_perm. apply list_elem_of_fmap.
        exists (x, v). split; [done|]. by apply elem_of_map_to_list.
      * intros k v Hk. apply Hent. by apply Hkv.
    + intros x. rewrite Hc'. destruct (decide (x ∈ keys)) as [Hx|Hx].
      * rewrite decide_True by (by right). done.
      * destruct (decide (x = key)) as [->|Hne].
        -- rewrite decide_True by (by left). by rewrite lookup_insert_eq.
        -- rewrite decide_False by (by intros [?|?]%elem_of_cons).
           by rewrite lookup_insert_ne.
Qed.


End RoundTrip.




End ConfigMore.
(** ** Completing a configuration from a dataset *)

Module DatasetMore.
Import Config ConfigSteps ConfigNotions ConfigDataset DatasetNotions ConfigProps PyFacts.

Section WithDataset.

Context {A : Type}.
Variable rdv : list string.
Variable cfgmap : gmap string string.
Variable getattr : string → exn + A.
Variable allclose_0 : A → exn + bool.
Variable nanmax : A → exn + float.
Variable nanmin : A → exn + float.
Variable shape_0 : A → exn + Z.

Local Abbreviation nonzero' := (nonzero getattr allclose_0).
Local Abbreviation accuracy_of' := (accuracy_of rdv cfgmap getattr allclose_0 nanmax nanmin).
Local Abbreviation added := (accuracies_added rdv cfgmap getattr allclose_0 nanmax nanmin).
Local Abbreviation complete' :=
  (_complete_config_from_rtdc_ds rdv cfgmap getattr allclose_0 nanmax nanmin shape_0).

Lemma nonzero_spec props keys :
  nonzero' props = inr keys →
  ∀ k, k ∈ keys ↔ k ∈ props ∧ ∃ a, getattr k = inr a ∧ allclose_0 a = inr false.
Proof.
  revert keys. induction props as [|prop props IH]; intros keys; cbn [nonzero].
  - intros [= <-] k. split; [by intros ?%elem_of_nil|by intros [?%elem_of_nil _]].
  - destruct (getattr prop) as [|a] eqn:Ha; [done|].
    destruct (allclose_0 a) as [|close] eqn:Hc; [done|].
    destruct (nonzero' props) as [|keys0]; [done|].
    specialize (IH keys0 eq_refl). intros [= <-] k.
    destruct close.
    + rewrite IH. split.
      * intros [Hin Hk]. split; [by right|done].
      * intros [[->|Hin]%elem_of_cons (b & Hb & Hcb)]; [congruence|eauto].
    + rewrite elem_of_cons, IH. split.
      * intros [->|[Hin Hk]]; [split; [by left|eauto]|split; [by right|done]].
      * intros [[->|Hin]%elem_of_cons Hk]; [by left|right; eauto].
Qed.

Lemma added_refl c : added c c.
Proof.
  split; [done|]. split; [done|]. intros key.
  destruct (entry "plotting" key c); [done|by left].
Qed.

Lemma added_trans c1 c2 c3 : added c1 c2 → added c2 c3 → added c1 c3.
Proof.
  intros (Ha & Hp & Hb) (Ha' & Hp' & Hb'). split; [|split].
  - intros s Hs. by rewrite Ha', Ha.
  - auto.
  - intros key. specialize (Hb key). specialize (Hb' key).
    destruct (entry "plotting" key c1) as [v|].
    + by rewrite Hb in Hb'.
    + destruct Hb as [Hb|(v & Hb & Hv)].
      * by rewrite Hb in Hb'.
      * rewrite Hb in Hb'. right. eauto.
Qed.

Lemma accuracy_step keys k dl (c c' : Configuration) :
  nonzero' rdv = inr keys → k ∈ keys → dl ∈ defs nanmax nanmin →
  (name <- lift (match cfgmap !! k with
                 | Some name => inr name
                 | None => inl (KeyError k)
                 end) ;;
   let var := dl.1 +:+ name in
   pltng <- cfg_getitem "plotting" ;;
   when (negb (ci_contains var pltng))
     (a <- lift (getattr k) ;;
      v <- lift (dl.2 a) ;;
      cfg_setkey "plotting" var (CFloat v))) c = Ok tt c' →
  added c c' ∧
  ∃ name, cfgmap !! k = Some name ∧ is_Some (entry "plotting" (dl.1 +:+ name) c').
Proof.
  intros Hkeys Hk Hdl. apply (nonzero_spec _ _ Hkeys) in Hk as [Hrdv (a & Ha & Hclose)].
  unfold bind at 1, lift at 1. destruct (cfgmap !! k) as [name|] eqn:Hname; [|done].
  cbv zeta. unfold bind at 1, cfg_getitem, bind at 1, get, lift at 1, ci_getitem, _k.
  change (lower "plotting") with "plotting".
  destruct (c !! "plotting") as [p|] eqn:Hp; [|done].
  destruct (ci_contains (dl.1 +:+ name) p) eqn:Hin; cbn [negb when].
  - intros [= <-]. split; [apply added_refl|]. exists name. split; [done|].
    apply ci_contains_true in Hin. unfold entry, _k.
    change (lower "plotting") with "plotting". by rewrite Hp.
  - apply ci_contains_false in Hin.
    unfold bind at 1, lift at 1. rewrite Ha. unfold bind at 1, lift at 1.
    destruct (dl.2 a) as [|x] eqn:Hx; [done|].
    rewrite cfg_setkey_spec. change (lower "plotting") with "plotting". rewrite Hp.
    intros [= <-]. split; [split; [|split]|].
    + intros s Hs. by rewrite lookup_insert_ne.
    + intros _. rewrite lookup_insert_eq. eauto.
    + intros key. rewrite entry_insert_section.
      change (lower "plotting") with "plotting". rewrite decide_True by done.
      unfold entry, _k. change (lower "plotting") with "plotting". rewrite Hp. simpl.
      destruct (decide (lower (dl.1 +:+ name) = lower key)) as [E|E].
      * rewrite <- E, Hin, lookup_insert_eq. right. eexists. split; [done|].
        exists k, name, a, dl.1, x. split; [done|].
        apply elem_of_cons in Hdl as [->|[->|[]%elem_of_nil]%elem_of_cons];
          (split; [cbn; auto using list_elem_of_here, list_elem_of_further|]); done.
      * rewrite lookup_insert_ne by done. destruct (p !! lower key); [done|by left].
    + exists name. split; [done|]. rewrite entry_insert_section.
      change (lower "plotting") with "plotting". rewrite decide_True by done.
      rewrite lookup_insert_eq. eauto.
Qed.

Lemma added_entry key v (c c' : Configuration) :
  added c c' → entry "plotting" key c = Some v → entry "plotting" key c' = Some v.
Proof. intros (_ & _ & Hb) Hv. specialize (Hb key). by rewrite Hv in Hb. Qed.

Lemma accuracy_loop keys (c c' : Configuration) :
  nonzero' rdv = inr keys →
  for_each keys (λ k,
    for_each (defs nanmax nanmin) (λ dl,
      name <- lift (match cfgmap !! k with
                    | Some name => inr name
                    | None => inl (KeyError k)
                    end) ;;
      let var := dl.1 +:+ name in
      pltng <- cfg_getitem "plotting" ;;
      when (negb (ci_contains var pltng))
        (a <- lift (getattr k) ;;
         v <- lift (dl.2 a) ;;
         cfg_setkey "plotting" var (CFloat v)))) c = Ok tt c' →
  added c c' ∧
  ∀ k dl, k ∈ keys → dl ∈ defs nanmax nanmin →
    ∃ name, cfgmap !! k = Some name ∧ is_Some (entry "plotting" (dl.1 +:+ name) c').
Proof.
  intros Hkeys Hloop.
  assert (∀ k s1 s2, k ∈ keys →
    for_each (defs nanmax nanmin) (λ dl,
      name <- lift (match cfgmap !! k with
                    | Some name => inr name
                    | None => inl (KeyError k)
                    end) ;;
      let var := dl.1 +:+ name in
      pltng <- cfg_getitem "plotting" ;;
      when (negb (ci_contains var pltng))
        (a <- lift (getattr k) ;;
         v <- lift (dl.2 a) ;;
         cfg_setkey "plotting" var (CFloat v))) s1 = Ok tt s2 →
    added s1 s2 ∧
    ∀ dl, dl ∈ defs nanmax nanmin →
      ∃ name, cfgmap !! k = Some name ∧ is_Some (entry "plotting" (dl.1 +:+ name) s2))
    as Hinner.
  { intros k s1 s2 Hk Hin.
    apply (for_each_ok_in added) in Hin as [HR Hin];
      [|apply added_refl|apply added_trans|].
    - split; [done|]. intros dl Hdl.
      destruct (Hin dl Hdl) as (t1 & t2 & _ & Hstep & Ht2).
      apply (accuracy_step keys) in Hstep as [_ (name & Hname & [v Hv])]; [|done..].
      exists name. split; [done|]. exists v. by eapply added_entry.
    - intros dl t1 t2 Hdl Hstep.
      by apply (accuracy_step keys) in Hstep as [? _]. }
  apply (for_each_ok_in added) in Hloop as [HR Hin];
    [|apply added_refl|apply added_trans|].
  - split; [done|]. intros k dl Hk Hdl.
    destruct (Hin k Hk) as (t1 & t2 & _ & Hstep & Ht2).
    apply Hinner in Hstep as [_ Hstep]; [|done].
    destruct (Hstep dl Hdl) as (name & Hname & [v Hv]).
    exists name. split; [done|]. exists v. by eapply added_entry.
  - intros k t1 t2 Hk Hstep. by apply Hinner in Hstep as [? _].
Qed.

(** X19: what completing a configuration from a dataset changes, when
    it returns: [general] gets the number of events as its cell number;
    [plotting] keeps every entry it has and gains, for every measured
    feature, both accuracies, each a tenth of the range of that
    feature's values unless the entry was there; nothing else
    changes. *)
Theorem completion_adds_only (c c' : Configuration) :
  complete' c = Ok tt c' →
  ∃ time n,
    getattr "time" = inr time ∧ shape_0 time = inr n ∧
    entry "general" "cell number" c' = Some (CInt n) ∧
    (∀ sec key,
       lower sec ≠ "plotting" →
       ¬ (lower sec = "general" ∧ lower key = "cell number") →
       entry sec key c' = entry sec key c) ∧
    (∀ key,
       match entry "plotting" key c with
       | Some v => entry "plotting" key c' = Some v
       | None => entry "plotting" key c' = None
                 ∨ ∃ v, entry "plotting" key c' = Some v ∧ accuracy_of' key v
       end) ∧
    (∀ k name a d,
       measured rdv cfgmap getattr allclose_0 k name a →
       d ∈ ["contour accuracy "; "kde multivariate "] →
       is_Some (entry "plotting" (d +:+ name) c')).
Proof.
  unfold _complete_config_from_rtdc_ds.
  intros (keys & c0 & Hkeys & Hrun)%bind_ok.
  unfold lift in Hkeys. destruct (nonzero' rdv) as [|keys0] eqn:Hnz; [done|].
  injection Hkeys as <- <-.
  apply bind_ok in Hrun as (p & cp & Hp & Hrun).
  assert (cp = c) as ->.
  { revert Hp. unfold cfg_getitem, bind, get, lift. by destruct (ci_getitem "plotting" c); intros [= _ <-]. }
  apply bind_ok in Hrun as ([] & c1 & Hloop & Hrun).
  apply (accuracy_loop keys0) in Hloop as [(Hframe & _ & Hplot) Hall]; [|done].
  apply bind_ok in Hrun as (time & c2 & Htime & Hrun).
  unfold lift in Htime. destruct (getattr "time") as [|time0] eqn:Ht; [done|].
  injection Htime as <- <-.
  apply bind_ok in Hrun as (n & c3 & Hn & Hrun).
  unfold lift in Hn. destruct (shape_0 time0) as [|n0] eqn:Hs; [done|].
  injection Hn as <- <-.
  rewrite cfg_setkey_spec in Hrun. change (lower "general") with "general" in Hrun.
  destruct (c1 !! "general") as [g|] eqn:Hg; [|done]. injection Hrun as <-.
  change (lower "cell number") with "cell number".
  exists time0, n0. split; [done|]. split; [done|]. split; [|split; [|split]].
  - rewrite entry_insert_section, decide_True by done.
    change (lower "cell number") with "cell number". by rewrite lookup_insert_eq.
  - intros sec key Hsec Hcell. rewrite entry_insert_section.
    destruct (decide ("general" = lower sec)) as [E|E].
    + assert (lower key ≠ "cell number") as Hkey by (intros ?; by apply Hcell).
      rewrite lookup_insert_ne by done.
      unfold entry, _k. rewrite <- E, <- (Hframe "general"), Hg by done. done.
    + unfold entry, _k. by rewrite Hframe.
  - intros key. rewrite entry_insert_section.
    change (lower "plotting") with "plotting". rewrite decide_False by done. apply Hplot.
  - intros k name a d (Hrdv & Hname & Ha & Hclose) Hd.
    assert (k ∈ keys0) as Hk by (apply (nonzero_spec _ _ Hnz); eauto).
    rewrite entry_insert_section.
    change (lower "plotting") with "plotting". rewrite decide_False by done.
    apply elem_of_cons in Hd as [->|[->|[]%elem_of_nil]%elem_of_cons].
    + destruct (Hall k ("contour accuracy ", accl nanmax nanmin) Hk) as (name' & Hn' & Hv);
        [by left|]. rewrite Hname in Hn'. by injection Hn' as <-.
    + destruct (Hall k ("kde multivariate ", accl nanmax nanmin) Hk) as (name' & Hn' & Hv);
        [right; by left|]. rewrite Hname in Hn'. by injection Hn' as <-.
Qed.

End WithDataset.

Lemma completion_adds_only_witness :
  _complete_config_from_rtdc_ds DatasetFixture.rdv DatasetFixture.cfgmap
    DatasetFixture.getattr DatasetFixture.allclose_0 DatasetFixture.nanmax
    DatasetFixture.nanmin DatasetFixture.shape_0 Fixture.built
  = Ok tt DatasetFixture.completed ∧
  entry "general" "cell number" DatasetFixture.completed = Some (CInt 3) ∧
  entry "plotting" "area max" DatasetFixture.completed = Some (CFloat 200) ∧
  is_Some (entry "plotting" "contour accuracy area" DatasetFixture.completed).
Proof.
  assert (_complete_config_from_rtdc_ds DatasetFixture.rdv DatasetFixture.cfgmap
            DatasetFixture.getattr DatasetFixture.allclose_0 DatasetFixture.nanmax
            DatasetFixture.nanmin DatasetFixture.shape_0 Fixture.built
          = Ok tt DatasetFixture.completed) as Hrun
    by (apply not_raised_ok; vm_compute; reflexivity).
  split; [exact Hrun|].
  destruct (completion_adds_only _ _ _ _ _ _ _ _ _ Hrun)
    as (time & n & Htime & Hn & Hcell & _ & Hkept & Hall).
  split; [|split].
  - rewrite Hcell. injection Htime as <-. by injection Hn as <-.
  - apply (Hkept "area max").
  - apply (Hall "area" "area" [100; 120; 105]%float "contour accuracy ").
    + split; [by left|]. split; [reflexivity|]. split; [reflexivity|].
      vm_compute. reflexivity.
    + by left.
Defined.

End DatasetMore.

(** ** Hierarchy children, continued *)

Module HierarchyMore.
Import Config ConfigNotions Np Hierarchy HierarchyNotions ConfigProps ConfigMore HierarchyProps.

Section Facts.

Context {D : Type} `{RTDCBase D}.
Variable base : inherited D.
Variable uid : list string.
Variable default : source.

Lemma Configuration_new_init cfg (c : gmap string (gmap string cfgval)) :
  Configuration_new uid default cfg = inr c →
  Configuration_init uid default [] cfg = Ok tt c.
Proof.
  unfold Configuration_new.
  destruct (Configuration_init uid default [] cfg) as [[] c'|]; [|done].
  by intros [= ->].
Qed.

Lemma init_runs (parent p' : D) :
  base_manages_filters base →
  complete (ds_config parent) →
  ds_apply_filter parent = Ok tt p' →
  ∃ cfg filtering cfg' s1 child,
    Configuration_new uid default (items (ds_config parent)) = inr cfg ∧
    cfg !! "filtering" = Some filtering ∧
    Configuration_new uid default
      (items (ci_setitem "filtering" (child_filtering parent filtering) cfg)) = inr cfg' ∧
    path s1 = ds_path parent ∧
    title s1 = ds_title parent +:+ "_child" ∧
    config s1 = cfg' ∧
    apply_filter base s1 = Ok tt child ∧
    __init__ uid default base parent = Ok tt child ∧
    hparent child = p' ∧
    _events child
      = <["index" := NdArray (arange 1 (sum_bool (ds_filter p') + 1))]> ∅.
Proof.
  intros Hbase Hcfg Hp. pose proof Hbase as (Hinit & _ & _).
  destruct (Hinit (blank parent)) as (s0 & Hs0 & Hp0 & He0 & Hm0).
  destruct (Configuration_new_complete uid default _ Hcfg) as (cfg & Hcfg1 & Hc1).
  pose proof Hc1 as (_ & _ & [filtering Hf]).
  assert (ci_getitem "filtering" cfg = inr filtering) as Hget.
  { unfold ci_getitem. change (_k "filtering") with "filtering". by rewrite Hf. }
  assert (complete (ci_setitem "filtering" (child_filtering parent filtering) cfg)) as Hc2.
  { destruct Hc1 as (Hw & Hpl & _). unfold ci_setitem at 1.
    change (_k "filtering") with "filtering". split; [|split].
    - unfold entry in *. change (_k "general") with "general" in *.
      by rewrite lookup_insert_ne.
    - by rewrite lookup_insert_ne.
    - rewrite lookup_insert_eq. eauto. }
  destruct (Configuration_new_complete uid default _ Hc2) as (cfg' & Hcfg2 & _).
  set (s1 := set_config cfg'
               (set_hparent parent
                  (set_path_title (ds_path parent) (ds_title parent +:+ "_child")
                     (set_events ∅ s0)))).
  destruct (apply_filter_ok base s1 p' Hbase) as (child & Hchild & Hpar & Hev & _);
    [exact Hp|by apply Hm0|].
  exists cfg, filtering, cfg', s1, child.
  split; [done|]. split; [done|]. split; [done|].
  split; [done|]. split; [done|]. split; [done|]. split; [done|]. split.
  { unfold __init__, bind. rewrite Hs0. unfold modify, lift.
    rewrite Hcfg1, Hget. fold (child_filtering parent filtering).
    rewrite Hcfg2. exact Hchild. }
  split; [done|]. by rewrite Hev.
Qed.

(** X8: every feature of a hierarchy child has [len(child)] entries.
    For a parent whose arrays and filter have one entry per event and
    whose filter is settled once applied, the constructed child reports
    the number of selected events as its length, and every array it hands
    out, the cached [index] as well as the features read through the
    parent's filter, has that many entries. *)
Theorem features_have_len (parent p' : D) :
  base_manages_filters base →
  complete (ds_config parent) →
  ds_apply_filter parent = Ok tt p' →
  ds_apply_filter p' = Ok tt p' →
  (∀ key a, ds_getitem p' key = inr (NdArray a) →
            length a = length (ds_filter p')) →
  ∃ child,
    __init__ uid default base parent = Ok tt child ∧
    __len__ child = Ok (sum_bool (ds_filter p')) child ∧
    ∀ key a,
      __getitem__ child key = inr (NdArray a) →
      Z.of_nat (length a) = sum_bool (ds_filter p').
Proof.
  intros Hbase Hcfg Hp Hp' Hshape.
  destruct (init_runs parent p' Hbase Hcfg Hp)
    as (cfg & filtering & cfg' & s1 & child & _ & _ & _ & _ & _ & _ & _ & Hinit & Hpar & Hev).
  exists child. split; [exact Hinit|]. split.
  - unfold __len__, bind, on_parent, get, ret. rewrite Hpar, Hp'.
    assert (set_hparent p' child = child) as ->
      by (rewrite <- Hpar; apply set_hparent_same).
    by rewrite Hpar.
  - intros key a. unfold __getitem__. rewrite Hev.
    destruct (decide (key = "index")) as [->|Hne].
    + rewrite lookup_insert_eq. intros [= <-].
      apply length_arange, sum_bool_nonneg.
    + rewrite lookup_insert_ne, lookup_empty by done. rewrite Hpar.
      destruct (ds_getitem p' key) as [e|[a0|repr]] eqn:Hget; [done| |done].
      unfold bool_index. rewrite decide_True by (symmetry; by apply (Hshape key)).
      intros [= <-]. apply sum_bool_select. symmetry. by apply (Hshape key).
Qed.

Lemma apply_filter_identity (s s' : RTDC_Hierarchy D) :
  keeps_identity (_init_filters base) →
  keeps_identity (RTDCBase_apply_filter base) →
  apply_filter base s = Ok tt s' →
  path s' = path s ∧ title s' = title s ∧ config s' = config s.
Proof.
  intros Hinit Happly. unfold apply_filter.
  intros ([] & s1 & H1 & H2)%bind_ok.
  apply bind_ok in H2 as (self & s2 & [= <- <-] & H2).
  apply bind_ok in H2 as ([] & s3 & [= <-] & H2).
  apply bind_ok in H2 as ([] & s4 & H4 & H2).
  apply bind_ok in H2 as ([] & s5 & [= <-] & H2).
  apply bind_ok in H2 as (self' & s6 & [= <- <-] & H2).
  apply bind_ok in H2 as ([] & s7 & H7 & H8).
  assert (s7 = set_old_filters ∅ s4) as ->.
  { unfold when in H7. destruct (manual_excludes _); [done|]. by injection H7 as <-. }
  destruct (Happly _ _ H8) as (F1 & F2 & F3). destruct (Hinit _ _ H4) as (E1 & E2 & E3).
  rewrite F1, F2, F3. simpl. rewrite E1, E2, E3. simpl.
  unfold on_parent in H1. destruct (ds_apply_filter (hparent s)) as [[] p|]; [|done].
  injection H1 as <-. done.
Qed.

Lemma pops_lookup (d : gmap string cfgval) (pops : list string) k :
  foldr ci_pop d pops !! k
  = if decide (k ∈ lower <$> pops) then None else d !! k.
Proof.
  induction pops as [|p pops IH]; [done|]. cbn [foldr fmap list_fmap].
  change (ci_pop p (foldr ci_pop d pops))
    with (delete (lower p) (foldr ci_pop d pops)).
  destruct (decide (k = lower p)) as [->|Hne].
  - rewrite lookup_delete_eq, decide_True; [done|]. by left.
  - rewrite lookup_delete_ne, IH by done.
    destruct (decide (k ∈ lower <$> pops)) as [Hin|Hin].
    + rewrite decide_True; [done|]. by right.
    + rewrite decide_False; [done|]. by intros [?|?]%elem_of_cons.
Qed.

Lemma child_filtering_lookup (parent : D) (filtering : gmap string cfgval) k :
  (∀ x, is_Some (filtering !! x) → lower x = x) →
  child_filtering parent filtering !! k
  = if decide (k = "hierarchy parent") then Some (CStr (ds_identifier parent))
    else if is_applied_filter k then None
    else filtering !! k.
Proof.
  intros Hlow. unfold child_filtering, ci_setitem.
  change (_k "hierarchy parent") with "hierarchy parent".
  destruct (decide (k = "hierarchy parent")) as [->|Hne].
  { by rewrite lookup_insert_eq. }
  rewrite lookup_insert_ne, pops_lookup by done.
  set (pops := List.filter is_applied_filter (fst <$> map_to_list filtering)).
  destruct (decide (k ∈ lower <$> pops)) as [Hin|Hin].
  - apply list_elem_of_fmap in Hin as (p & -> & Hp).
    apply list_elem_of_In, filter_In in Hp as [Hp Happ].
    apply list_elem_of_In, list_elem_of_fmap in Hp as ([p' v] & -> & Hp).
    apply elem_of_map_to_list in Hp. simpl in *.
    rewrite (Hlow p') by eauto. by rewrite Happ.
  - destruct (filtering !! k) as [v|] eqn:Hk; [|by destruct (is_applied_filter k)].
    destruct (is_applied_filter k) eqn:Happ; [|done].
    destruct Hin. apply list_elem_of_fmap. exists k. split; [symmetry; apply Hlow; eauto|].
    apply list_elem_of_In, filter_In. split; [|done].
    apply list_elem_of_In, list_elem_of_fmap. exists (k, v). split; [done|].
    by apply elem_of_map_to_list.
Qed.

(** X9: a hierarchy child does not inherit the filters applied to its
    parent. The constructed child has the parent's path, the parent's
    title with [_child] appended and the parent's identifier under
    [filtering: hierarchy parent]; every filter limit (a key of
    [filtering] that ends in [min] or [max]) and the polygon filters are
    those of the default configuration, or the integer 0 where the
    defaults name none and [_fix_config] fills one in, whatever the
    parent's configuration holds there. *)
Theorem child_filters_reset (parent p' : D) :
  base_manages_filters base →
  keeps_identity (_init_filters base) →
  keeps_identity (RTDCBase_apply_filter base) →
  complete (ds_config parent) →
  ds_apply_filter parent = Ok tt p' →
  ∃ child,
    __init__ uid default base parent = Ok tt child ∧
    path child = ds_path parent ∧
    title child = ds_title parent +:+ "_child" ∧
    entry "filtering" "hierarchy parent" (config child)
      = Some (CStr (ds_identifier parent)) ∧
    ∀ key,
      is_applied_filter (lower key) = true →
      entry "filtering" key (config child) = assigned "filtering" key default
      ∨ (assigned "filtering" key default = None ∧
         entry "filtering" key (config child) = Some (CInt 0)).
Proof.
  intros Hbase Hid1 Hid2 Hcfg Hp.
  destruct (init_runs parent p' Hbase Hcfg Hp)
    as (cfg & filtering & cfg' & s1 & child & Hcfg1 & Hf & Hcfg2 & Hpath & Htitle & Hconfig
        & Hrun & Hinit & _ & _).
  destruct (apply_filter_identity s1 child Hid1 Hid2 Hrun) as (Ep & Et & Ec).
  exists child. split; [exact Hinit|].
  split; [by rewrite Ep|]. split; [by rewrite Et|].
  rewrite Ec, Hconfig.
  apply Configuration_new_init in Hcfg1, Hcfg2.
  pose proof (Configuration_init_lowered _ _ _ _ _ Hcfg1) as Hlow.
  assert (∀ x, is_Some (filtering !! x) → lower x = x) as Hlowf
    by (by destruct (Hlow _ _ Hf)).
  set (cfg1 := ci_setitem "filtering" (child_filtering parent filtering) cfg) in *.
  assert (lowered cfg1) as Hlow1.
  { intros s d. unfold cfg1, ci_setitem at 1. change (_k "filtering") with "filtering".
    destruct (decide (s = "filtering")) as [->|Hne].
    - rewrite lookup_insert_eq. intros [= <-]. split; [done|].
      intros k. rewrite child_filtering_lookup by done.
      destruct (decide (k = "hierarchy parent")) as [->|]; [done|].
      destruct (is_applied_filter k); [by intros [? ?]|]. apply Hlowf.
    - rewrite lookup_insert_ne by done. apply Hlow. }
  assert (∀ key, entry "filtering" key cfg1
                 = child_filtering parent filtering !! lower key) as Hent.
  { intros key. unfold cfg1, ci_setitem at 1. rewrite entry_insert_section.
    by rewrite decide_True. }
  split.
  - destruct (Configuration_init_entry _ _ _ _ "filtering" "hierarchy parent" Hcfg2)
      as [E|[E _]]; [done| |];
      rewrite assigned_items, Hent, child_filtering_lookup in E by done;
      rewrite decide_True in E by done; done.
  - intros key Happ.
    destruct (Configuration_init_entry _ _ _ _ "filtering" key Hcfg2)
      as [E|[E1 E2]]; [done| |];
      rewrite assigned_items, Hent, child_filtering_lookup in * by done.
    + left. rewrite E. rewrite decide_False, Happ; [done|].
      intros Hk. by rewrite Hk in Happ.
    + right. split; [|done]. revert E1. rewrite decide_False, Happ; [done|].
      intros Hk. by rewrite Hk in Happ.
Qed.

End Facts.

Lemma fixture_keeps_identity :
  keeps_identity (_init_filters Fixture.base) ∧
  keeps_identity (RTDCBase_apply_filter Fixture.base).
Proof.
  split; intros self self' [= <-]; by destruct self.
Qed.

Lemma features_have_len_witness :
  ∃ child,
    __init__ Fixture.uid Fixture.default Fixture.base Fixture.parent_three
      = Ok tt child ∧
    __len__ child = Ok 3 child.
Proof.
  destruct (features_have_len Fixture.base Fixture.uid Fixture.default
              Fixture.parent_three (Fixture.dd_resolve Fixture.parent_three))
    as (child & Hinit & Hlen & _).
  - apply fixture_base_manages_filters.
  - apply fixture_built_complete.
  - reflexivity.
  - reflexivity.
  - intros key a. simpl. unfold Fixture.events10.
    destruct (decide (key = "area")) as [->|Hne].
    + rewrite lookup_insert_eq. by intros [= <-].
    + rewrite lookup_insert_ne by done.
      destruct (decide (key = "contour")) as [->|Hne'].
      * by rewrite lookup_singleton_eq.
      * by rewrite lookup_singleton_ne.
  - exists child. split; [exact Hinit|exact Hlen].
Defined.

Lemma child_filters_reset_witness :
  ∃ child,
    __init__ Fixture.uid Fixture.default Fixture.base Fixture.parent_three
      = Ok tt child ∧
    title child = "parent_child" ∧
    entry "filtering" "hierarchy parent" (config child) = Some (CStr "mm-dict_0") ∧
    entry "filtering" "defo min" Fixture.built = Some (CFloat 0.01) ∧
    entry "filtering" "defo min" (config child) = Some (CInt 0).
Proof.
  destruct (child_filters_reset Fixture.base Fixture.uid Fixture.default
              Fixture.parent_three (Fixture.dd_resolve Fixture.parent_three))
    as (child & Hinit & _ & Htitle & Hparent & Hreset).
  - apply fixture_base_manages_filters.
  - apply fixture_keeps_identity.
  - apply fixture_keeps_identity.
  - apply fixture_built_complete.
  - reflexivity.
  - exists child. split; [exact Hinit|]. split; [exact Htitle|].
    split; [exact Hparent|]. split; [by vm_compute|].
    assert (child = state_after (__init__ Fixture.uid Fixture.default Fixture.base
                                   Fixture.parent_three)) as ->
      by (by rewrite Hinit).
    vm_compute. reflexivity.
Defined.

End HierarchyMore.
(** ** Dictionary datasets *)

Module DictMore.
Import Config Np PyText CaseInsensitive ConfigDataset FmtDict DictNotions ConfigProps PyFacts
  ConfigMore.

Section Facts.

Context {B : Type}.
Variable RTDCBase_init : M (RTDC_Dict B) unit.
Variable _init_filters : M (RTDC_Dict B) unit.
Variable localtime : Z * Z * Z.
Variable md5_hexdigest : ndarray → string.
Variable cfgmaprev : gmap string string.
Variable rdv : list string.
Variable uid : list string.
Variable default : source.
Variable cfgmap : gmap string string.
Variable getattr : RTDC_Dict B → string → exn + ndarray.
Variable allclose_0 : ndarray → exn + bool.
Variable nanmax : ndarray → exn + float.
Variable nanmin : ndarray → exn + float.
Variable shape_0 : ndarray → exn + Z.

Local Abbreviation init :=
  (__init__ RTDCBase_init _init_filters localtime md5_hexdigest cfgmaprev rdv uid default
     cfgmap getattr allclose_0 nanmax nanmin shape_0).

Lemma set_events_id (self : RTDC_Dict B) : set_events (_events self) self = self.
Proof. by destruct self. Qed.

Lemma populate_spec (d : gmap string ndarray) keys (self self' : RTDC_Dict B) :
  for_each keys (λ key,
    kk <- lift (match cfgmaprev !! lower key with
                | Some kk => inr kk
                | None => inl (KeyError (lower key))
                end) ;;
    column <- lift (dict_getitem d key) ;;
    modify (λ self, set_events (<[kk := column]> (_events self)) self)) self = Ok tt self' →
  ∃ ev, self' = set_events ev self ∧
    ∀ kk, ev !! kk = match column_key cfgmaprev keys kk with
                     | Some key => d !! key
                     | None => _events self !! kk
                     end.
Proof.
  revert self. induction keys as [|key keys IH]; intros self.
  - intros [= <-]. exists (_events self). by rewrite set_events_id.
  - cbn [for_each]. unfold bind at 1, bind at 1, lift at 1.
    destruct (cfgmaprev !! lower key) as [kk0|] eqn:Hkk; [|done].
    unfold bind at 1, lift at 1, dict_getitem.
    destruct (d !! key) as [column|] eqn:Hcol; [|done].
    unfold modify at 1. intros (ev & -> & Hev)%IH.
    exists ev. split; [done|]. intros kk. rewrite Hev. unfold column_key.
    rewrite filter_cons. cbn [_events set_events].
    destruct (decide (cfgmaprev !! lower key = Some kk)) as [E|E].
    + rewrite last_cons. destruct (last _); [done|].
      rewrite Hkk in E. injection E as ->. by rewrite lookup_insert_eq.
    + destruct (last _); [done|]. rewrite lookup_insert_ne; [done|]. congruence.
Qed.

Lemma fill_spec_columns fill0 keys (self : RTDC_Dict B) :
  ∃ ev,
    for_each keys (λ key,
      self <- get ;;
      when (negb (bool_decide (is_Some (_events self !! key))))
           (modify (λ self, set_events (<[key := fill0]> (_events self)) self))) self
    = Ok tt (set_events ev self) ∧
    ∀ kk, ev !! kk = match _events self !! kk with
                     | Some v => Some v
                     | None => if decide (kk ∈ keys) then Some fill0 else None
                     end.
Proof.
  revert self. induction keys as [|key keys IH]; intros self.
  - exists (_events self). rewrite set_events_id. split; [done|].
    intros kk. destruct (_events self !! kk); [done|].
    by rewrite decide_False by apply not_elem_of_nil.
  - cbn [for_each]. unfold bind at 1, bind at 1, get at 1.
    destruct (_events self !! key) as [v|] eqn:Hkey.
    + rewrite bool_decide_eq_true_2 by eauto. cbn [negb when]. unfold ret.
      destruct (IH self) as (ev & -> & Hev). exists ev. split; [done|].
      intros kk. rewrite Hev. destruct (_events self !! kk) eqn:E; [done|].
      destruct (decide (kk = key)) as [->|Hne]; [congruence|].
      destruct (decide (kk ∈ keys)).
      * by rewrite decide_True by (by right).
      * by rewrite decide_False by (by intros [?|?]%elem_of_cons).
    + rewrite bool_decide_eq_false_2 by (by intros [? ?]). cbn [negb when].
      unfold modify at 1.
      destruct (IH (set_events (<[key := fill0]> (_events self)) self)) as (ev & -> & Hev).
      exists ev. split; [done|]. intros kk. rewrite Hev. cbn [_events set_events].
      destruct (decide (kk = key)) as [->|Hne].
      * rewrite lookup_insert_eq, Hkey. by rewrite decide_True by (by left).
      * rewrite lookup_insert_ne by done. destruct (_events self !! kk); [done|].
        destruct (decide (kk ∈ keys)).
        -- by rewrite decide_True by (by right).
        -- by rewrite decide_False by (by intros [?|?]%elem_of_cons).
Qed.

(** X20: the columns of a dictionary dataset. A dataset constructed
    without an exception has the path [none] and holds, under every
    feature name, the column of the last key of [ddict] that
    [cfgmaprev] maps to that name, the key read in lower case; under a
    name of [rdv] that no key maps to, zeros, as many as the first column
    of [ddict] has entries; and nothing under any other name. *)
Theorem dict_columns (ddict : list (string * ndarray)) (b : B) (self : RTDC_Dict B)
    (Hbase : keeps_assigned _init_filters) :
  init ddict b = Ok tt self →
  ∃ key0 column0,
    head (dict_keys [] ddict) = Some key0 ∧
    dict ddict !! key0 = Some column0 ∧
    path self = "none" ∧
    ∀ kk, _events self !! kk =
      match column_key cfgmaprev (dict_keys [] ddict) kk with
      | Some key => dict ddict !! key
      | None => if decide (kk ∈ rdv) then Some (zeros (length column0)) else None
      end.
Proof.
  unfold __init__.
  intros ([] & s0 & Hassert & Hrun)%bind_ok.
  apply bind_ok in Hrun as ([] & s1 & Hbase_init & Hrun). cbv zeta in Hrun.
  apply bind_ok in Hrun as (k0 & s1' & Hk0 & Hrun).
  apply bind_ok in Hrun as (col0 & s1'' & Hcol0 & Hrun).
  apply bind_ok in Hrun as ([] & s2 & Hids & Hrun).
  apply bind_ok in Hrun as ([] & s3 & Hpath & Hrun).
  apply bind_ok in Hrun as ([] & s4 & Htitle & Hrun).
  apply bind_ok in Hrun as ([] & s5 & Hevents & Hrun).
  apply bind_ok in Hrun as ([] & s6 & Hpop & Hrun).
  apply bind_ok in Hrun as (key0 & s6' & Hkey0 & Hrun).
  apply bind_ok in Hrun as (column0 & s6'' & Hcolumn0 & Hrun).
  apply bind_ok in Hrun as ([] & s7 & Hfill & Hrun).
  apply bind_ok in Hrun as (s7' & s7'' & Hget & Hrun).
  apply bind_ok in Hrun as ([] & s8 & Hcfg & Hfilters).
  injection Hids as <-. injection Hpath as <-. injection Htitle as <-.
  injection Hevents as <-. injection Hget as <- <-.
  unfold lift in Hkey0, Hcolumn0.
  destruct (first_key (dict_keys [] ddict)) as [|key0'] eqn:Hfirst; [done|].
  injection Hkey0 as <- <-.
  destruct (dict_getitem (dict ddict) key0') as [|column0'] eqn:Hget0; [done|].
  injection Hcolumn0 as <- <-.
  apply populate_spec in Hpop as (ev & -> & Hev).
  destruct (fill_spec_columns (zeros (length column0')) rdv
              (set_events ev (set_events ∅ (set_title
                 (pretty localtime.1.1 +:+ "_" +:+ format_02d localtime.1.2 +:+ "_"
                  +:+ format_02d localtime.2 +:+ "/" +:+ md5_hexdigest col0 +:+ ".dict")
                 (set_path "none" (set_ids (md5_hexdigest col0) s1''))))))
    as (ev' & Hfill' & Hev').
  rewrite Hfill' in Hfill. injection Hfill as <-.
  assert (path s8 = "none" ∧ _events s8 = ev') as [Hp8 He8].
  { revert Hcfg. destruct (Configuration_init_ds _ _ _ _ _ _ _ _ _ _ _); [|done].
    by intros [= <-]. }
  destruct (Hbase _ _ Hfilters) as (_ & Hp & _ & He & _).
  exists key0', column0'. split; [|split; [|split]].
  - unfold first_key in Hfirst. destruct (dict_keys [] ddict); [done|].
    by injection Hfirst as ->.
  - unfold dict_getitem in Hget0. destruct (dict ddict !! key0'); [|done].
    by injection Hget0 as ->.
  - by rewrite Hp, Hp8.
  - intros kk. rewrite He, He8, Hev'. cbn [_events set_events]. rewrite Hev.
    cbn [_events set_events]. rewrite lookup_empty.
    destruct (column_key cfgmaprev (dict_keys [] ddict) kk) as [key|] eqn:Hkey; [|done].
    assert (is_Some (dict ddict !! key)) as [v ->]; [|done].
    apply last_Some_elem_of, list_elem_of_filter in Hkey as [_ Hkey].
    apply dict_keys_spec in Hkey as [Hkey _]. apply dict_lookup_acc. by right.
Qed.

Lemma populate_returns (d : gmap string ndarray) keys (self : RTDC_Dict B) :
  Forall (λ key, is_Some (cfgmaprev !! lower key) ∧ is_Some (d !! key)) keys →
  ∃ self',
    for_each keys (λ key,
      kk <- lift (match cfgmaprev !! lower key with
                  | Some kk => inr kk
                  | None => inl (KeyError (lower key))
                  end) ;;
      column <- lift (dict_getitem d key) ;;
      modify (λ self, set_events (<[kk := column]> (_events self)) self)) self = Ok tt self'.
Proof.
  intros Hall. revert self. induction Hall as [|key keys [[kk Hkk] [v Hv]] _ IH]; intros self.
  - by eexists.
  - cbn [for_each]. unfold bind at 1, bind at 1, lift at 1. rewrite Hkk.
    unfold bind at 1, lift at 1, dict_getitem. rewrite Hv. unfold modify at 1. apply IH.
Qed.

(** X21: a key of [ddict] that is no known feature name ends the
    construction: when the constructor of the base class returns, the
    first key in iteration order that [cfgmaprev] does not map, read in
    lower case, is raised as a [KeyError]. *)
Theorem dict_unknown_key (ddict : list (string * ndarray)) (b : B) (s1 : RTDC_Dict B)
    (pre : list string) (key : string) (rest : list string) :
  RTDCBase_init (blank b) = Ok tt s1 →
  dict_keys [] ddict = (pre ++ key :: rest)%list →
  Forall (λ k, is_Some (cfgmaprev !! lower k)) pre →
  cfgmaprev !! lower key = None →
  ∃ s, init ddict b = Raise (KeyError (lower key)) s.
Proof.
  intros Hinit Hkeys Hpre Hkey.
  destruct (dict_keys_spec ddict []) as [_ Hel].
  assert (∀ k, k ∈ dict_keys [] ddict → is_Some (dict ddict !! k)) as Hin.
  { intros k [Hk _]%Hel. apply dict_lookup_acc. by right. }
  unfold __init__. unfold bind at 1.
  destruct ddict as [|kv ddict'] eqn:Hdd; [by destruct pre|]. rewrite <- Hdd in *.
  cbn [when]. unfold ret at 1. unfold bind at 1. rewrite Hinit. cbv zeta.
  destruct (sorted (dict_keys [] ddict)) as [|k0 ks] eqn:Hsorted.
  { pose proof (sorted_perm (dict_keys [] ddict)) as Hperm. rewrite Hsorted, Hkeys in Hperm.
    apply Permutation_nil_l in Hperm. by destruct pre. }
  unfold bind at 1, lift at 1. cbn [first_key].
  destruct (Hin k0) as [col0 Hcol0].
  { rewrite <- sorted_perm, Hsorted. by left. }
  unfold bind at 1, lift at 1, dict_getitem at 1. rewrite Hcol0.
  do 4 (unfold bind at 1, modify at 1).
  rewrite Hkeys. unfold bind at 1. rewrite for_each_app. unfold bind at 1.
  match goal with
  | |- context [for_each pre ?body ?s] =>
      destruct (populate_returns (dict ddict) pre s) as [s' ->]
  end.
  { apply Forall_forall. intros k Hk. split.
    - by apply (proj1 (Forall_forall _ _) Hpre).
    - apply Hin. rewrite Hkeys. apply elem_of_app. by left. }
  cbn [for_each]. unfold bind at 1, bind at 1, lift at 1. rewrite Hkey. by eexists.
Qed.

End Facts.

Lemma dict_columns_witness :
  ∃ key0 column0,
    head (dict_keys [] DictFixture.ddict) = Some key0 ∧
    dict DictFixture.ddict !! key0 = Some column0 ∧
    path DictFixture.dataset = "none" ∧
    ∀ kk, _events DictFixture.dataset !! kk =
      match column_key DictFixture.cfgmaprev (dict_keys [] DictFixture.ddict) kk with
      | Some key => dict DictFixture.ddict !! key
      | None => if decide (kk ∈ DictFixture.rdv) then Some (zeros (length column0)) else None
      end.
Proof.
  apply (dict_columns (ret tt) (ret tt) (2026, 11, 4) (λ _, "d41d8cd9")
           DictFixture.cfgmaprev DictFixture.rdv
           Fixture.uid Fixture.default DatasetFixture.cfgmap DictFixture.getattr
           (λ a, DatasetFixture.allclose_0 (DictFixture.floats a))
           (λ a, DatasetFixture.nanmax (DictFixture.floats a))
           (λ a, DatasetFixture.nanmin (DictFixture.floats a))
           (λ a, inr (Z.of_nat (length a)))
           DictFixture.ddict tt).
  - intros self self' [= <-]. done.
  - apply not_raised_ok. vm_compute. reflexivity.
Defined.

Lemma dict_unknown_key_witness :
  ∃ s, __init__ (ret tt) (ret tt) (2026, 11, 4) (λ _, "d41d8cd9")
         DictFixture.cfgmaprev DictFixture.rdv
         Fixture.uid Fixture.default DatasetFixture.cfgmap DictFixture.getattr
         (λ a, DatasetFixture.allclose_0 (DictFixture.floats a))
         (λ a, DatasetFixture.nanmax (DictFixture.floats a))
         (λ a, DatasetFixture.nanmin (DictFixture.floats a))
         (λ a, inr (Z.of_nat (length a)))
         [("Area", [Float 100]); ("Volume", [Float 900])] tt
       = Raise (KeyError "volume") s.
Proof.
  apply (dict_unknown_key (ret tt) (ret tt) (2026, 11, 4) (λ _, "d41d8cd9")
           DictFixture.cfgmaprev DictFixture.rdv
           Fixture.uid Fixture.default DatasetFixture.cfgmap DictFixture.getattr
           (λ a, DatasetFixture.allclose_0 (DictFixture.floats a))
           (λ a, DatasetFixture.nanmax (DictFixture.floats a))
           (λ a, DatasetFixture.nanmin (DictFixture.floats a))
           (λ a, inr (Z.of_nat (length a)))
           [("Area", [Float 100]); ("Volume", [Float 900])] tt
           (blank tt) ["Area"] "Volume" []).
  - reflexivity.
  - reflexivity.
  - repeat constructor. vm_compute. eauto.
  - reflexivity.
Defined.

End DictMore.
(** ** The container writer, continued *)

Module WriterMore.
Import Config Np H5 Writer WriterSteps WriterNotions ConfigProps PyFacts WriterProps.

Lemma checks_only_lift {S A} (r : exn + A) : checks_only (S := S) (lift r).
Proof. by exists r. Qed.

Lemma checks_only_ret {S A} (a : A) : checks_only (S := S) (ret a).
Proof. by exists (inr a). Qed.

Lemma checks_only_raise {S A} e : checks_only (S := S) (A := A) (raise e).
Proof. by exists (inl e). Qed.

Lemma checks_only_bind {S A B} (m : M S A) (k : A → M S B) :
  checks_only m → (∀ a, checks_only (k a)) → checks_only (bind m k).
Proof.
  intros [[e|a] Hm] Hk.
  - exists (inl e). intros s. unfold bind. by rewrite Hm.
  - destruct (Hk a) as [r Hr]. exists r. intros s. unfold bind. rewrite Hm. apply Hr.
Qed.

Lemma checks_only_when {S} (cond : bool) (m : M S unit) :
  checks_only m → checks_only (when cond m).
Proof. intros Hm. destruct cond; [done|apply checks_only_ret]. Qed.

Lemma checks_only_for_each {S A} (l : list A) (body : A → M S unit) :
  (∀ x, checks_only (body x)) → checks_only (for_each l body).
Proof.
  intros Hbody. induction l as [|x l IH]; [apply checks_only_ret|].
  apply checks_only_bind; [apply Hbody|done].
Qed.

Section Facts.

Variable config_keys : gmap string (list string).
Variable config_types : gmap string (gmap string (cfgval → exn + cfgval)).
Variable feature_names : list string.
Variable FLUOR_TRACES : list string.
Variable version : string.

Local Abbreviation write' := (write config_keys config_types feature_names FLUOR_TRACES version).

Lemma check_meta_checks_only {S} meta :
  checks_only (S := S) (check_meta config_keys meta).
Proof.
  apply checks_only_for_each. intros [sec keys].
  destruct (config_keys !! sec) as [known|]; [|apply checks_only_raise].
  apply checks_only_for_each. intros [ck v].
  apply checks_only_when, checks_only_raise.
Qed.

Lemma check_trace_keys_checks_only {S} value :
  checks_only (S := S) (check_trace_keys FLUOR_TRACES value).
Proof.
  destruct value as [x|[|x a]|[|x l]|d]; simpl;
    try apply checks_only_ret; try apply checks_only_raise.
  apply checks_only_for_each. intros [sk v].
  apply checks_only_when, checks_only_raise.
Qed.

Lemma check_features_checks_only {S} data :
  checks_only (S := S) (check_features feature_names FLUOR_TRACES data).
Proof.
  apply checks_only_bind; [|intros; apply checks_only_ret].
  apply checks_only_for_each. intros [kk value].
  apply checks_only_bind; [apply checks_only_when, checks_only_raise|].
  intros _. apply checks_only_when, check_trace_keys_checks_only.
Qed.

Local Abbreviation write_checks' :=
  (write_checks config_keys feature_names FLUOR_TRACES).
Local Abbreviation write_body' := (write_body config_types feature_names version).
Local Abbreviation write_steps' := (write_steps config_types feature_names version).

Lemma write_checks_only {S} data meta mode :
  checks_only (S := S) (write_checks' data meta mode).
Proof.
  apply checks_only_bind; [apply checks_only_when, checks_only_raise|]. intros _.
  apply checks_only_bind; [apply checks_only_lift|]. intros items.
  apply checks_only_bind; [apply check_meta_checks_only|]. intros _.
  apply checks_only_bind; [apply check_features_checks_only|]. intros ks.
  apply checks_only_ret.
Qed.

Lemma write_split tgt data meta logs mode fs :
  write' tgt data meta logs mode fs
  = bind (write_checks' data meta mode)
      (λ checked, write_body' tgt checked.1 meta logs mode checked.2) fs.
Proof.
  unfold write, write_checks, write_body.
  rewrite !bind_assoc. apply bind_ext. intros _ s1.
  rewrite !bind_assoc. apply bind_ext. intros items s2.
  rewrite !bind_assoc. apply bind_ext. intros _ s3.
  rewrite !bind_assoc. apply bind_ext. intros ks s4. done.
Qed.

Lemma write_body_file tgt p items meta logs mode ks fs f :
  (tgt = H5File p ∧ fs !! p = Some f) ∨
  (tgt = Path p ∧
   f = if bool_decide (mode = "reset") then empty_file
       else default empty_file (fs !! p)) →
  write_body' tgt items meta logs mode ks fs
  = match write_steps' items meta logs mode ks f with
    | Ok _ f' =>
        Ok (if bool_decide (mode = "append") then Some (H5File p) else None)
           (<[p := f']> fs)
    | Raise e f' => Raise e (<[p := f']> fs)
    end.
Proof.
  intros Htgt. unfold write_body. fold (write_steps' items meta logs mode ks).
  destruct Htgt as [[-> Hf]|[-> ->]].
  - unfold bind at 1. simpl. unfold bind at 1. unfold on_file. rewrite Hf.
    destruct (write_steps' items meta logs mode ks f) as [[] f'|e f']; [|done].
    by destruct (bool_decide (mode = "append")).
  - unfold bind at 1. unfold bind at 1.
    assert (open_file p (if bool_decide (mode = "reset") then "w" else "a") fs
            = Ok tt (<[p := if bool_decide (mode = "reset") then empty_file
                             else default empty_file (fs !! p)]> fs)) as ->.
    { destruct (bool_decide (mode = "reset")); [done|apply open_file_append]. }
    simpl. unfold bind at 1. unfold on_file. rewrite lookup_insert_eq.
    match goal with |- context [write_steps' _ _ _ _ _ ?f0] =>
      destruct (write_steps' items meta logs mode ks f0) as [[] f'|e f'] end;
      rewrite insert_insert_eq; [|done].
    by destruct (bool_decide (mode = "append")).
Qed.

Lemma for_each_checks_raise {S A} (l : list A) (body : A → M S unit) x :
  (∀ y, checks_only (body y)) → x ∈ l →
  (∀ s, ∃ e, body x s = Raise e s) →
  ∀ s, ∃ e, for_each l body s = Raise e s.
Proof.
  intros Hbody Hin Hx s. induction l as [|y l IH]; [by apply elem_of_nil in Hin|].
  cbn [for_each]. unfold bind.
  apply elem_of_cons in Hin as [<-|Hin].
  - destruct (Hx s) as [e ->]. eauto.
  - destruct (Hbody y) as [[e|[]] Hy]; rewrite Hy; simpl; [eauto|by apply IH].
Qed.

Lemma check_features_rejects {S} (data : list (string * pydata)) kk value (s : S) :
  (kk, value) ∈ data →
  kk ∉ (feature_names ++ ["contour"; "image"; "trace"])%list
  ∨ (kk = "trace" ∧ ∃ d sk a, value = Dict d ∧ (sk, a) ∈ d ∧ sk ∉ FLUOR_TRACES) →
  ∃ e, check_features feature_names FLUOR_TRACES data s = Raise e s.
Proof.
  intros Hin Hbad. unfold check_features. unfold bind at 1.
  match goal with |- context [for_each data ?body s] =>
    destruct (for_each_checks_raise data body (kk, value)) with (s := s) as [e He] end;
    [|done| |].
  - intros [kk' value'].
    apply checks_only_bind; [apply checks_only_when, checks_only_raise|].
    intros _. apply checks_only_when, check_trace_keys_checks_only.
  - intros s'. unfold bind.
    destruct (bool_decide (kk ∈ (feature_names ++ ["contour"; "image"; "trace"])%list)) eqn:E;
      simpl; [|eauto].
    destruct Hbad as [Hbad|(-> & d & sk & a & -> & Hsk & Hno)].
    { by apply bool_decide_eq_true in E. }
    rewrite bool_decide_eq_true_2 by done. simpl.
    apply (for_each_checks_raise d _ (sk, a)); [|done|].
    + intros [sk' v']. apply checks_only_when, checks_only_raise.
    + intros s''. rewrite bool_decide_eq_false_2 by done. simpl. eauto.
  - rewrite He. eauto.
Qed.

(** X10: [write] validates before it acts. A mode that is not one of
    the three, a [data] that is not dict-like, a key of [data] that is no
    feature name, or a trace channel that is not known ends the call with
    an exception before the file is opened or created: the file system is
    as it was. *)
Theorem write_validates_first
    (path_or_h5file : target) (data : pyarg) (meta : source)
    (logs : list (string * logdata)) (mode : string) (fs : gmap string file) :
  mode ∉ ["append"; "replace"; "reset"]
  ∨ data = NotDictLike
  ∨ (∃ items kk value,
       data = DictLike items ∧ (kk, value) ∈ items ∧
       (kk ∉ (feature_names ++ ["contour"; "image"; "trace"])%list
        ∨ (kk = "trace" ∧
           ∃ d sk a, value = Dict d ∧ (sk, a) ∈ d ∧ sk ∉ FLUOR_TRACES))) →
  ∃ e, write' path_or_h5file data meta logs mode fs = Raise e fs.
Proof.
  intros Hbad. rewrite write_split. unfold bind at 1.
  assert (∃ e, write_checks' data meta mode fs = Raise e fs) as [e ->]; [|eauto].
  unfold write_checks. unfold bind at 1.
  destruct (bool_decide (mode ∈ ["append"; "replace"; "reset"])) eqn:Hmode; simpl; [|eauto].
  apply bool_decide_eq_true in Hmode.
  destruct Hbad as [Hbad|[->|(items & kk & value & -> & Hin & Hbad)]]; [done| |].
  - unfold bind. simpl. eauto.
  - unfold bind at 1. simpl. unfold bind at 1.
    destruct (check_meta_checks_only (S := gmap string file) meta) as [[e|[]] Hm];
      rewrite Hm; simpl; [eauto|].
    unfold bind at 1.
    destruct (check_features_rejects items kk value fs Hin Hbad) as [e ->]. eauto.
Qed.

(** X11: in mode [reset] with a path, nothing of the file that was there
    is kept: a call that returns has returned [None], has left every
    other path alone, and has left at the path the file that the same
    call leaves on an empty file system. *)
Theorem reset_forgets
    (p : string) (data : pyarg) (meta : source) (logs : list (string * logdata))
    (fs fs' : gmap string file) (r : option target) :
  write' (Path p) data meta logs "reset" fs = Ok r fs' →
  r = None ∧
  ∃ f,
    fs' = <[p := f]> fs ∧
    write' (Path p) data meta logs "reset" ∅ = Ok None {[ p := f ]}.
Proof.
  rewrite !write_split. intros ([items ks] & s1 & Hcheck & Hbody)%bind_ok.
  destruct (write_checks_only (S := gmap string file) data meta "reset") as [res Hres].
  rewrite Hres in Hcheck. destruct res as [e|checked]; [done|].
  injection Hcheck as -> <-.
  unfold bind at 1. rewrite Hres. simpl.
  rewrite (write_body_file (Path p) p _ _ _ _ _ fs empty_file) in Hbody by (by right).
  rewrite (write_body_file (Path p) p _ _ _ _ _ ∅ empty_file) by (by right).
  cbn [fst snd] in Hbody.
  destruct (write_steps' items meta logs "reset" ks empty_file) as [[] f'|e f']; [|done].
  simpl in *. injection Hbody as <- <-. split; [done|].
  exists f'. split; [done|]. by rewrite insert_empty.
Qed.

(** *** Logs *)

Lemma dataset_eta (d : dataset) : {| values := values d; dattrs := dattrs d |} = d.
Proof. by destruct d. Qed.

Lemma log_loop_exact lkey (oldsize : nat) (pairs : list (nat * string))
    (lg : gmap string node) d :
  lg !! lkey = Some (Dataset d) →
  for_each pairs (λ '(ii, line),
    log_group <- get ;;
    match log_group !! lkey with
    | Some (Dataset log_dset) =>
        modify (<[lkey := Dataset {| values := <[(oldsize + ii)%nat := Str line]> (values log_dset);
                                     dattrs := dattrs log_dset |}]>)
    | _ => raise (KeyError lkey)
    end) lg
  = Ok tt (<[lkey := Dataset
              {| values := foldl (λ vs il, <[(oldsize + il.1)%nat := Str il.2]> vs)
                             (values d) pairs;
                 dattrs := dattrs d |}]> lg).
Proof.
  revert lg d. induction pairs as [|[ii line] pairs IH]; intros lg d Hd.
  - simpl. unfold ret. by rewrite dataset_eta, insert_id.
  - cbn [for_each foldl]. unfold bind at 1. unfold bind at 1. unfold get at 1.
    rewrite Hd. unfold modify at 1.
    rewrite (IH _ {| values := <[(oldsize + ii)%nat := Str line]> (values d);
                     dattrs := dattrs d |}) by apply lookup_insert_eq.
    by rewrite insert_insert_eq.
Qed.

Lemma fill_lines (off : nat) (lines : list string) (j : nat) (vs : list item) :
  (off + j + length lines ≤ length vs)%nat →
  foldl (λ vs il, <[(off + il.1)%nat := Str il.2]> vs) vs
    (imap (λ ii line, ((j + ii)%nat, line)) lines)
  = (take (off + j) vs ++ (Str <$> lines) ++ drop (off + j + length lines) vs)%list.
Proof.
  revert j vs. induction lines as [|x l IH]; intros j vs Hlen.
  - simpl. by rewrite Nat.add_0_r, take_drop.
  - cbn [imap foldl length fmap list_fmap fst snd] in *.
    rewrite (imap_ext _ (λ ii line, ((S j + ii)%nat, line)))
      by (intros; simpl; f_equal; lia).
    rewrite IH by (rewrite length_insert; lia).
    rewrite Nat.add_0_r.
    replace (off + S j)%nat with (S (off + j)) by lia.
    rewrite (take_S_r _ _ (Str x)) by (apply list_lookup_insert_eq; lia).
    rewrite take_insert_ge by lia. rewrite drop_insert_lt by lia.
    rewrite <- app_assoc. simpl.
    by replace (S (off + j + length l)) with (off + j + S (length l))%nat by lia.
Qed.

(** What [store_log] leaves: the lines of the log as one dataset, after
    the lines that were there. *)
Lemma store_log_spec lkey ldata (lg : gmap string node) :
  store_log lkey ldata lg =
  match lg !! lkey with
  | None => Ok tt (<[lkey := Dataset (plain (Str <$> log_lines ldata))]> lg)
  | Some (Dataset d) =>
      Ok tt (<[lkey := Dataset {| values := (values d ++ (Str <$> log_lines ldata))%list;
                                  dattrs := dattrs d |}]> lg)
  | Some (Group _) => Raise (AttributeError "'Group' object has no attribute 'shape'") lg
  end.
Proof.
  unfold store_log. fold (log_lines ldata). unfold bind at 1, get at 1.
  destruct (lg !! lkey) as [[d|g]|] eqn:Hk; [| done |].
  - unfold bind at 1, modify at 1.
    rewrite (log_loop_exact lkey (length (values d)) _ _
               (resize (length (values d) + length (log_lines ldata)) d))
      by apply lookup_insert_eq.
    rewrite insert_insert_eq. do 3 f_equal.
    rewrite (fill_lines _ _ 0); unfold resize; simpl.
    + rewrite Nat.add_0_r.
      rewrite take_app_le by (rewrite length_take; lia).
      rewrite take_take, Nat.min_l by lia.
      rewrite take_ge by lia.
      rewrite drop_ge; [by rewrite app_nil_r|].
      rewrite length_app, length_take, length_replicate. lia.
    + rewrite length_app, length_take, length_replicate. lia.
  - unfold bind at 1, create_dataset, bind at 1, get at 1. rewrite Hk.
    unfold modify at 1.
    rewrite (log_loop_exact lkey 0 _ _
               {| values := replicate (length (log_lines ldata)) (Str ""); dattrs := ∅ |})
      by apply lookup_insert_eq.
    rewrite insert_insert_eq. do 3 f_equal. unfold plain. f_equal. simpl.
    rewrite (fill_lines 0 _ 0); simpl.
    + rewrite drop_ge; [by rewrite app_nil_r|]. by rewrite length_replicate.
    + by rewrite length_replicate.
Qed.

Lemma write_logs_one lkey ldata (f : file) :
  write_logs [(lkey, ldata)] "append" f
  = let lg := default ∅ (groups f !! "logs") in
    match store_log lkey ldata lg with
    | Ok _ lg' => Ok tt (set_groups (<["logs" := lg']> (groups f)) f)
    | Raise e lg' => Raise e (set_groups (<["logs" := lg']> (groups f)) f)
    end.
Proof.
  unfold write_logs. unfold bind at 1. rewrite require_group_spec.
  unfold bind at 1. simpl. unfold bind at 1. unfold on_group. simpl.
  rewrite lookup_insert_eq.
  destruct (store_log lkey ldata (default ∅ (groups f !! "logs"))) as [[] lg'|e lg'];
    simpl; by rewrite insert_insert_eq.
Qed.

Lemma write_data_nothing (f : file) :
  write_data feature_names [] [] "append" f
  = Ok tt (set_groups (<["events" := default ∅ (groups f !! "events")]> (groups f)) f).
Proof.
  unfold write_data. unfold bind at 1. by rewrite require_group_spec.
Qed.

(** X12: logs are appended to. In mode [append], a call that brings one
    log and no data leaves under the log's name, in the group [logs], the
    lines that were there followed by the new lines in their order, a
    single string counting as one line; a log that was not there is
    created, and every other log is left alone. *)
Theorem append_log
    (path_or_h5file : target) (p lkey : string) (ldata : logdata)
    (fs : gmap string file) (f0 : file) :
  (path_or_h5file = H5File p ∧ fs !! p = Some f0) ∨
  (path_or_h5file = Path p ∧ f0 = default empty_file (fs !! p)) →
  (∀ g, member f0 "logs" lkey ≠ Some (Group g)) →
  ∃ f',
    write' path_or_h5file (DictLike []) [] [(lkey, ldata)] "append" fs
      = Ok (Some (H5File p)) (<[p := f']> fs) ∧
    member f' "logs" lkey
      = Some (Dataset
                match member f0 "logs" lkey with
                | Some (Dataset d) =>
                    {| values := (values d ++ (Str <$> log_lines ldata))%list;
                       dattrs := dattrs d |}
                | _ => plain (Str <$> log_lines ldata)
                end) ∧
    ∀ other, other ≠ lkey → member f' "logs" other = member f0 "logs" other.
Proof.
  intros Htgt Hnogroup. rewrite write_split.
  assert (write_checks' (DictLike []) [] "append" fs = Ok ([], []) fs) as Hchecks by done.
  unfold bind at 1. rewrite Hchecks. cbn [fst snd].
  rewrite (write_body_file _ p _ _ _ _ _ _ f0)
    by (destruct Htgt as [?|[? ?]]; [by left|by right]).
  unfold write_steps. unfold bind at 1.
  assert (write_meta config_types version [] f0
          = Ok tt (set_attrs (<["setup:software version" := CStr ("dclab " +:+ version)]>
                                (attrs f0)) f0)) as -> by done.
  unfold bind at 1. rewrite write_data_nothing.
  rewrite write_logs_one. simpl.
  rewrite lookup_insert_ne by done.
  rewrite store_log_spec.
  assert (member f0 "logs" lkey = default ∅ (groups f0 !! "logs") !! lkey) as Hmem.
  { unfold member. by destruct (groups f0 !! "logs"). }
  rewrite Hmem in Hnogroup |- *.
  destruct (default ∅ (groups f0 !! "logs") !! lkey) as [[d|g]|] eqn:Hk;
    [|by destruct (Hnogroup g)|].
  all: eexists; split; [reflexivity|]; unfold member; simpl;
    rewrite lookup_insert_eq; simpl; rewrite lookup_insert_eq; split; [done|];
    intros other Hother; rewrite lookup_insert_ne by done;
    by destruct (groups f0 !! "logs").
Qed.

(** *** Contours *)

Lemma contour_keys (cs : list (list item)) k :
  k ∈ (imap (λ i c, (pretty i, plain c)) cs).*1 →
  ∃ i, (i < length cs)%nat ∧ k = pretty i.
Proof.
  intros ([k' d] & -> & Hin)%list_elem_of_fmap.
  apply elem_of_lookup_imap in Hin as (i & c & [= -> ->] & Hc).
  exists i. split; [by eapply lookup_lt_Some|done].
Qed.

Lemma contour_group_snoc (cs : list (list item)) c :
  contour_group (cs ++ [c])%list = <[pretty (length cs) := plain c]> (contour_group cs).
Proof.
  unfold contour_group. rewrite imap_app. simpl. rewrite Nat.add_0_r.
  apply list_to_map_snoc. intros (i & Hi & Heq%(inj pretty))%contour_keys. lia.
Qed.

Lemma contour_group_lookup (cs : list (list item)) (i : nat) :
  contour_group cs !! pretty i = plain <$> cs !! i.
Proof.
  induction cs as [|c cs IH] using rev_ind.
  - by rewrite lookup_nil.
  - rewrite contour_group_snoc. destruct (decide (i = length cs)) as [->|Hne].
    + rewrite lookup_insert_eq. by rewrite list_lookup_middle.
    + rewrite lookup_insert_ne by (by intros ?%(inj pretty)). rewrite IH.
      destruct (decide (i < length cs)%nat).
      * by rewrite lookup_app_l.
      * rewrite (lookup_ge_None_2 cs) by lia.
        rewrite lookup_ge_None_2; [done|]. rewrite length_app. simpl. lia.
Qed.

Lemma contour_group_size (cs : list (list item)) :
  size (contour_group cs) = length cs.
Proof.
  induction cs as [|c cs IH] using rev_ind; [done|].
  rewrite contour_group_snoc, map_size_insert_None.
  - rewrite IH, length_app. simpl. lia.
  - rewrite contour_group_lookup. by rewrite lookup_ge_None_2.
Qed.

Lemma contour_loop (curid : nat) (new stored old : list (list item))
    (g : gmap string node) :
  curid = length old →
  g !! "contour" = Some (Group (contour_group (old ++ stored)%list)) →
  for_each (imap (λ ii cc, ((length stored + ii)%nat, cc)) new) (λ '(ii, cc),
    h5group <- get ;;
    match h5group !! "contour" with
    | Some (Group grp) =>
        match create_dataset id (pretty (curid + ii)%nat) cc ∅ grp with
        | Ok _ grp' => modify (<["contour" := Group grp']>)
        | Raise e _ => raise e
        end
    | _ => raise (KeyError "contour")
    end) g
  = Ok tt (<["contour" := Group (contour_group (old ++ stored ++ new)%list)]> g).
Proof.
  intros ->. revert stored g. induction new as [|c new IH]; intros stored g Hg.
  - simpl. unfold ret. by rewrite app_nil_r, insert_id.
  - cbn [imap for_each]. unfold bind at 1. unfold bind at 1, get at 1. rewrite Hg.
    unfold create_dataset, bind, get. rewrite Nat.add_0_r.
    replace (length old + length stored)%nat with (length (old ++ stored)%list)
      by apply length_app.
    rewrite contour_group_lookup, lookup_ge_None_2 by done. simpl.
    unfold modify at 1 2. fold (plain c). rewrite <- contour_group_snoc.
    rewrite (imap_ext _ (λ ii cc, ((length (stored ++ [c])%list + ii)%nat, cc)))
      by (intros; rewrite length_app; simpl; f_equal; lia).
    rewrite <- app_assoc.
    rewrite (IH (stored ++ [c])%list) by apply lookup_insert_eq.
    rewrite insert_insert_eq. by rewrite <- (app_assoc stored [c] new).
Qed.

(** X13: contours are numbered in the order they are stored. When the
    group [contour] holds one dataset per contour, named [0], [1], ... in
    order, or is not there yet, [store_contour] returns and the group
    holds the old contours followed by the new ones, named in the same
    way; a single array is stored as one contour. *)
Theorem store_contour_numbers
    (g : gmap string node) (old new : list (list item)) (one : list item) :
  g !! "contour" = Some (Group (contour_group old))
  ∨ (g !! "contour" = None ∧ old = []) →
  store_contour (PyList new) g
    = Ok tt (<["contour" := Group (contour_group (old ++ new)%list)]> g) ∧
  store_contour (Array one) g
    = Ok tt (<["contour" := Group (contour_group (old ++ [one])%list)]> g) ∧
  ∀ i : nat,
    contour_group (old ++ new)%list !! pretty i = plain <$> (old ++ new)%list !! i.
Proof.
  intros Hg.
  assert (∀ cs, (data <- lift (inr cs) ;;
                 h5group <- get ;;
                 match h5group !! "contour" with
                 | None =>
                     modify (<["contour" := Group ∅]>) ;;;
                     for_each (imap (λ ii cc, (ii, cc)) data) (λ '(ii, cc),
                       h5group <- get ;;
                       match h5group !! "contour" with
                       | Some (Group dset) =>
                           match create_dataset id (pretty ii) cc ∅ dset with
                           | Ok _ dset' => modify (<["contour" := Group dset']>)
                           | Raise e _ => raise e
                           end
                       | _ => raise (KeyError "contour")
                       end)
                 | Some (Group grp) =>
                     let curid := size grp in
                     for_each (imap (λ ii cc, (ii, cc)) data) (λ '(ii, cc),
                       h5group <- get ;;
                       match h5group !! "contour" with
                       | Some (Group grp) =>
                           match create_dataset id (pretty (curid + ii)%nat) cc ∅ grp with
                           | Ok _ grp' => modify (<["contour" := Group grp']>)
                           | Raise e _ => raise e
                           end
                       | _ => raise (KeyError "contour")
                       end)
                 | Some (Dataset _) =>
                     raise (AttributeError "'Dataset' object has no attribute 'keys'")
                 end) g
                = Ok tt (<["contour" := Group (contour_group (old ++ cs)%list)]> g)) as Hrun.
  { intros cs. unfold bind at 1, lift at 1. unfold bind at 1, get at 1.
    destruct Hg as [Hg|[Hg ->]]; rewrite Hg.
    - cbn zeta. rewrite contour_group_size.
      apply (contour_loop (length old) cs [] old); [done|]. by rewrite app_nil_r.
    - unfold bind at 1, modify at 1.
      rewrite (contour_loop 0 cs [] [] (<["contour" := Group ∅]> g));
        [by rewrite insert_insert_eq|done|apply lookup_insert_eq]. }
  split; [apply Hrun|]. split; [apply (Hrun [one])|].
  intros i. apply contour_group_lookup.
Qed.

(** *** Nothing is lost in mode [append] *)

Lemma dataset_grows_refl d : dataset_grows d d.
Proof. by split. Qed.

Lemma dataset_grows_trans d1 d2 d3 :
  dataset_grows d1 d2 → dataset_grows d2 d3 → dataset_grows d1 d3.
Proof. intros [H1 E1] [H2 E2]. split; [by etrans|congruence]. Qed.

Lemma node_grows_refl n : node_grows n n.
Proof.
  destruct n as [d|g]; simpl; [apply dataset_grows_refl|].
  intros k d Hk. exists d. split; [done|apply dataset_grows_refl].
Qed.

Lemma node_grows_trans n1 n2 n3 :
  node_grows n1 n2 → node_grows n2 n3 → node_grows n1 n3.
Proof.
  destruct n1 as [d1|g1], n2 as [d2|g2], n3 as [d3|g3]; simpl; try done.
  - apply dataset_grows_trans.
  - intros H1 H2 k d Hk. destruct (H1 k d Hk) as (d' & Hk' & Hd).
    destruct (H2 k d' Hk') as (d'' & Hk'' & Hd'). exists d''.
    split; [done|by eapply dataset_grows_trans].
Qed.

Lemma group_grows_refl g : group_grows g g.
Proof. intros k n Hk. exists n. split; [done|apply node_grows_refl]. Qed.

Lemma group_grows_trans g1 g2 g3 :
  group_grows g1 g2 → group_grows g2 g3 → group_grows g1 g3.
Proof.
  intros H1 H2 k n Hk. destruct (H1 k n Hk) as (n' & Hk' & Hn).
  destruct (H2 k n' Hk') as (n'' & Hk'' & Hn'). exists n''.
  split; [done|by eapply node_grows_trans].
Qed.

Lemma file_grows_refl f : file_grows f f.
Proof. intros name g Hg. exists g. split; [done|apply group_grows_refl]. Qed.

Lemma file_grows_trans f1 f2 f3 :
  file_grows f1 f2 → file_grows f2 f3 → file_grows f1 f3.
Proof.
  intros H1 H2 name g Hg. destruct (H1 name g Hg) as (g' & Hg' & Hgr).
  destruct (H2 name g' Hg') as (g'' & Hg'' & Hgr'). exists g''.
  split; [done|by eapply group_grows_trans].
Qed.

Lemma group_grows_new (g : gmap string node) k n :
  g !! k = None → group_grows g (<[k := n]> g).
Proof.
  intros Hk k' x Hk'. exists x. split; [|apply node_grows_refl].
  rewrite lookup_insert_ne; [done|]. intros ->. congruence.
Qed.

Lemma group_grows_grown (g : gmap string node) k n n' :
  g !! k = Some n → node_grows n n' → group_grows g (<[k := n']> g).
Proof.
  intros Hk Hn k' x Hk'. destruct (decide (k' = k)) as [->|Hne].
  - exists n'. rewrite lookup_insert_eq. split; [done|]. congruence.
  - exists x. rewrite lookup_insert_ne by done. split; [done|apply node_grows_refl].
Qed.

Lemma subgroup_new (grp : gmap string dataset) k d :
  grp !! k = None → node_grows (Group grp) (Group (<[k := d]> grp)).
Proof.
  intros Hk k' x Hk'. exists x. split; [|apply dataset_grows_refl].
  rewrite lookup_insert_ne; [done|]. intros ->. congruence.
Qed.

Lemma subgroup_grown (grp : gmap string dataset) k d d' :
  grp !! k = Some d → dataset_grows d d' →
  node_grows (Group grp) (Group (<[k := d']> grp)).
Proof.
  intros Hk Hd k' x Hk'. destruct (decide (k' = k)) as [->|Hne].
  - exists d'. rewrite lookup_insert_eq. split; [done|]. congruence.
  - exists x. rewrite lookup_insert_ne by done. split; [done|apply dataset_grows_refl].
Qed.

Lemma bind_keeps {S A B} (R : S → S → Prop) (m : M S A) (k : A → M S B) s :
  (∀ s1 s2 s3, R s1 s2 → R s2 s3 → R s1 s3) →
  R s (state_after (m s)) →
  (∀ a s', R s' (state_after (k a s'))) →
  R s (state_after (bind m k s)).
Proof.
  intros Htrans Hm Hk. unfold bind. destruct (m s) as [a s'|e s']; simpl in *; [|done].
  eapply Htrans; [done|apply Hk].
Qed.

Lemma store_dataset_grows name data (dsattrs : gmap string string)
    (g : gmap string node) :
  group_grows g
    (state_after
       (match g !! name with
        | None => create_dataset Dataset name data dsattrs
        | Some (Dataset dset) =>
            dset' <- lift (append_rows data dset) ;;
            modify (<[name := Dataset dset']>)
        | Some (Group _) =>
            raise (AttributeError "'Group' object has no attribute 'shape'")
        end g)).
Proof.
  destruct (g !! name) as [[dset|grp]|] eqn:Hk.
  - rewrite append_rows_spec at 1. unfold bind, lift, modify. simpl.
    apply (group_grows_grown g name (Dataset dset)); [done|].
    simpl. split; [by apply prefix_app_r|done].
  - apply group_grows_refl.
  - unfold create_dataset, bind, get. rewrite Hk. simpl.
    by apply group_grows_new.
Qed.

Lemma store_scalar_grows name data (g : gmap string node) :
  group_grows g (state_after (store_scalar name data g)).
Proof.
  unfold store_scalar. unfold bind at 1, lift at 1.
  destruct data as [x|a|l|d]; try apply group_grows_refl.
  all: unfold bind at 1, get at 1; apply store_dataset_grows.
Qed.

Lemma store_image_grows data (g : gmap string node) :
  group_grows g (state_after (store_image data g)).
Proof.
  unfold store_image. unfold bind at 1, lift at 1.
  destruct data as [x|a|l|d]; try apply group_grows_refl.
  unfold bind at 1, get at 1. apply store_dataset_grows.
Qed.

Lemma create_in_group_grows name (flt : string) (a : list item)
    (grp : gmap string dataset) (g : gmap string node) :
  g !! name = Some (Group grp) →
  group_grows g
    (state_after
       (match create_dataset id flt a ∅ grp with
        | Ok _ grp' => modify (<[name := Group grp']>)
        | Raise e _ => raise e
        end g)).
Proof.
  intros Hg. unfold create_dataset, bind, get.
  destruct (grp !! flt) as [d|] eqn:Hd; [apply group_grows_refl|].
  simpl. apply (group_grows_grown g name (Group grp)); [done|].
  by apply subgroup_new.
Qed.

Lemma contour_body_grows (name_of : nat → string) (g : gmap string node)
    (x : nat * list item) :
  group_grows g
    (state_after
       ((let '(ii, cc) := x in
         h5group <- get ;;
         match h5group !! "contour" with
         | Some (Group grp) =>
             match create_dataset id (name_of ii) cc ∅ grp with
             | Ok _ grp' => modify (<["contour" := Group grp']>)
             | Raise e _ => raise e
             end
         | _ => raise (KeyError "contour")
         end) g)).
Proof.
  destruct x as [ii cc]. unfold bind, get.
  destruct (g !! "contour") as [[d|grp]|] eqn:Hg; try apply group_grows_refl.
  by apply create_in_group_grows.
Qed.

Lemma store_contour_grows data (g : gmap string node) :
  group_grows g (state_after (store_contour data g)).
Proof.
  unfold store_contour. unfold bind at 1, lift at 1.
  assert (∀ cs : list (list item),
    group_grows g (state_after
      ((h5group <- get ;;
        match h5group !! "contour" with
        | None =>
            modify (<["contour" := Group ∅]>) ;;;
            for_each (imap (λ ii cc, (ii, cc)) cs) (λ '(ii, cc),
              h5group <- get ;;
              match h5group !! "contour" with
              | Some (Group dset) =>
                  match create_dataset id (pretty ii) cc ∅ dset with
                  | Ok _ dset' => modify (<["contour" := Group dset']>)
                  | Raise e _ => raise e
                  end
              | _ => raise (KeyError "contour")
              end)
        | Some (Group grp) =>
            let curid := size grp in
            for_each (imap (λ ii cc, (ii, cc)) cs) (λ '(ii, cc),
              h5group <- get ;;
              match h5group !! "contour" with
              | Some (Group grp) =>
                  match create_dataset id (pretty (curid + ii)%nat) cc ∅ grp with
                  | Ok _ grp' => modify (<["contour" := Group grp']>)
                  | Raise e _ => raise e
                  end
              | _ => raise (KeyError "contour")
              end)
        | Some (Dataset _) =>
            raise (AttributeError "'Dataset' object has no attribute 'keys'")
        end) g))) as Hrun.
  { intros cs. unfold bind at 1, get at 1.
    destruct (g !! "contour") as [[d|grp]|] eqn:Hg.
    - apply group_grows_refl.
    - cbn zeta. apply (for_each_keeps group_grows);
        [apply group_grows_refl|apply group_grows_trans|].
      intros x s. apply (contour_body_grows (λ ii, pretty (size grp + ii)%nat)).
    - apply bind_keeps; [apply group_grows_trans| |].
      + simpl. by apply group_grows_new.
      + intros _ s'. apply (for_each_keeps group_grows);
          [apply group_grows_refl|apply group_grows_trans|].
        intros x s. apply (contour_body_grows (λ ii, pretty ii)). }
  destruct data as [x|a|l|d]; [apply Hrun ..|apply group_grows_refl].
Qed.

Lemma store_trace_grows data (g : gmap string node) :
  group_grows g (state_after (store_trace data g)).
Proof.
  unfold store_trace. unfold bind at 1, lift at 1.
  destruct data as [x|a|l|d]; try apply group_grows_refl.
  unfold bind at 1, lift at 1.
  destruct (first_sorted d.*1) as [e|firstkey]; [apply group_grows_refl|].
  unfold bind at 1, get at 1.
  apply bind_keeps; [apply group_grows_trans| |].
  - destruct (g !! "trace") as [n|] eqn:Hg; simpl.
    + apply group_grows_refl.
    + by apply group_grows_new.
  - intros _ s'. apply (for_each_keeps group_grows);
      [apply group_grows_refl|apply group_grows_trans|].
    intros [flt a] s. unfold bind at 1, get at 1.
    destruct (s !! "trace") as [[dd|grp]|] eqn:Hs; try apply group_grows_refl.
    destruct (grp !! flt) as [dset|] eqn:Hf.
    + rewrite append_rows_spec. unfold bind, lift, modify. simpl.
      apply (group_grows_grown s "trace" (Group grp)); [done|].
      apply (subgroup_grown grp flt dset); [done|].
      split; [by apply prefix_app_r|done].
    + pose proof (create_in_group_grows "trace" flt a grp s Hs) as Hc.
      unfold create_dataset, bind, get in Hc |- *. by rewrite Hf in Hc |- *.
Qed.

Lemma store_log_grows lkey ldata (g : gmap string node) :
  group_grows g (state_after (store_log lkey ldata g)).
Proof.
  rewrite store_log_spec. destruct (g !! lkey) as [[d|grp]|] eqn:Hk; simpl.
  - apply (group_grows_grown g lkey (Dataset d)); [done|].
    simpl. split; [by apply prefix_app_r|done].
  - apply group_grows_refl.
  - by apply group_grows_new.
Qed.

Lemma on_group_grows {A} name (m : M (gmap string node) A) (f : file) :
  (∀ g, group_grows g (state_after (m g))) →
  file_grows f (state_after (on_group name m f)).
Proof.
  intros Hm. unfold on_group. destruct (groups f !! name) as [g|] eqn:Hg;
    [|apply file_grows_refl].
  specialize (Hm g).
  assert (file_grows f (set_groups (<[name := state_after (m g)]> (groups f)) f)) as Hf.
  { intros name' g' Hg'. simpl. destruct (decide (name' = name)) as [->|Hne].
    - rewrite lookup_insert_eq. eexists. split; [done|].
      rewrite Hg in Hg'. by injection Hg' as <-.
    - rewrite lookup_insert_ne by done. exists g'. split; [done|apply group_grows_refl]. }
  by destruct (m g).
Qed.

Lemma require_group_grows name (f : file) :
  file_grows f (state_after (require_group name f)).
Proof.
  rewrite require_group_spec. simpl. intros name' g Hg. simpl.
  destruct (decide (name' = name)) as [->|Hne].
  - rewrite lookup_insert_eq, Hg. exists g. split; [done|apply group_grows_refl].
  - rewrite lookup_insert_ne by done. exists g. split; [done|apply group_grows_refl].
Qed.

Lemma lift_keeps {S A B} (R : S → S → Prop) (r : exn + A) (k : A → M S B) s :
  (∀ s, R s s) → (∀ a s', R s' (state_after (k a s'))) →
  R s (state_after (bind (lift r) k s)).
Proof. intros Hrefl Hk. unfold bind, lift. destruct r; [apply Hrefl|apply Hk]. Qed.

Lemma write_data_grows data ks (f : file) :
  file_grows f (state_after (write_data feature_names data ks "append" f)).
Proof.
  unfold write_data.
  apply bind_keeps; [apply file_grows_trans|apply require_group_grows|].
  intros _ f1. apply bind_keeps; [apply file_grows_trans|apply file_grows_refl|].
  intros _ f2. apply (for_each_keeps file_grows);
    [apply file_grows_refl|apply file_grows_trans|].
  intros fk f3.
  repeat case_match; try apply file_grows_refl;
    (apply lift_keeps; [apply file_grows_refl|]); intros value f4; apply on_group_grows.
  - apply store_scalar_grows.
  - apply store_contour_grows.
  - apply store_image_grows.
  - apply store_trace_grows.
Qed.

Lemma write_logs_grows logs (f : file) :
  file_grows f (state_after (write_logs logs "append" f)).
Proof.
  unfold write_logs.
  apply bind_keeps; [apply file_grows_trans|apply require_group_grows|].
  intros _ f1. apply bind_keeps; [apply file_grows_trans|apply file_grows_refl|].
  intros _ f2. apply (for_each_keeps file_grows);
    [apply file_grows_refl|apply file_grows_trans|].
  intros [lkey ldata] f3. apply on_group_grows. apply store_log_grows.
Qed.

Lemma write_steps_grows data meta logs ks (f : file) :
  file_grows f (state_after (write_steps' data meta logs "append" ks f)).
Proof.
  unfold write_steps. apply bind_keeps; [apply file_grows_trans| |].
  - pose proof (write_meta_groups config_types version meta f) as Hg.
    intros name g Hname. rewrite Hg. exists g. split; [done|apply group_grows_refl].
  - intros _ f1. apply bind_keeps; [apply file_grows_trans|apply write_data_grows|].
    intros _ f2. apply write_logs_grows.
Qed.


(** *** Attributes *)

Lemma write_attr_ok sec ck value (f f' : file) :
  write_attr config_types sec (ck, value) f = Ok tt f' →
  ∃ c, converted config_types (sec, ck, value) = Some c ∧
       f' = set_attrs (<[sec +:+ ":" +:+ ck := c]> (attrs f)) f.
Proof.
  unfold write_attr, converted, bind, lift, modify. simpl.
  destruct (config_types !! sec) as [types|]; [|done]. simpl.
  destruct (types !! ck) as [conftype|]; [|done]. simpl.
  destruct (conftype value) as [e|c]; [done|]. intros [= <-]. eauto.
Qed.

Lemma write_attrs_section sec keys (f f' : file) name :
  for_each keys (write_attr config_types sec) f = Ok tt f' →
  groups f' = groups f ∧
  attrs f' !! name =
    match written_in sec keys name with
    | Some x => converted config_types (sec, x.1, x.2)
    | None => attrs f !! name
    end ∧
  (is_Some (written_in sec keys name) → is_Some (attrs f' !! name)).
Proof.
  revert f. induction keys as [|[ck value] keys IH]; intros f.
  - intros [= <-]. split; [done|]. split; [done|]. by intros [? ?].
  - cbn [for_each written_in]. intros ([] & f1 & H1 & H2)%bind_ok.
    apply write_attr_ok in H1 as (c & Hc & ->).
    destruct (IH _ H2) as (Hg & Ha & Hs). split; [done|].
    destruct (written_in sec keys name) as [x|]; [by auto|].
    rewrite Ha. simpl. destruct (decide (sec +:+ ":" +:+ ck = name)) as [<-|Hne].
    + rewrite lookup_insert_eq. cbn [fst snd]. rewrite Hc. eauto.
    + rewrite lookup_insert_ne by done. split; [done|]. by intros [? ?].
Qed.

Lemma write_attrs_meta meta (f f' : file) name :
  for_each meta (λ '(sec, keys), for_each keys (write_attr config_types sec)) f
    = Ok tt f' →
  groups f' = groups f ∧
  attrs f' !! name =
    match written meta name with
    | Some x => converted config_types x
    | None => attrs f !! name
    end ∧
  (is_Some (written meta name) → is_Some (attrs f' !! name)).
Proof.
  revert f. induction meta as [|[sec keys] meta IH]; intros f.
  - intros [= <-]. split; [done|]. split; [done|]. by intros [? ?].
  - cbn [for_each written]. intros ([] & f1 & H1 & H2)%bind_ok.
    destruct (write_attrs_section _ _ _ _ name H1) as (Hg1 & Ha1 & Hs1).
    destruct (IH _ H2) as (Hg & Ha & Hs). split; [congruence|].
    destruct (written meta name) as [x|]; [by auto|].
    rewrite Ha, Ha1. destruct (written_in sec keys name) as [x|]; simpl; [|done].
    split; [done|]. intros _. rewrite <- Ha1. apply Hs1. eauto.
Qed.

Lemma on_group_attrs {A} name (m : M (gmap string node) A) (f : file) :
  attrs (state_after (on_group name m f)) = attrs f.
Proof.
  unfold on_group. destruct (groups f !! name) as [g|]; [|done]. by destruct (m g).
Qed.

Lemma write_data_attrs data ks mode (f : file) :
  attrs (state_after (write_data feature_names data ks mode f)) = attrs f.
Proof.
  unfold write_data.
  apply (bind_keeps (λ f f' : file, attrs f' = attrs f)); [intros; congruence| |].
  { by rewrite require_group_spec. }
  intros _ f1. apply (bind_keeps (λ f f' : file, attrs f' = attrs f)); [intros; congruence| |].
  { unfold when. destruct (bool_decide (mode = "replace")); [|done].
    apply (for_each_keeps (λ f f' : file, attrs f' = attrs f)); [done|intros; congruence|].
    intros rk f2. apply on_group_attrs. }
  intros _ f2. apply (for_each_keeps (λ f f' : file, attrs f' = attrs f));
    [done|intros; congruence|].
  intros fk f3.
  repeat case_match; try done;
    (apply (lift_keeps (λ f f' : file, attrs f' = attrs f)); [done|]);
    intros value f4; apply on_group_attrs.
Qed.

Lemma write_logs_attrs logs mode (f : file) :
  attrs (state_after (write_logs logs mode f)) = attrs f.
Proof.
  unfold write_logs.
  apply (bind_keeps (λ f f' : file, attrs f' = attrs f)); [intros; congruence| |].
  { by rewrite require_group_spec. }
  intros _ f1. apply (bind_keeps (λ f f' : file, attrs f' = attrs f)); [intros; congruence| |].
  { unfold when. destruct (bool_decide (mode = "replace")); [|done].
    apply (for_each_keeps (λ f f' : file, attrs f' = attrs f)); [done|intros; congruence|].
    intros [rl ld] f2. apply on_group_attrs. }
  intros _ f2. apply (for_each_keeps (λ f f' : file, attrs f' = attrs f));
    [done|intros; congruence|].
  intros [lkey ldata] f3. apply on_group_attrs.
Qed.

(** X15: what a call of [write] that returns has left in the attributes
    of the file: the version of dclab under [setup:software version];
    under every other name [section:key] the value of the item of [meta]
    that was written to it last, converted to the type
    [dfn.config_types] gives for it; and under every name that [meta]
    does not touch what the file held before (nothing, when the file was
    created or reset). Data and logs change no attribute. *)
Theorem write_attributes
    (path_or_h5file : target) (p : string) (data : pyarg) (meta : source)
    (logs : list (string * logdata)) (mode : string)
    (fs fs' : gmap string file) (r : option target) (f0 : file) :
  (path_or_h5file = H5File p ∧ fs !! p = Some f0) ∨
  (path_or_h5file = Path p ∧
   f0 = if bool_decide (mode = "reset") then empty_file
        else default empty_file (fs !! p)) →
  write' path_or_h5file data meta logs mode fs = Ok r fs' →
  ∃ f',
    fs' = <[p := f']> fs ∧
    ∀ name,
      attrs f' !! name =
        (if decide (name = "setup:software version")
         then Some (CStr ("dclab " +:+ version))
         else match written meta name with
              | Some x => converted config_types x
              | None => attrs f0 !! name
              end) ∧
      (is_Some (written meta name) → is_Some (attrs f' !! name)).
Proof.
  intros Htgt. rewrite write_split. intros ([items ks] & s1 & Hcheck & Hbody)%bind_ok.
  destruct (write_checks_only (S := gmap string file) data meta mode) as [res Hres].
  rewrite Hres in Hcheck. destruct res as [e|checked]; [done|].
  injection Hcheck as -> <-. cbn [fst snd] in Hbody.
  rewrite (write_body_file _ p _ _ _ _ _ _ f0 Htgt) in Hbody.
  destruct (write_steps' items meta logs mode ks f0) as [[] f'|e f'] eqn:Hsteps; [|done].
  injection Hbody as <- <-. exists f'. split; [done|]. intros name.
  unfold write_steps in Hsteps.
  apply bind_ok in Hsteps as ([] & f1 & Hmeta & Hsteps).
  apply bind_ok in Hsteps as ([] & f2 & Hdata & Hlogs).
  pose proof (write_data_attrs items ks mode f1) as Ed. rewrite Hdata in Ed.
  pose proof (write_logs_attrs logs mode f2) as El. rewrite Hlogs in El.
  simpl in Ed, El. rewrite El, Ed.
  rewrite write_meta_attrs in Hmeta.
  apply bind_ok in Hmeta as ([] & fm & Hloop & [= <-]).
  destruct (write_attrs_meta _ _ _ name Hloop) as (_ & Ha & Hs). simpl.
  destruct (decide (name = "setup:software version")) as [->|Hne].
  - rewrite lookup_insert_eq. split; [done|]. eauto.
  - rewrite lookup_insert_ne by done. done.
Qed.

End Facts.

Lemma write_validates_first_witness :
  ∃ e,
    write Fixture.config_keys Fixture.config_types Fixture.feature_names
      Fixture.FLUOR_TRACES Fixture.version
      (Path "m.rtdc") (DictLike [("area", Array [Int 1]); ("volume", Array [Int 2])])
      [] [] "append" {[ "m.rtdc" := Fixture.rtdc_file ]}
    = Raise e {[ "m.rtdc" := Fixture.rtdc_file ]}.
Proof.
  apply write_validates_first. right. right.
  exists [("area", Array [Int 1]); ("volume", Array [Int 2])], "volume", (Array [Int 2]).
  split; [reflexivity|]. split.
  - apply list_elem_of_further, list_elem_of_here.
  - left. apply (bool_decide_unpack _). vm_compute. exact I.
Defined.

Lemma reset_forgets_witness :
  ∃ f,
    write Fixture.config_keys Fixture.config_types Fixture.feature_names
      Fixture.FLUOR_TRACES Fixture.version
      (Path "m.rtdc") (DictLike [("time", Array [Float 0.5])]) [] [] "reset"
      {[ "m.rtdc" := Fixture.rtdc_file ]}
    = Ok None {[ "m.rtdc" := f ]} ∧
    write Fixture.config_keys Fixture.config_types Fixture.feature_names
      Fixture.FLUOR_TRACES Fixture.version
      (Path "m.rtdc") (DictLike [("time", Array [Float 0.5])]) [] [] "reset" ∅
    = Ok None {[ "m.rtdc" := f ]}.
Proof.
  assert (raised
            (write Fixture.config_keys Fixture.config_types Fixture.feature_names
               Fixture.FLUOR_TRACES Fixture.version
               (Path "m.rtdc") (DictLike [("time", Array [Float 0.5])]) [] [] "reset"
               {[ "m.rtdc" := Fixture.rtdc_file ]}) = None) as Hr
    by (vm_compute; reflexivity).
  destruct (write Fixture.config_keys Fixture.config_types Fixture.feature_names
              Fixture.FLUOR_TRACES Fixture.version
              (Path "m.rtdc") (DictLike [("time", Array [Float 0.5])]) [] [] "reset"
              {[ "m.rtdc" := Fixture.rtdc_file ]}) as [r s|e s] eqn:Ho; [|done].
  destruct (reset_forgets _ _ _ _ _ _ _ _ _ _ _ _ Ho) as (-> & f & -> & Hempty).
  exists f. split; [|exact Hempty]. by rewrite insert_singleton_eq.
Defined.

Lemma write_attributes_witness :
  ∃ f',
    write Fixture.config_keys Fixture.config_types Fixture.feature_names
      Fixture.FLUOR_TRACES Fixture.version
      (Path "m.rtdc") (DictLike [("area", Array [Int 51])])
      [("setup", [("flow rate", CFloat 0.04)])] [] "replace"
      {[ "m.rtdc" := Fixture.rtdc_file ]}
    = Ok None (<["m.rtdc" := f']> {[ "m.rtdc" := Fixture.rtdc_file ]}) ∧
    attrs f' !! "setup:software version" = Some (CStr "dclab 0.3.0") ∧
    attrs f' !! "setup:flow rate" = Some (CFloat 0.04) ∧
    attrs f' !! "setup:channel width" = Some (CFloat 20).
Proof.
  assert (raised
            (write Fixture.config_keys Fixture.config_types Fixture.feature_names
               Fixture.FLUOR_TRACES Fixture.version
               (Path "m.rtdc") (DictLike [("area", Array [Int 51])])
               [("setup", [("flow rate", CFloat 0.04)])] [] "replace"
               {[ "m.rtdc" := Fixture.rtdc_file ]}) = None) as Hr
    by (vm_compute; reflexivity).
  destruct (write Fixture.config_keys Fixture.config_types Fixture.feature_names
              Fixture.FLUOR_TRACES Fixture.version
              (Path "m.rtdc") (DictLike [("area", Array [Int 51])])
              [("setup", [("flow rate", CFloat 0.04)])] [] "replace"
              {[ "m.rtdc" := Fixture.rtdc_file ]}) as [r s|e s] eqn:Ho; [|done].
  assert (r = None) as ->.
  { revert Ho. unfold write, bind. simpl.
    repeat case_match; try done; by intros [= <- _]. }
  eapply (write_attributes _ _ _ _ _ _ "m.rtdc" _ _ _ _ _ _ _ Fixture.rtdc_file)
    in Ho as (f' & -> & Hattrs); [|right; split; reflexivity].
  exists f'. split; [done|].
  split; [apply (Hattrs "setup:software version")|].
  split; [apply (Hattrs "setup:flow rate")|apply (Hattrs "setup:channel width")].
Defined.

Lemma append_log_witness :
  ∃ f',
    write Fixture.config_keys Fixture.config_types Fixture.feature_names
      Fixture.FLUOR_TRACES Fixture.version
      (H5File "m.rtdc") (DictLike []) [] [("setup", Line "stopped")] "append"
      {[ "m.rtdc" := Fixture.rtdc_file ]}
    = Ok (Some (H5File "m.rtdc"))
         (<["m.rtdc" := f']> {[ "m.rtdc" := Fixture.rtdc_file ]}) ∧
    member f' "logs" "setup"
    = Some (Dataset {| values := [Str "started"; Str "stopped"]; dattrs := ∅ |}).
Proof.
  destruct (append_log Fixture.config_keys Fixture.config_types Fixture.feature_names
              Fixture.FLUOR_TRACES Fixture.version
              (H5File "m.rtdc") "m.rtdc" "setup" (Line "stopped")
              {[ "m.rtdc" := Fixture.rtdc_file ]} Fixture.rtdc_file)
    as (f' & Hw & Hm & _).
  - left. split; reflexivity.
  - intros g. vm_compute. discriminate.
  - exists f'. split; [exact Hw|]. rewrite Hm. reflexivity.
Defined.

Lemma store_contour_numbers_witness :
  store_contour (PyList [[Row [Int 1; Int 2]]; [Row [Int 3; Int 4]]]) ∅
  = Ok tt {[ "contour" := Group (contour_group [[Row [Int 1; Int 2]]; [Row [Int 3; Int 4]]]) ]}.
Proof.
  refine (proj1 (store_contour_numbers ∅ [] _ [] _)).
  right. split; reflexivity.
Defined.


End WriterMore.
